(** * Unity → Godot material converter: a shallow embedding

    Embedding of [unity_godot_material_converter.py] (class
    [UnityGodotConverter]) and the properties of its resolver, locator,
    analyzer, translator and scene composer.

    Conventions of the embedding:
    - a Python [str] is a [string]; its characters are read as the code
      points U+0000..U+00FF, with Python's own classification of those code
      points for [\s], [\w], [\d] and [str.lower];
    - a Python [float] is a binary64 [float] of the kernel, so [1.0 - x] is
      the IEEE subtraction the interpreter performs;
    - a [dict] that is only looked up is a [gmap]; a [dict] that is iterated
      is an association list in insertion order;
    - the host is a POSIX one: [os.path] is [posixpath] and [os.sep] is
      ["/"]. The path functions take the separator as a parameter, but with
      another separator they are not [ntpath] (no drives, no second
      separator), so what is stated of paths is stated for ["/"];
    - the file system is a tree of named entries plus a working directory.
      Every file of the tree can be opened for reading: an entry that [open]
      refuses (a dangling symbolic link, a file without read permission) is
      not in the model, so what is stated of a call that opens files is
      stated of a call that returns, or of the text it builds;
    - the text of a file is the text a text-mode [read] returns, line ends
      translated; a text written is read back with its line ends translated;
    - a [pathlib] path is the string [str] gives for it, so a path that
      [glob] yields is normalised;
    - an exception is its class; the message Python gives it is not modelled;
    - [print] appends a line to [stdout]; every [os.walk] call increments the
      counter [walks] (an instrumentation point, not in the program);
    - [main], which reads its four arguments with [input], is not part of the
      embedding. *)

From Stdlib Require Import PrimFloat FloatOps SpecFloat ZArith Ascii.
From stdpp Require Import gmap strings list pretty.

Set Warnings "-register-all,-inexact-float".

(** ** Text primitives *)

Module Text.

Definition code (c : ascii) : N := N_of_ascii c.

Definition between (lo hi : N) (c : ascii) : bool :=
  ((lo <=? code c) && (code c <=? hi))%N.

(** [str.isspace] on U+0000..U+00FF, which is what [\s] matches. *)
Definition is_space (c : ascii) : bool :=
  between 9 13 c || between 28 32 c || (code c =? 133)%N || (code c =? 160)%N.

(** [\d]: the decimal digits (category Nd); below U+0100 only [0-9]. *)
Definition is_digit (c : ascii) : bool := between 48 57 c.

Definition is_upper (c : ascii) : bool :=
  between 65 90 c || (between 192 222 c && negb (code c =? 215)%N).

(** [\w]: alphanumeric code points and the underscore. *)
Definition is_word (c : ascii) : bool :=
  is_digit c || between 65 90 c || between 97 122 c || (code c =? 95)%N
  || (code c =? 170)%N || (code c =? 181)%N || (code c =? 186)%N
  || (code c =? 178)%N || (code c =? 179)%N || (code c =? 185)%N
  || between 188 190 c
  || between 192 214 c || between 216 246 c || between 248 255 c.

Definition lower_char (c : ascii) : ascii :=
  if is_upper c then ascii_of_N (code c + 32) else c.

(** [s.lower()] *)
Fixpoint lower (s : string) : string :=
  match s with
  | "" => ""
  | String c s' => String (lower_char c) (lower s')
  end.

(** [s.startswith(p)] *)
Fixpoint startswith (p s : string) : bool :=
  match p, s with
  | "", _ => true
  | String a p', String b s' => if decide (a = b) then startswith p' s' else false
  | String _ _, "" => false
  end.

(** [s.endswith(suffix)] *)
Fixpoint endswith (suffix s : string) : bool :=
  if decide (s = suffix) then true
  else match s with
       | "" => false
       | String _ s' => endswith suffix s'
       end.

(** [needle in s] *)
Fixpoint contains (needle s : string) : bool :=
  startswith needle s ||
  match s with
  | "" => false
  | String _ s' => contains needle s'
  end.

(** [s.replace(a, b)] for one-character [a] and [b]. *)
Fixpoint replace_char (a b : ascii) (s : string) : string :=
  match s with
  | "" => ""
  | String c s' => String (if decide (c = a) then b else c) (replace_char a b s')
  end.

(** [s[:-n]] for [n > 0] *)
Definition drop_end (n : nat) (s : string) : string :=
  String.substring 0 (String.length s - n) s.

(** [s.split(sep)] for a one-character separator: never empty. *)
Fixpoint split (sep : ascii) (s : string) : list string :=
  match s with
  | "" => [""]
  | String c s' =>
      if decide (c = sep) then "" :: split sep s'
      else match split sep s' with
           | [] => [String c ""]
           | w :: ws => String c w :: ws
           end
  end.

(** [sep.join(parts)] *)
Fixpoint join_with (sep : string) (parts : list string) : string :=
  match parts with
  | [] => ""
  | [p] => p
  | p :: ps => p +:+ sep +:+ join_with sep ps
  end.

Definition backslash : ascii := ascii_of_nat 92.

(** [''.join(parts)] *)
Fixpoint concat_all (parts : list string) : string :=
  match parts with
  | [] => ""
  | p :: ps => p +:+ concat_all ps
  end.

(** Python truthiness of a string. *)
Definition nonempty (s : string) : bool :=
  match s with "" => false | _ => true end.

End Text.

(** ** Python floats: [float(str)], [repr] *)

Module PyFloat.
Import Text.

Local Open Scope Z_scope.

(** The binary64 nearest to [n / d] (ties to even), for [0 <= n], [0 < d]:
    a quotient of at least 64 bits with a sticky bit, then one rounding. *)
Definition of_ratio (n d : Z) : float :=
  if n =? 0 then PrimFloat.zero
  else
    let shift := Z.max 0 (64 + Z.log2 d - Z.log2 n) in
    let num := n * 2 ^ shift in
    let sticky := if num mod d =? 0 then 0 else 1 in
    SF2Prim (binary_normalize prec emax (2 * (num / d) + sticky) (- shift - 1) false).

(** Reads [digits [. digits]] with at least one digit: the digits as a
    number and the count of those after the dot. *)
Fixpoint scan_decimal (s : string) (dot : bool) (mant : Z) (frac : Z) (seen : bool)
  : option (Z * Z) :=
  match s with
  | EmptyString => if seen then Some (mant, frac) else None
  | String c s' =>
      if is_digit c then
        scan_decimal s' dot (10 * mant + (Z.of_N (code c) - 48))
          (if dot then frac + 1 else frac) true
      else if bool_decide (c = "."%char) then
        if dot then None else scan_decimal s' true mant frac seen
      else None
  end.

(** [float(s)] on the strings the analyzer passes (digits and dots);
    [None] is [ValueError]. *)
Definition float_of_str (s : string) : option float :=
  match scan_decimal s false 0 0 false with
  | Some (mant, frac) => Some (of_ratio mant (10 ^ frac))
  | None => None
  end.

(** [10^k <= num / den] *)
Definition pow10_le (num den k : Z) : bool :=
  if 0 <=? k then 10 ^ k * den <=? num else den <=? num * 10 ^ (- k).

Fixpoint adjust_log10 (fuel : nat) (num den k : Z) : Z :=
  match fuel with
  | O => k
  | S fuel' =>
      if pow10_le num den (k + 1) then adjust_log10 fuel' num den (k + 1)
      else if pow10_le num den k then k
      else adjust_log10 fuel' num den (k - 1)
  end.

(** [floor(log10(num / den))] *)
Definition floor_log10 (num den : Z) : Z :=
  adjust_log10 8 num den (((Z.log2 num - Z.log2 den) * 30103) / 100000).

(** Does the decimal [d * 10^t] read back as [x]? *)
Definition reads_back (x : float) (d t : Z) : bool :=
  PrimFloat.eqb (of_ratio (d * 10 ^ Z.max t 0) (10 ^ Z.max (- t) 0)) x.

(** The shortest decimal [d * 10^t] that reads back as [x = num / den],
    the nearest one of that length; [p] is the number of digits tried. *)
Fixpoint shortest (fuel : nat) (x : float) (num den k p : Z) : Z * Z :=
  let t := k - p + 1 in
  let a := num * 10 ^ Z.max (- t) 0 in
  let b := den * 10 ^ Z.max t 0 in
  let d := a / b in
  let r := a mod b in
  let lo := reads_back x d t in
  let hi := reads_back x (d + 1) t in
  let nearer_lo := (2 * r <? b) || ((2 * r =? b) && Z.even d) in
  if lo && (negb hi || nearer_lo) then (d, t)
  else if hi then (d + 1, t)
  else match fuel with
       | O => (d, t)
       | S fuel' => shortest fuel' x num den k (p + 1)
       end.

Fixpoint strip_zeros (fuel : nat) (d t : Z) : Z * Z :=
  match fuel with
  | O => (d, t)
  | S fuel' => if (d mod 10 =? 0) && negb (d =? 0) then strip_zeros fuel' (d / 10) (t + 1)
               else (d, t)
  end.

Fixpoint zeros (n : nat) : string :=
  match n with O => EmptyString | S n' => String "0" (zeros n') end.

(** [repr]'s layout of the digits [ds] with the decimal point after
    [decpt] of them: exponent form when [decpt <= -4] or [decpt > 16]. *)
Definition layout (ds : string) (decpt : Z) : string :=
  let n := Z.of_nat (String.length ds) in
  if (decpt <=? -4) || (16 <? decpt) then
    let e := decpt - 1 in
    let mant := match ds with
                | String c EmptyString => String c EmptyString
                | String c rest => String c (String "." rest)
                | EmptyString => EmptyString
                end in
    let ee := pretty (Z.abs e) in
    mant +:+ "e" +:+ (if e <? 0 then "-" else "+")
         +:+ (if Z.abs e <? 10 then "0" else "") +:+ ee
  else if decpt <=? 0 then "0." +:+ zeros (Z.to_nat (- decpt)) +:+ ds
  else if n <=? decpt then ds +:+ zeros (Z.to_nat (decpt - n)) +:+ ".0"
  else String.substring 0 (Z.to_nat decpt) ds +:+ "." +:+
       String.substring (Z.to_nat decpt) (Z.to_nat (n - decpt)) ds.

(** [repr(x)], which is what an f-string field [{x}] prints. *)
Definition repr (x : float) : string :=
  match Prim2SF x with
  | S754_zero s => if s then "-0.0" else "0.0"
  | S754_infinity s => if s then "-inf" else "inf"
  | S754_nan => "nan"
  | S754_finite s m e =>
      let num := Z.pos m * 2 ^ Z.max e 0 in
      let den := 2 ^ Z.max (- e) 0 in
      let '(d0, t0) := shortest 17 (PrimFloat.abs x) num den (floor_log10 num den) 1 in
      let '(d, t) := strip_zeros 400 d0 t0 in
      let ds := pretty d in
      (if s then "-" else "") +:+ layout ds (t + Z.of_nat (String.length ds))
  end.

End PyFloat.

(** ** Regular expressions: the backtracking matcher of [re]

    Only the constructs the program's patterns use: literals, character
    classes, concatenation, greedy repetition and numbered groups. *)

Module Regex.
Import Text.

Inductive regex :=
| Eps
| Cls (p : ascii → bool)
| Cat (r1 r2 : regex)
| Star (r : regex)
| Group (i : nat) (r : regex).

Definition Chr (c : ascii) : regex := Cls (λ x, bool_decide (x = c)).
Definition Plus (r : regex) : regex := Cat r (Star r).

Fixpoint Lit (s : string) : regex :=
  match s with
  | EmptyString => Eps
  | String c s' => Cat (Chr c) (Lit s')
  end.

Fixpoint Rep (n : nat) (r : regex) : regex :=
  match n with
  | O => Eps
  | S n' => Cat r (Rep n' r)
  end.

Definition chars : Type := list ascii.
Definition captures : Type := gmap nat string.

Definition text_of (cs : chars) : string := String.string_of_list_ascii cs.

(** The rounds of a greedy repetition whose body matches as [step] does:
    another round first, when the round consumed input, then stopping. *)
Fixpoint rounds (step : chars → captures → list (chars * captures))
  (fuel : nat) (s : chars) (g : captures) : list (chars * captures) :=
  match fuel with
  | O => [(s, g)]
  | S fuel' =>
      flat_map (λ m, if decide (length m.1 < length s)
                     then rounds step fuel' m.1 m.2 else [])
               (step s g)
      ++ [(s, g)]
  end.

(** All the ways [r] matches a prefix of [s], as the remaining input and
    the groups, in the order the backtracking matcher tries them: its
    answer is the first. *)
Fixpoint run (r : regex) (s : chars) (g : captures) : list (chars * captures) :=
  match r with
  | Eps => [(s, g)]
  | Cls p =>
      match s with
      | c :: s' => if p c then [(s', g)] else []
      | [] => []
      end
  | Cat r1 r2 => flat_map (λ m, run r2 m.1 m.2) (run r1 s g)
  | Star r1 => rounds (run r1) (length s) s g
  | Group i r1 =>
      map (λ m, (m.1, <[i := text_of (take (length s - length m.1) s)]> m.2))
          (run r1 s g)
  end.

(** A match object: the groups and the input after the match. *)
Record found := { groups : captures; after : chars }.

Definition group (m : found) (i : nat) : string := default EmptyString (groups m !! i).

(** [re.match]: at the start of [s]. *)
Definition match_here (r : regex) (s : chars) : option found :=
  match run r s ∅ with
  | (rest, g) :: _ => Some {| groups := g; after := rest |}
  | [] => None
  end.

(** [re.search]: the leftmost position where [r] matches. *)
Fixpoint search (r : regex) (s : chars) : option found :=
  match match_here r s with
  | Some m => Some m
  | None =>
      match s with
      | [] => None
      | _ :: s' => search r s'
      end
  end.

(** [re.finditer]: the successive non-overlapping matches. *)
Fixpoint finditer_fuel (fuel : nat) (r : regex) (s : chars) : list found :=
  match fuel with
  | O => []
  | S fuel' =>
      match search r s with
      | None => []
      | Some m =>
          m :: (if decide (length (after m) < length s)
                then finditer_fuel fuel' r (after m)
                else match after m with
                     | [] => []
                     | _ :: rest => finditer_fuel fuel' r rest
                     end)
      end
  end.

Definition finditer (r : regex) (s : chars) : list found :=
  finditer_fuel (S (length s)) r s.

Definition space : regex := Cls is_space.
Definition word : regex := Cls is_word.
Definition digit : regex := Cls is_digit.
Definition spaces : regex := Star space.

End Regex.

(** ** [os.path], single-separator flavour *)

Module Path.
Import Text.

Section WithSep.
Variable sep : ascii.

Definition sep_str : string := String sep "".

(** [os.path.isabs] *)
Definition isabs (p : string) : bool := startswith sep_str p.

(** [os.path.join(a, b)] *)
Definition join (a b : string) : string :=
  if startswith sep_str b then b
  else if negb (nonempty a) || endswith sep_str a then a +:+ b
  else a +:+ sep_str +:+ b.

(** [os.path.join( *parts )] for a non-empty list of parts. *)
Definition join_all (parts : list string) : string :=
  match parts with
  | [] => ""
  | p :: ps => fold_left join ps p
  end.

(** The text after the last separator, and the text up to and including it. *)
Fixpoint after_last_sep (p : string) : string :=
  match p with
  | "" => ""
  | String c p' =>
      if contains sep_str p' then after_last_sep p'
      else if decide (c = sep) then p' else p
  end.

(** [os.path.basename] *)
Definition basename (p : string) : string := after_last_sep p.

Definition head_of (p : string) : string :=
  String.substring 0 (String.length p - String.length (basename p)) p.

Fixpoint all_sep (s : string) : bool :=
  match s with
  | "" => true
  | String c s' => if decide (c = sep) then all_sep s' else false
  end.

(** [s.rstrip(sep)] *)
Fixpoint rstrip_sep (s : string) : string :=
  match s with
  | "" => ""
  | String c s' => if all_sep s then "" else String c (rstrip_sep s')
  end.

(** [os.path.dirname] *)
Definition dirname (p : string) : string :=
  let head := head_of p in
  if nonempty head && negb (all_sep head) then rstrip_sep head else head.

(** [genericpath._splitext]: the extension starts at the last dot of the
    last component, unless that component consists of leading dots only
    up to there. *)
Fixpoint last_dot_split (leading : bool) (name : string) : option (string * string) :=
  match name with
  | "" => None
  | String c rest =>
      match last_dot_split (leading && bool_decide (c = "."%char)) rest with
      | Some (stem, ext) => Some (String c stem, ext)
      | None =>
          if bool_decide (c = "."%char) && negb leading then Some ("", name) else None
      end
  end.

Definition splitext (p : string) : string * string :=
  match last_dot_split true (basename p) with
  | Some (stem, ext) => (head_of p +:+ stem, ext)
  | None => (p, "")
  end.

(** One step of [normpath]'s loop on an absolute path: empty and [.]
    components vanish, [..] pops. *)
Definition norm_step (acc : list string) (comp : string) : list string :=
  if decide (comp = "") then acc
  else if decide (comp = ".") then acc
  else if decide (comp = "..") then removelast acc
  else acc ++ [comp].

(** The components of [os.path.abspath(p)] when the working directory has
    components [cwd]. *)
Definition abs_components (cwd : list string) (p : string) : list string :=
  fold_left norm_step (split sep p) (if isabs p then [] else cwd).

Fixpoint strip_common (a b : list string) : list string * list string :=
  match a, b with
  | x :: a', y :: b' => if decide (x = y) then strip_common a' b' else (a, b)
  | _, _ => (a, b)
  end.

(** [os.path.relpath(path, start)]; [None] is its [ValueError] on an empty
    path. *)
Definition relpath (cwd : list string) (path start : string) : option string :=
  if negb (nonempty path) then None
  else
    let '(up, down) := strip_common (abs_components cwd start) (abs_components cwd path) in
    let rel_list := replicate (length up) ".." ++ down in
    match rel_list with
    | [] => Some "."
    | _ => Some (join_all rel_list)
    end.

(** *** [pathlib], on the string form of a path *)

(** [PurePath.parts] without the root: empty and [.] components are
    dropped when a path object is built, [..] is kept. *)
Definition parts (p : string) : list string :=
  filter (λ c, c ≠ "" ∧ c ≠ ".") (split sep p).

(** [str(Path(p))] *)
Definition path_str (p : string) : string :=
  match parts p with
  | [] => if isabs p then sep_str else "."
  | ps => (if isabs p then sep_str else "") +:+ join_with sep_str ps
  end.

(** [Path.name] *)
Definition path_name (p : string) : string := List.last (parts p) "".

(** [Path.suffix]: from the last dot of the name, unless that dot is its
    first or last character. *)
Fixpoint suffix_from (first : bool) (name : string) : option string :=
  match name with
  | "" => None
  | String c rest =>
      if contains "." rest then suffix_from false rest
      else if bool_decide (c = "."%char) && negb first && nonempty rest
           then Some name else None
  end.

Definition path_suffix (p : string) : string :=
  default "" (suffix_from true (path_name p)).

(** [Path.stem] *)
Definition path_stem (p : string) : string :=
  let name := path_name p in
  String.substring 0 (String.length name - String.length (path_suffix p)) name.

(** [Path.with_suffix(suffix)]; [None] is its [ValueError] on an empty
    name. *)
Definition with_suffix (p suffix : string) : option string :=
  let ps := parts p in
  match path_name p with
  | "" => None
  | _ => Some ((if isabs p then sep_str else "") +:+
               join_with sep_str (removelast ps ++ [path_stem p +:+ suffix]))
  end.

Fixpoint strip_prefix (base p : list string) : option (list string) :=
  match base, p with
  | [], _ => Some p
  | b :: base', x :: p' => if decide (b = x) then strip_prefix base' p' else None
  | _ :: _, [] => None
  end.

(** [Path(p).relative_to(Path(base))]; [None] is its [ValueError]. *)
Definition relative_to (p base : string) : option string :=
  if bool_decide (isabs p = isabs base) then
    match strip_prefix (parts base) (parts p) with
    | Some [] => Some "."
    | Some rest => Some (join_with sep_str rest)
    | None => None
    end
  else None.

(** [Path(a) / b] for a relative [b] *)
Definition path_div (a b : string) : string := path_str (join a b).

End WithSep.

End Path.

(** ** The file system *)

Module FS.
Import Text.

(** What [open(path, 'r', encoding='utf-8').read()] meets: bytes that are
    UTF-8, read as [text] (line ends translated), or bytes that are not
    UTF-8 (which [latin-1] still decodes, to [latin1]). *)
Inductive file_data :=
| Utf8 (text : string)
| NotUtf8 (latin1 : string).

Inductive node :=
| File (data : file_data)
| Dir (entries : list (string * node)).

Record filesystem := {
  sep : ascii;              (* os.sep *)
  cwd : list string;        (* os.getcwd(), as components *)
  tree : node;              (* the root directory *)
}.

Fixpoint assoc (name : string) (entries : list (string * node)) : option node :=
  match entries with
  | [] => None
  | (n, x) :: rest => if decide (n = name) then Some x else assoc name rest
  end.

Fixpoint set_entry (name : string) (x : node) (entries : list (string * node))
  : list (string * node) :=
  match entries with
  | [] => [(name, x)]
  | (n, y) :: rest =>
      if decide (n = name) then (n, x) :: rest else (n, y) :: set_entry name x rest
  end.

Fixpoint lookup_node (n : node) (comps : list string) : option node :=
  match comps with
  | [] => Some n
  | c :: comps' =>
      match n with
      | Dir entries =>
          match assoc c entries with
          | Some child => lookup_node child comps'
          | None => None
          end
      | File _ => None
      end
  end.

Definition is_dir (n : node) : bool :=
  match n with Dir _ => true | File _ => false end.

Definition resolve (fs : filesystem) (p : string) : option node :=
  if nonempty p then lookup_node (tree fs) (Path.abs_components (sep fs) (cwd fs) p)
  else None.

(** [os.path.exists] *)
Definition exists_ (fs : filesystem) (p : string) : bool :=
  match resolve fs p with Some _ => true | None => false end.

Inductive read_result :=
| ReadOk (text : string)
| UnicodeDecodeError
| OSError.

(** [open(p, 'r', encoding='utf-8').read()] *)
Definition read_utf8 (fs : filesystem) (p : string) : read_result :=
  match resolve fs p with
  | Some (File (Utf8 text)) => ReadOk text
  | Some (File (NotUtf8 _)) => UnicodeDecodeError
  | _ => OSError
  end.

(** [open(p, 'r', encoding='latin-1').read()]: every byte decodes. *)
Definition read_latin1 (fs : filesystem) (p : string) : option string :=
  match resolve fs p with
  | Some (File (Utf8 text)) => Some text
  | Some (File (NotUtf8 latin1)) => Some latin1
  | _ => None
  end.

Definition subdirs (entries : list (string * node)) : list string :=
  (filter (λ e, is_dir e.2 = true) entries).*1.

Definition nondirs (entries : list (string * node)) : list string :=
  (filter (λ e, is_dir e.2 = false) entries).*1.

(** [os.walk(top)], top-down: one triple [(root, dirs, files)] per
    directory, a directory before its subdirectories, entries in listing
    order. *)
Fixpoint walk_node (s : ascii) (top : string) (n : node)
  : list (string * list string * list string) :=
  match n with
  | File _ => []
  | Dir entries =>
      (top, subdirs entries, nondirs entries) ::
      (fix below (es : list (string * node)) :=
         match es with
         | [] => []
         | (name, child) :: es' => walk_node s (Path.join s top name) child ++ below es'
         end) entries
  end.

Definition walk (fs : filesystem) (top : string)
  : list (string * list string * list string) :=
  match resolve fs top with
  | Some n => walk_node (sep fs) top n
  | None => []
  end.

(** A name a directory entry can have: not empty, no separator, neither
    [.] nor [..]. *)
Definition valid_name (s : ascii) (name : string) : bool :=
  nonempty name && negb (contains (Path.sep_str s) name)
  && negb (bool_decide (name = ".")) && negb (bool_decide (name = "..")).

(** A tree as a file system holds it: valid names, no name twice in one
    directory. *)
Fixpoint wf_node (s : ascii) (n : node) : bool :=
  match n with
  | File _ => true
  | Dir entries =>
      forallb (valid_name s) entries.*1 && bool_decide (NoDup entries.*1) &&
      (fix all (es : list (string * node)) :=
         match es with
         | [] => true
         | (_, child) :: es' => wf_node s child && all es'
         end) entries
  end.

Definition wf (fs : filesystem) : bool := wf_node (sep fs) (tree fs).

(** The files below a directory, each as its components relative to the
    directory, in the order [os.walk] meets them. *)
Fixpoint files_below (n : node) : list (list string) :=
  match n with
  | File _ => []
  | Dir entries =>
      map (λ file, [file]) (nondirs entries) ++
      (fix below (es : list (string * node)) :=
         match es with
         | [] => []
         | (name, child) :: es' => map (cons name) (files_below child) ++ below es'
         end) entries
  end.

(** [Path(top).glob('**/*' + suffix)]: in every directory below [top], a
    directory before its subdirectories, the entries whose name ends with
    [suffix]. *)
Fixpoint glob_node (s : ascii) (suffix top : string) (n : node) : list string :=
  match n with
  | File _ => []
  | Dir entries =>
      map (Path.join s top) (filter (λ name, endswith suffix name = true) entries.*1) ++
      (fix below (es : list (string * node)) :=
         match es with
         | [] => []
         | (name, child) :: es' =>
             glob_node s suffix (Path.join s top name) child ++ below es'
         end) entries
  end.

(** The paths are path objects: [top] is normalised before it is searched,
    and so is every path found. *)
Definition glob (fs : filesystem) (top suffix : string) : list string :=
  let top' := Path.path_str (sep fs) top in
  match resolve fs top' with
  | Some n => map (Path.path_str (sep fs)) (glob_node (sep fs) suffix top' n)
  | None => []
  end.

(** [os.makedirs(p, exist_ok=True)] on the tree: missing directories along
    the path are created; a file on the way is an error. *)
Fixpoint mkdirs (n : node) (comps : list string) : option node :=
  match n, comps with
  | File _, _ => None
  | Dir _, [] => Some n
  | Dir entries, c :: comps' =>
      match mkdirs (default (Dir []) (assoc c entries)) comps' with
      | Some child => Some (Dir (set_entry c child entries))
      | None => None
      end
  end.

Definition makedirs (fs : filesystem) (p : string) : option filesystem :=
  if nonempty p then
    match mkdirs (tree fs) (Path.abs_components (sep fs) (cwd fs) p) with
    | Some t => Some {| sep := sep fs; cwd := cwd fs; tree := t |}
    | None => None
    end
  else None.

Definition carriage_return : ascii := ascii_of_nat 13.
Definition line_feed : ascii := ascii_of_nat 10.

(** What a text-mode [read] (universal newlines) makes of the line ends of
    a decoded text: a carriage return reads as a line feed, and a line feed
    right after a carriage return is part of the same line end. [after_cr]
    says that the previous character was a carriage return. *)
Fixpoint read_newlines (after_cr : bool) (s : string) : string :=
  match s with
  | "" => ""
  | String c s' =>
      if decide (c = carriage_return) then String line_feed (read_newlines true s')
      else if decide (c = line_feed) then
        if after_cr then read_newlines false s'
        else String line_feed (read_newlines false s')
      else String c (read_newlines false s')
  end.

Definition universal_newlines (s : string) : string := read_newlines false s.

(** [open(p, 'w')] followed by [write(text)]: the parent must be a
    directory and the target must not be one. *)
Fixpoint put_file (n : node) (comps : list string) (data : file_data) : option node :=
  match n, comps with
  | File _, [] => Some (File data)
  | File _, _ :: _ => None
  | Dir _, [] => None
  | Dir entries, c :: comps' =>
      match assoc c entries, comps' with
      | None, [] => Some (Dir (set_entry c (File data) entries))
      | None, _ :: _ => None
      | Some child, _ =>
          match put_file child comps' data with
          | Some child' => Some (Dir (set_entry c child' entries))
          | None => None
          end
      end
  end.

(** The text is written as it is ([os.linesep] is the line feed); what the
    file then gives a reader is the text with its line ends translated. *)
Definition write_text (fs : filesystem) (p : string) (text : string) : option filesystem :=
  if nonempty p then
    match put_file (tree fs) (Path.abs_components (sep fs) (cwd fs) p)
            (Utf8 (universal_newlines text)) with
    | Some t => Some {| sep := sep fs; cwd := cwd fs; tree := t |}
    | None => None
    end
  else None.

End FS.

(** ** The converter: state and effects *)

Module Converter.
Import Text FS.

(** The instance attributes of [UnityGodotConverter] that change
    ([unity_texture_cache], [godot_resource_cache]) and the environment the
    methods act on. *)
Record state := {
  unity_texture_cache : gmap string (option string);
  godot_resource_cache : gmap string (option string);
  disk : filesystem;
  stdout : list string;
  walks : nat;
}.

(** [UnityGodotConverter()] started on a given file system. *)
Definition fresh (fs : filesystem) : state :=
  {| unity_texture_cache := ∅; godot_resource_cache := ∅;
     disk := fs; stdout := []; walks := 0 |}.

Inductive exn := OSError_ | ValueError_.

Inductive outcome (A : Type) :=
| Return (a : A)
| Raise (e : exn).
Arguments Return {A} a.
Arguments Raise {A} e.

(** Computations of the methods: state passing, with exceptions that keep
    the state reached when they are raised. *)
Definition M (A : Type) : Type := state → outcome A * state.

Definition ret {A} (a : A) : M A := λ st, (Return a, st).
Definition raise {A} (e : exn) : M A := λ st, (Raise e, st).
Definition bind {A B} (m : M A) (k : A → M B) : M B :=
  λ st, match m st with
        | (Return a, st') => k a st'
        | (Raise e, st') => (Raise e, st')
        end.
(** [try: m except Exception: h] *)
Definition catch {A} (m : M A) (h : exn → M A) : M A :=
  λ st, match m st with
        | (Return a, st') => (Return a, st')
        | (Raise e, st') => h e st'
        end.

Declare Scope conv_scope.
Delimit Scope conv_scope with conv.
Notation "'do' x <- m ; k" := (bind m (λ x, k))
  (at level 10, x name, m at level 100, k at level 200) : conv_scope.
Notation "m ;; k" := (bind m (λ _, k))
  (at level 100, k at level 200, right associativity) : conv_scope.
Local Open Scope conv_scope.

Definition get : M state := λ st, (Return st, st).

Definition print (line : string) : M unit :=
  λ st, (Return (),
         {| unity_texture_cache := unity_texture_cache st;
            godot_resource_cache := godot_resource_cache st;
            disk := disk st; stdout := stdout st ++ [line]; walks := walks st |}).

Definition os_walk (top : string) : M (list (string * list string * list string)) :=
  λ st, (Return (walk (disk st) top),
         {| unity_texture_cache := unity_texture_cache st;
            godot_resource_cache := godot_resource_cache st;
            disk := disk st; stdout := stdout st; walks := S (walks st) |}).

Definition set_unity_texture_cache (key : string) (v : option string) : M unit :=
  λ st, (Return (),
         {| unity_texture_cache := <[key := v]> (unity_texture_cache st);
            godot_resource_cache := godot_resource_cache st;
            disk := disk st; stdout := stdout st; walks := walks st |}).

Definition set_godot_resource_cache (key : string) (v : option string) : M unit :=
  λ st, (Return (),
         {| unity_texture_cache := unity_texture_cache st;
            godot_resource_cache := <[key := v]> (godot_resource_cache st);
            disk := disk st; stdout := stdout st; walks := walks st |}).

Definition os_makedirs (p : string) : M unit :=
  λ st, match makedirs (disk st) p with
        | Some fs' =>
            (Return (),
             {| unity_texture_cache := unity_texture_cache st;
                godot_resource_cache := godot_resource_cache st;
                disk := fs'; stdout := stdout st; walks := walks st |})
        | None => (Raise OSError_, st)
        end.

Definition write_file (p text : string) : M unit :=
  λ st, match write_text (disk st) p text with
        | Some fs' =>
            (Return (),
             {| unity_texture_cache := unity_texture_cache st;
                godot_resource_cache := godot_resource_cache st;
                disk := fs'; stdout := stdout st; walks := walks st |})
        | None => (Raise OSError_, st)
        end.

(** The f-string [f"{root}:{key}"] both caches are keyed by. *)
Definition cache_key (root key : string) : string := root +:+ ":" +:+ key.

(** *** [find_meta_file_by_guid] *)

(** The body of the inner loop for one [file] of one [root]: [Return None]
    is falling through to the next file. *)
Definition inspect_meta (fs : filesystem) (guid root file : string)
  : outcome (option string) :=
  if endswith ".meta" file then
    let meta_path := Path.join (sep fs) root file in
    match read_utf8 fs meta_path with
    | ReadOk content =>
        if contains ("guid: " +:+ guid) content then
          let asset_path := drop_end 5 meta_path in
          if exists_ fs asset_path then Return (Some asset_path) else Return None
        else Return None
    | UnicodeDecodeError => Return None
    | OSError => Raise OSError_
    end
  else Return None.

Fixpoint scan_files (fs : filesystem) (guid root : string) (files : list string)
  : outcome (option string) :=
  match files with
  | [] => Return None
  | file :: rest =>
      match inspect_meta fs guid root file with
      | Return None => scan_files fs guid root rest
      | r => r
      end
  end.

Fixpoint scan_walk (fs : filesystem) (guid : string)
  (entries : list (string * list string * list string)) : outcome (option string) :=
  match entries with
  | [] => Return None
  | (root, _, files) :: rest =>
      match scan_files fs guid root files with
      | Return None => scan_walk fs guid rest
      | r => r
      end
  end.

Definition find_meta_file_by_guid (project_root guid : string) : M (option string) :=
  let key := cache_key project_root guid in
  do st <- get;
  match unity_texture_cache st !! key with
  | Some cached => ret cached
  | None =>
      print ("Searching for GUID: " +:+ guid);;
      do entries <- os_walk project_root;
      match scan_walk (disk st) guid entries with
      | Return (Some asset_path) =>
          set_unity_texture_cache key (Some asset_path);;
          ret (Some asset_path)
      | Return None =>
          set_unity_texture_cache key None;;
          ret None
      | Raise e => raise e
      end
  end.

(** *** [find_godot_resource] *)

(** The candidate extensions, in the order they are tried. *)
Definition extensions (s : ascii) (unity_path : string) : list string :=
  if endswith ".psd" (lower unity_path) then [".png"]
  else [(Path.splitext s unity_path).2; ".png"].

Definition base_name (s : ascii) (unity_path : string) : string :=
  (Path.splitext s (Path.basename s unity_path)).1.

(** [file.lower() == (base_name.lower() + ext.lower())] *)
Definition name_matches (base ext file : string) : bool :=
  bool_decide (lower file = lower base +:+ lower ext).

(** The resource identifier built for a matched [file] of [root]. *)
Definition godot_path_of (fs : filesystem) (godot_project_root root file : string)
  : outcome string :=
  let full_path := Path.join (sep fs) root file in
  match Path.relpath (sep fs) (cwd fs) full_path godot_project_root with
  | Some rel_path => Return ("res://" +:+ replace_char backslash "/" rel_path)
  | None => Raise ValueError_
  end.

(** The first file of a walk, in walk order, whose name matches. *)
Fixpoint first_match (base ext : string)
  (entries : list (string * list string * list string)) : option (string * string) :=
  match entries with
  | [] => None
  | (root, _, files) :: rest =>
      match List.find (name_matches base ext) files with
      | Some file => Some (root, file)
      | None => first_match base ext rest
      end
  end.

(** The loop over the candidate extensions; each one walks the tree anew. *)
Fixpoint locate (godot_project_root base : string) (exts : list string)
  : M (option string) :=
  match exts with
  | [] => ret None
  | ext :: rest =>
      do st <- get;
      do entries <- os_walk godot_project_root;
      match first_match base ext entries with
      | Some (root, file) =>
          match godot_path_of (disk st) godot_project_root root file with
          | Return godot_path => ret (Some godot_path)
          | Raise e => raise e
          end
      | None => locate godot_project_root base rest
      end
  end.

Definition find_godot_resource (godot_project_root unity_path : string)
  : M (option string) :=
  if negb (nonempty unity_path) then ret None
  else
    let key := cache_key godot_project_root unity_path in
    do st <- get;
    match godot_resource_cache st !! key with
    | Some cached => ret cached
    | None =>
        do found <- locate godot_project_root (base_name (sep (disk st)) unity_path)
                      (extensions (sep (disk st)) unity_path);
        set_godot_resource_cache key found;;
        ret found
    end.

(** *** The material record *)

Record asset_ref := { fileID : string; guid : string }.

(** A colour as [analyze_unity_material] stores it: the four keys are
    always present. *)
Record rgba := { r : float; g : float; b : float; a : float }.

Record material := {
  name : string;
  path : string;
  textures : gmap string asset_ref;
  floats : gmap string float;
  colors : gmap string rgba;
  shader_keywords : string;
}.

(** [self.property_mappings], in insertion order. *)
Definition property_mappings : list (string * string) :=
  [ ("_MainTex", "albedo_texture");
    ("_Color", "albedo_color");
    ("_Metallic", "metallic");
    ("_Glossiness", "roughness");
    ("_BumpMap", "normal_texture");
    ("_EmissionColor", "emission");
    ("_EmissionMap", "emission_texture");
    ("_OcclusionMap", "ao_texture") ].

(** *** [analyze_unity_material] *)

Import Regex.

Definition newline : ascii := ascii_of_nat 10.
Definition not_newline (c : ascii) : bool := negb (bool_decide (c = newline)).
Definition digit_or_dot (c : ascii) : bool := is_digit c || bool_decide (c = "."%char).
Definition hex_lower (c : ascii) : bool := between 97 102 c || is_digit c.
Definition number : regex := Plus (Cls digit_or_dot).

(** The pattern "m_Name: (.+)" *)
Definition name_pattern : regex :=
  Cat (Lit "m_Name: ") (Group 1 (Plus (Cls not_newline))).

(** The pattern "_(\w+):\s*\n\s*m_Texture:\s*{fileID:\s*(\d+),\s*guid:\s*([a-f0-9]{32})" *)
Definition tex_pattern : regex :=
  Cat (Chr "_") (Cat (Group 1 (Plus word)) (Cat (Chr ":") (Cat spaces (Cat (Chr newline)
  (Cat spaces (Cat (Lit "m_Texture:") (Cat spaces (Cat (Lit "{fileID:") (Cat spaces
  (Cat (Group 2 (Plus digit)) (Cat (Chr ",") (Cat spaces (Cat (Lit "guid:") (Cat spaces
  (Group 3 (Rep 32 (Cls hex_lower))))))))))))))))).

(** The pattern "\s*-\s*_\w+:\s*[\d.]+\s*", the repeated item of the floats block *)
Definition float_item : regex :=
  Cat spaces (Cat (Chr "-") (Cat spaces (Cat (Chr "_") (Cat (Plus word)
  (Cat (Chr ":") (Cat spaces (Cat number spaces))))))).

(** [m_Floats:], [\s*], then group 1: one or more [float_item] *)
Definition float_pattern : regex :=
  Cat (Lit "m_Floats:") (Cat spaces (Group 1 (Plus float_item))).

(** The pattern "-\s*(_\w+):\s*([\d.]+)" *)
Definition float_entry : regex :=
  Cat (Chr "-") (Cat spaces (Cat (Group 1 (Cat (Chr "_") (Plus word)))
  (Cat (Chr ":") (Cat spaces (Group 2 number))))).

(** The pattern "\s*-\s*_\w+:\s*{[^}]+}\s*" *)
Definition color_item : regex :=
  Cat spaces (Cat (Chr "-") (Cat spaces (Cat (Chr "_") (Cat (Plus word)
  (Cat (Chr ":") (Cat spaces (Cat (Chr "{")
  (Cat (Plus (Cls (λ c, negb (bool_decide (c = "}"%char))))) (Cat (Chr "}") spaces))))))))).

(** [m_Colors:], [\s*], then group 1: one or more [color_item] *)
Definition color_pattern : regex :=
  Cat (Lit "m_Colors:") (Cat spaces (Group 1 (Plus color_item))).

(** The pattern "-\s*(_\w+):\s*{r:\s*([\d.]+),\s*g:\s*([\d.]+),\s*b:\s*([\d.]+),\s*a:\s*([\d.]+)}" *)
Definition color_entry : regex :=
  Cat (Chr "-") (Cat spaces (Cat (Group 1 (Cat (Chr "_") (Plus word)))
  (Cat (Chr ":") (Cat spaces (Cat (Lit "{r:") (Cat spaces (Cat (Group 2 number)
  (Cat (Chr ",") (Cat spaces (Cat (Lit "g:") (Cat spaces (Cat (Group 3 number)
  (Cat (Chr ",") (Cat spaces (Cat (Lit "b:") (Cat spaces (Cat (Group 4 number)
  (Cat (Chr ",") (Cat spaces (Cat (Lit "a:") (Cat spaces (Cat (Group 5 number)
  (Chr "}"))))))))))))))))))))))).

(** [m_ShaderKeywords:], [\s*], then group 1: the rest of the line *)
Definition keywords_pattern : regex :=
  Cat (Lit "m_ShaderKeywords:") (Cat spaces (Group 1 (Star (Cls not_newline)))).

Fixpoint lstrip (s : string) : string :=
  match s with
  | String c s' => if is_space c then lstrip s' else s
  | EmptyString => EmptyString
  end.

(** [s.strip()] *)
Definition strip (s : string) : string :=
  String.rev (lstrip (String.rev (lstrip s))).

Definition chars_of (s : string) : chars := String.list_ascii_of_string s.

Definition parse_name (content : string) : string :=
  match search name_pattern (chars_of content) with
  | Some m => strip (group m 1)
  | None => "Unknown"
  end.

Definition parse_textures (content : string) : gmap string asset_ref :=
  fold_left
    (λ textures m,
       if decide (group m 2 = "0") then textures
       else <[group m 1 := {| fileID := group m 2; guid := group m 3 |}]> textures)
    (finditer tex_pattern (chars_of content)) ∅.

(** The loop over the entries of the floats block; [float(value)] may
    raise. *)
Fixpoint collect_floats (ms : list found) (float_properties : gmap string float)
  : outcome (gmap string float) :=
  match ms with
  | [] => Return float_properties
  | m :: rest =>
      match PyFloat.float_of_str (group m 2) with
      | Some value => collect_floats rest (<[group m 1 := value]> float_properties)
      | None => Raise ValueError_
      end
  end.

Definition parse_floats (content : string) : outcome (gmap string float) :=
  match search float_pattern (chars_of content) with
  | Some float_matches =>
      collect_floats (finditer float_entry (chars_of (group float_matches 1))) ∅
  | None => Return ∅
  end.

Fixpoint collect_colors (ms : list found) (color_properties : gmap string rgba)
  : outcome (gmap string rgba) :=
  match ms with
  | [] => Return color_properties
  | m :: rest =>
      match PyFloat.float_of_str (group m 2), PyFloat.float_of_str (group m 3),
            PyFloat.float_of_str (group m 4), PyFloat.float_of_str (group m 5) with
      | Some vr, Some vg, Some vb, Some va =>
          collect_colors rest
            (<[group m 1 := {| r := vr; g := vg; b := vb; a := va |}]> color_properties)
      | _, _, _, _ => Raise ValueError_
      end
  end.

Definition parse_colors (content : string) : outcome (gmap string rgba) :=
  match search color_pattern (chars_of content) with
  | Some color_matches =>
      collect_colors (finditer color_entry (chars_of (group color_matches 1))) ∅
  | None => Return ∅
  end.

Definition parse_keywords (content : string) : string :=
  match search keywords_pattern (chars_of content) with
  | Some m => strip (group m 1)
  | None => ""
  end.

Definition lift {A} (o : outcome A) : M A := λ st, (o, st).

(** The analysis of the text of a material file. *)
Definition analyze_content (mat_path content : string) : outcome material :=
  match parse_floats content with
  | Raise e => Raise e
  | Return float_properties =>
      match parse_colors content with
      | Raise e => Raise e
      | Return color_properties =>
          Return {| name := parse_name content;
                    path := mat_path;
                    textures := parse_textures content;
                    floats := float_properties;
                    colors := color_properties;
                    shader_keywords := parse_keywords content |}
      end
  end.

(** The two [open]/[read] attempts: UTF-8, then Latin-1. *)
Definition read_material (mat_path : string) : M string :=
  do st <- get;
  match read_utf8 (disk st) mat_path with
  | ReadOk content => ret content
  | UnicodeDecodeError =>
      match read_latin1 (disk st) mat_path with
      | Some content => ret content
      | None => raise OSError_
      end
  | OSError => raise OSError_
  end.

Definition analyze_unity_material (mat_path : string) : M material :=
  do content <- read_material mat_path;
  lift (analyze_content mat_path content).

(** *** [convert_color] and [generate_godot_material] *)

Definition nl : string := String newline EmptyString.
Definition dq : string := String (ascii_of_nat 34) EmptyString.

Definition convert_color (unity_color : rgba) : string :=
  "Color(" +:+ PyFloat.repr (r unity_color) +:+ ", " +:+ PyFloat.repr (g unity_color)
  +:+ ", " +:+ PyFloat.repr (b unity_color) +:+ ", " +:+ PyFloat.repr (a unity_color) +:+ ")".

(** Python truthiness of [None] or a string. *)
Definition truthy (o : option string) : bool :=
  match o with Some s => nonempty s | None => false end.

Definition header : string :=
  "[gd_resource type=" +:+ dq +:+ "StandardMaterial3D" +:+ dq +:+ " format=3]" +:+ nl +:+ nl
  +:+ "[resource]" +:+ nl.

(** What the keyword test appends before the property loop. *)
Definition transparency (unity_material : material) : string :=
  let keywords := shader_keywords unity_material in
  if contains "_ALPHATEST_ON" keywords then
    "transparency = 1" +:+ nl
    +:+ "alpha_scissor_threshold = "
    +:+ PyFloat.repr (default 0.5%float (floats unity_material !! "_Cutoff")) +:+ nl
    +:+ "alpha_hash_scale = 1.0" +:+ nl
  else if contains "_ALPHABLEND_ON" keywords || contains "_ALPHAPREMULTIPLY_ON" keywords then
    "transparency = 1" +:+ nl +:+ "blend_mode = 1" +:+ nl
  else "".

(** The body of the property loop: what one table entry appends to
    [tres_content] (nothing is the empty string). *)
Definition translate_property (unity_material : material)
  (unity_project_root godot_project_root unity_prop godot_prop : string) : M string :=
  match textures unity_material !! unity_prop with
  | Some tex_info =>
      do unity_path <- find_meta_file_by_guid unity_project_root (guid tex_info);
      if truthy unity_path then
        let unity_path := default "" unity_path in
        do st <- get;
        do godot_path <- find_godot_resource godot_project_root unity_path;
        if truthy godot_path then
          print ("  Found texture: " +:+ Path.basename (sep (disk st)) unity_path
                 +:+ " -> " +:+ default "" godot_path);;
          ret (godot_prop +:+ " = ExtResource(" +:+ dq +:+ default "" godot_path
               +:+ dq +:+ ")" +:+ nl)
        else
          print ("  Warning: Could not find Godot resource for "
                 +:+ Path.basename (sep (disk st)) unity_path);;
          ret ""
      else ret ""
  | None =>
      match colors unity_material !! unity_prop with
      | Some color_value =>
          ret (godot_prop +:+ " = " +:+ convert_color color_value +:+ nl)
      | None =>
          match floats unity_material !! unity_prop with
          | Some value =>
              let value := if decide (unity_prop = "_Glossiness")
                           then (1.0 - value)%float else value in
              ret (godot_prop +:+ " = " +:+ PyFloat.repr value +:+ nl)
          | None => ret ""
          end
      end
  end.

Fixpoint translate_properties (unity_material : material)
  (unity_project_root godot_project_root : string)
  (table : list (string * string)) (tres_content : string) : M string :=
  match table with
  | [] => ret tres_content
  | (unity_prop, godot_prop) :: rest =>
      do piece <- translate_property unity_material unity_project_root
                    godot_project_root unity_prop godot_prop;
      translate_properties unity_material unity_project_root godot_project_root
        rest (tres_content +:+ piece)
  end.

(** The text [generate_godot_material] builds before it writes it. *)
Definition material_text (unity_material : material)
  (unity_project_root godot_project_root : string) : M string :=
  translate_properties unity_material unity_project_root godot_project_root
    property_mappings (header +:+ transparency unity_material).

Definition generate_godot_material (unity_material : material)
  (unity_project_root godot_project_root output_path : string) : M unit :=
  do tres_content <- material_text unity_material unity_project_root godot_project_root;
  do st <- get;
  os_makedirs (Path.dirname (sep (disk st)) output_path);;
  write_file output_path tres_content.

(** *** [find_godot_fbx] and [generate_godot_scene] *)

Definition os_relpath (p start : string) : M string :=
  do st <- get;
  match Path.relpath (sep (disk st)) (cwd (disk st)) p start with
  | Some rel => ret rel
  | None => raise ValueError_
  end.

Definition res_path (rel : string) : string := "res://" +:+ replace_char backslash "/" rel.

(** The search loop of strategy 2: the first walked directory that lists
    [fbx_name]. *)
Fixpoint first_dir_with (fbx_name : string)
  (entries : list (string * list string * list string)) : option string :=
  match entries with
  | [] => None
  | (root, _, files) :: rest =>
      if bool_decide (fbx_name ∈ files) then Some root else first_dir_with fbx_name rest
  end.

Definition find_godot_fbx
  (unity_fbx_path unity_root godot_root unity_assets_dir godot_assets_dir : string)
  : M (option string) :=
  do st <- get;
  let s := sep (disk st) in
  let fbx_name := Path.basename s unity_fbx_path in
  do rel_path <- os_relpath unity_fbx_path unity_assets_dir;
  let godot_fbx_path := Path.join s godot_assets_dir rel_path in
  if exists_ (disk st) godot_fbx_path then
    print ("Found FBX via direct mapping: " +:+ godot_fbx_path);;
    do godot_res_path <- os_relpath godot_fbx_path godot_root;
    ret (Some (res_path godot_res_path))
  else
    print ("Direct path not found, searching for " +:+ fbx_name +:+ " in "
           +:+ godot_assets_dir +:+ "...");;
    do entries <- os_walk godot_assets_dir;
    match first_dir_with fbx_name entries with
    | Some root =>
        let found_path := Path.join s root fbx_name in
        do rel_path <- os_relpath found_path godot_root;
        print ("Found FBX via search: " +:+ found_path);;
        ret (Some (res_path rel_path))
    | None =>
        print ("Could not find " +:+ fbx_name +:+ " in Godot project");;
        ret None
    end.

(** [path_parts[path_parts.index('Meshes'):]]; [None] when ['Meshes'] is
    not a part. *)
Fixpoint from_meshes (path_parts : list string) : option (list string) :=
  match path_parts with
  | [] => None
  | part :: rest => if decide (part = "Meshes") then Some path_parts else from_meshes rest
  end.

(** The override loop over [material_mappings.items()]. *)
Fixpoint overrides (material_mappings : list (string * string)) : string :=
  match material_mappings with
  | [] => ""
  | (mesh_name, material_path) :: rest =>
      "[node name=" +:+ dq +:+ mesh_name +:+ dq +:+ " parent=" +:+ dq +:+ "." +:+ dq
      +:+ " index=" +:+ dq +:+ "0" +:+ dq +:+ "]" +:+ nl
      +:+ "material_override = ExtResource(" +:+ dq +:+ material_path +:+ dq +:+ ")"
      +:+ nl +:+ nl +:+ overrides rest
  end.

Definition scene_text (godot_fbx_path fbx_name : string)
  (material_mappings : list (string * string)) : string :=
  "[gd_scene load_steps=2 format=3]" +:+ nl +:+ nl
  +:+ "[ext_resource type=" +:+ dq +:+ "PackedScene" +:+ dq +:+ " path=" +:+ dq
  +:+ godot_fbx_path +:+ dq +:+ " id=" +:+ dq +:+ "1" +:+ dq +:+ "]" +:+ nl +:+ nl
  +:+ "[node name=" +:+ dq +:+ fbx_name +:+ dq +:+ " instance=ExtResource(" +:+ dq
  +:+ "1" +:+ dq +:+ ")]" +:+ nl +:+ nl
  +:+ overrides material_mappings.

(** The part of the relative path kept for the scene: from ['Meshes'] on
    when that is one of its parts, all of it otherwise. *)
Definition relevant_path_of (s : ascii) (full_rel_path : string) : string :=
  match from_meshes (split s full_rel_path) with
  | Some tail => Path.join_all s tail
  | None => full_rel_path
  end.

Definition generate_godot_scene (fbx_path : string)
  (material_mappings : list (string * string))
  (unity_root godot_root unity_assets_dir godot_assets_dir output_dir : string)
  : M (option string) :=
  do st <- get;
  let s := sep (disk st) in
  let fbx_name := (Path.splitext s (Path.basename s fbx_path)).1 in
  let scenes_dir := Path.join s godot_assets_dir "Scenes" in
  os_makedirs scenes_dir;;
  do full_rel_path <- os_relpath fbx_path unity_assets_dir;
  let relevant_path := relevant_path_of s full_rel_path in
  let scene_subdir := Path.join s scenes_dir (Path.dirname s relevant_path) in
  os_makedirs scene_subdir;;
  let output_path := Path.join s scene_subdir (fbx_name +:+ ".tscn") in
  do godot_fbx_path <- find_godot_fbx fbx_path unity_root godot_root
                         unity_assets_dir godot_assets_dir;
  if negb (truthy godot_fbx_path) then
    print ("Warning: Could not find corresponding FBX in Godot project for " +:+ fbx_path);;
    ret None
  else
    write_file output_path
      (scene_text (default "" godot_fbx_path) fbx_name material_mappings);;
    ret (Some output_path).

(** The file system [find_godot_fbx] searches when [generate_godot_scene]
    calls it: the one left by the two [os.makedirs] calls before it. [None]
    when one of them, or [os.path.relpath], raises. *)
Definition scene_dirs (fs : filesystem) (fbx_path unity_assets_dir godot_assets_dir : string)
  : option filesystem :=
  let s := sep fs in
  let scenes_dir := Path.join s godot_assets_dir "Scenes" in
  match makedirs fs scenes_dir, Path.relpath s (cwd fs) fbx_path unity_assets_dir with
  | Some fs1, Some full_rel_path =>
      makedirs fs1 (Path.join s scenes_dir (Path.dirname s (relevant_path_of s full_rel_path)))
  | _, _ => None
  end.

(** *** [convert_directory] *)

(** [d[key] = value] on a dict kept in insertion order. *)
Fixpoint dict_set (d : list (string * string)) (key value : string)
  : list (string * string) :=
  match d with
  | [] => [(key, value)]
  | (k, v) :: rest =>
      if decide (k = key) then (k, value) :: rest else (k, v) :: dict_set rest key value
  end.

(** What [{e}] prints in the two error lines. Python prints the message
    of the exception there, which the embedding does not hold: the class
    name stands for it, and nothing is stated of this part of a line. *)
Definition exn_text (e : exn) : string :=
  match e with OSError_ => "OSError" | ValueError_ => "ValueError" end.

(** The body of the [try] of the materials loop. *)
Definition convert_material (unity_project_root godot_project_root : string)
  (material_paths : list (string * string)) (mat_file output_file : string)
  : M (list (string * string)) :=
  do st <- get;
  let s := sep (disk st) in
  do material_info <- analyze_unity_material mat_file;
  generate_godot_material material_info unity_project_root godot_project_root
    output_file;;
  match Path.relative_to s output_file godot_project_root with
  | None => raise ValueError_
  | Some rel =>
      let godot_mat_path := replace_char backslash "/" ("res://" +:+ rel) in
      print ("Converted material: " +:+ Path.path_name s mat_file +:+ " -> "
             +:+ Path.path_name s output_file);;
      ret (dict_set material_paths (name material_info) godot_mat_path)
  end.

(** [output_path / mat_file.relative_to(input_path).with_suffix('.tres')] *)
Definition output_file_for (s : ascii) (input_dir output_dir mat_file : string)
  : option string :=
  match Path.relative_to s mat_file input_dir with
  | None => None
  | Some relative_path =>
      match Path.with_suffix s relative_path ".tres" with
      | None => None
      | Some renamed => Some (Path.path_div s output_dir renamed)
      end
  end.

Fixpoint convert_materials (input_dir output_dir unity_project_root godot_project_root : string)
  (mat_files : list string) (material_paths : list (string * string))
  : M (list (string * string)) :=
  match mat_files with
  | [] => ret material_paths
  | mat_file :: rest =>
      do st <- get;
      match output_file_for (sep (disk st)) input_dir output_dir mat_file with
      | None => raise ValueError_
      | Some output_file =>
          do material_paths' <-
            catch (convert_material unity_project_root godot_project_root
                     material_paths mat_file output_file)
                  (λ e, print ("Error converting " +:+ mat_file +:+ ": " +:+ exn_text e);;
                        ret material_paths);
          convert_materials input_dir output_dir unity_project_root godot_project_root
            rest material_paths'
      end
  end.

(** The inner loop that builds [material_mappings] for one mesh. *)
Fixpoint material_mappings_for (stem : string) (items : list (string * string))
  (material_mappings : list (string * string)) : list (string * string) :=
  match items with
  | [] => material_mappings
  | (mat_name, mat_path) :: rest =>
      material_mappings_for stem rest
        (if contains (lower mat_name) (lower stem)
         then dict_set material_mappings stem mat_path
         else material_mappings)
  end.

(** The body of the meshes loop, with its [try]/[except]. *)
Definition convert_mesh (input_dir output_dir unity_project_root godot_project_root : string)
  (material_paths : list (string * string)) (fbx_file : string) : M unit :=
  do st <- get;
  let s := sep (disk st) in
  print (nl +:+ "Processing " +:+ Path.path_name s fbx_file);;
  catch
    (let material_mappings :=
       material_mappings_for (Path.path_stem s fbx_file) material_paths [] in
     do scene_path <- generate_godot_scene fbx_file material_mappings
                        unity_project_root godot_project_root input_dir output_dir output_dir;
     if truthy scene_path
     then print ("Created scene file: " +:+ default "" scene_path)
     else ret ())
    (λ e, print ("Error processing " +:+ fbx_file +:+ ": " +:+ exn_text e)).

Fixpoint convert_meshes (input_dir output_dir unity_project_root godot_project_root : string)
  (material_paths : list (string * string)) (fbx_files : list string) : M unit :=
  match fbx_files with
  | [] => ret ()
  | fbx_file :: rest =>
      convert_mesh input_dir output_dir unity_project_root godot_project_root
        material_paths fbx_file;;
      convert_meshes input_dir output_dir unity_project_root godot_project_root
        material_paths rest
  end.

Definition convert_directory
  (input_dir output_dir unity_project_root godot_project_root : string) : M unit :=
  do st <- get;
  let mat_files := glob (disk st) input_dir ".mat" in
  let fbx_files := glob (disk st) input_dir ".fbx" in
  print (nl +:+ "Found " +:+ pretty (length mat_files) +:+ " material files and "
         +:+ pretty (length fbx_files) +:+ " FBX files.");;
  print (nl +:+ "Converting materials...");;
  do material_paths <- convert_materials input_dir output_dir unity_project_root
                         godot_project_root mat_files [];
  print (nl +:+ "Creating scene files with material assignments...");;
  convert_meshes input_dir output_dir unity_project_root godot_project_root
    material_paths fbx_files;;
  print (nl +:+ "Conversion complete!").

End Converter.

(** ** The specification's wording, to compare the code with *)

Module Spec.
Import Text FS.

(** Resource Locator: a file name matches a base name and an extension when
    its lower-cased form is the lower-cased base name followed by the
    lower-cased extension. *)
Definition matches_name (base ext file_name : string) : bool :=
  bool_decide (lower file_name = lower base +:+ lower ext).

(** The first candidate extension, in order, for which some file matches, and
    then the first such file in traversal order. *)
Fixpoint first_located (base : string) (exts : list string) (files : list (list string))
  : option (list string) :=
  match exts with
  | [] => None
  | ext :: rest =>
      match List.find (λ p, matches_name base ext (List.last p "")) files with
      | Some p => Some p
      | None => first_located base rest files
      end
  end.

(** The identifier the specification asks for, for a file given by its
    components below the target root: [res://], then the path of the file
    relative to the root, its components joined with forward slashes. *)
Definition relative_id (p : list string) : string :=
  "res://" +:+ join_with "/" p.

(** The identifier as amended: that text with every backslash turned into
    a forward slash, those inside a file name included. *)
Definition resource_id (p : list string) : string :=
  replace_char backslash "/" (relative_id p).

(** A source path that ends in [.psd] (in any case) has the single candidate
    [.png]; any other has its own extension, then [.png]. The answer is the
    amended identifier of the first file located. *)
Definition locate (fs : filesystem) (target_root source_path : string) : option string :=
  let s := sep fs in
  let base := (Path.splitext s (Path.basename s source_path)).1 in
  let exts := if endswith ".psd" (lower source_path) then [".png"]
              else [(Path.splitext s source_path).2; ".png"] in
  match resolve fs target_root with
  | Some n => resource_id <$> first_located base exts (files_below n)
  | None => None
  end.

(** Material Translator: what one entry of the property table contributes
    to the text, by the four cases of the specification. A texture reference
    yields an external-resource reference or, on failure, nothing; otherwise a
    colour yields a colour literal; otherwise a scalar yields its value,
    glossiness inverted; otherwise nothing. *)
Inductive contribution (m : Converter.material) (unity_prop godot_prop : string)
  : string → Prop :=
| texture_reference (tex : Converter.asset_ref) (resource_id : string) :
    Converter.textures m !! unity_prop = Some tex →
    contribution m unity_prop godot_prop
      (godot_prop +:+ " = ExtResource(" +:+ Converter.dq +:+ resource_id
       +:+ Converter.dq +:+ ")" +:+ Converter.nl)
| texture_omitted (tex : Converter.asset_ref) :
    Converter.textures m !! unity_prop = Some tex →
    contribution m unity_prop godot_prop ""
| color_literal (c : Converter.rgba) :
    Converter.textures m !! unity_prop = None →
    Converter.colors m !! unity_prop = Some c →
    contribution m unity_prop godot_prop
      (godot_prop +:+ " = Color(" +:+ PyFloat.repr (Converter.r c) +:+ ", "
       +:+ PyFloat.repr (Converter.g c) +:+ ", " +:+ PyFloat.repr (Converter.b c)
       +:+ ", " +:+ PyFloat.repr (Converter.a c) +:+ ")" +:+ Converter.nl)
| scalar_value (v : float) :
    Converter.textures m !! unity_prop = None →
    Converter.colors m !! unity_prop = None →
    Converter.floats m !! unity_prop = Some v →
    contribution m unity_prop godot_prop
      (godot_prop +:+ " = "
       +:+ PyFloat.repr (if decide (unity_prop = "_Glossiness") then (1 - v)%float else v)
       +:+ Converter.nl)
| property_unset :
    Converter.textures m !! unity_prop = None →
    Converter.colors m !! unity_prop = None →
    Converter.floats m !! unity_prop = None →
    contribution m unity_prop godot_prop "".

(** Material Analyzer: one line [- _<Name>: <number>] of the scalar block,
    with the white space around its parts. *)
Record float_line := {
  after_dash : string;
  prop_name : string;
  after_colon : string;
  number : string;
  trailing : string;
}.

Definition render_line (l : float_line) : string :=
  "-" +:+ after_dash l +:+ "_" +:+ prop_name l +:+ ":" +:+ after_colon l
  +:+ number l +:+ trailing l.

Definition render_lines (ls : list float_line) : string :=
  concat_all (map render_line ls).

Definition all_chars (p : ascii → bool) (s : string) : bool :=
  forallb p (String.list_ascii_of_string s).

(** The name is made of word characters, the number of digits and dots, and
    the rest is white space. *)
Definition line_ok (l : float_line) : bool :=
  all_chars is_space (after_dash l)
  && nonempty (prop_name l) && all_chars is_word (prop_name l)
  && all_chars is_space (after_colon l)
  && nonempty (number l) && all_chars Converter.digit_or_dot (number l)
  && all_chars is_space (trailing l).

(** What follows the block does not go on with it: the text ends, or starts
    with a character that is no white space, dash, digit or dot. *)
Definition ends_block (post : string) : bool :=
  match post with
  | "" => true
  | String c _ =>
      negb (is_space c) && negb (bool_decide (c = "-"%char))
      && negb (Converter.digit_or_dot c)
  end.

(** The same in general: what follows does not start with white space, a
    digit or a dot, which the last line would have taken, and no line of the
    block starts there (the pattern of a line has no match at its start).
    A line whose number is signed, as in [- _Offset: -2], is such a text. *)
Definition stops_block (post : string) : bool :=
  match post with
  | "" => true
  | String c _ => negb (is_space c) && negb (Converter.digit_or_dot c)
  end
  && match Regex.run Converter.float_item (Converter.chars_of post) ∅ with
     | [] => true
     | _ :: _ => false
     end.

(** The floats map of the lines, in order: each name, with its underscore,
    mapped to the value [float] reads from its number; a number [float]
    rejects is its [ValueError]. *)
Fixpoint floats_of_lines (ls : list float_line) (acc : gmap string float)
  : Converter.outcome (gmap string float) :=
  match ls with
  | [] => Converter.Return acc
  | l :: rest =>
      match PyFloat.float_of_str (number l) with
      | Some value => floats_of_lines rest (<["_" +:+ prop_name l := value]> acc)
      | None => Converter.Raise Converter.ValueError_
      end
  end.

End Spec.

(** ** Sample inputs *)

Module Example.
Import FS Converter.

Definition guid_wood : string := "0123456789abcdef0123456789abcdef".
Definition guid_lost : string := "ffffffffffffffffffffffffffffffff".

(** A Unity project [/u] with a texture and its sidecar, and a Godot project
    [/g] that holds the texture as a [.png] under another case. *)
Definition fs0 : filesystem :=
  {| sep := "/";
     cwd := ["home"];
     tree :=
       Dir [ ("u", Dir [ ("Assets", Dir [
                 ("Textures", Dir [ ("Wood.psd", File (NotUtf8 ""));
                                    ("Wood.psd.meta", File (Utf8 ("guid: " +:+ guid_wood))) ]);
                 ("Meshes", Dir [ ("Props", Dir [ ("Crate.fbx", File (NotUtf8 "")) ]) ]) ]) ]);
             ("g", Dir [ ("assets", Dir [
                 ("Textures", Dir [ ("wood.PNG", File (NotUtf8 "")) ]) ]) ]);
             ("home", Dir []) ] |}.

Definition st0 : state := fresh fs0.

(** [fs0] after the scene directories of the mesh [Crate.fbx] are made. *)
Definition fs0_scenes : filesystem :=
  Eval vm_compute in
    default fs0 (scene_dirs fs0 "/u/Assets/Meshes/Props/Crate.fbx" "/u/Assets" "/g/assets").

Definition no_textures : gmap string asset_ref := ∅.
Definition no_floats : gmap string float := ∅.
Definition no_colors : gmap string rgba := ∅.

(** A material of one scalar, [_Glossiness]. *)
Definition glossy (glossiness : float) : material :=
  {| name := "Glossy"; path := "/u/Assets/Glossy.mat";
     textures := no_textures;
     floats := {[ "_Glossiness" := glossiness ]};
     colors := no_colors;
     shader_keywords := "" |}.

(** An alpha-tested material without [_Cutoff]. *)
Definition cutout : material :=
  {| name := "Cutout"; path := "/u/Assets/Cutout.mat";
     textures := no_textures; floats := no_floats; colors := no_colors;
     shader_keywords := "_NORMALMAP _ALPHATEST_ON" |}.

(** A material whose [_MainTex] names a GUID no sidecar declares, and which
    also sets a colour. *)
Definition lost_texture : material :=
  {| name := "Lost"; path := "/u/Assets/Lost.mat";
     textures := {[ "_MainTex" := {| fileID := "2800000"; guid := guid_lost |} ]};
     floats := no_floats;
     colors := {[ "_Color" := {| r := 1; g := 0.5; b := 0.25; a := 1 |} ]};
     shader_keywords := "" |}.

(** The scalar block of a material file: two lines, then the colours. *)
Definition float_lines : list Spec.float_line :=
  [ {| Spec.after_dash := " "; Spec.prop_name := "Cutoff"; Spec.after_colon := " ";
       Spec.number := "0.5"; Spec.trailing := nl +:+ "    " |};
    {| Spec.after_dash := " "; Spec.prop_name := "Glossiness"; Spec.after_colon := " ";
       Spec.number := "0.8"; Spec.trailing := nl +:+ "    " |} ].

(** A texture slot of a material file, as Unity writes it. *)
Definition texture_slot : string :=
  "    - _MainTex:" +:+ nl
  +:+ "        m_Texture: {fileID: 2800000, guid: " +:+ guid_wood +:+ ", type: 3}" +:+ nl.

Definition floats_pre : string := "  m_Name: Wood" +:+ nl +:+ "    ".
Definition floats_gap : string := nl +:+ "    ".
Definition floats_post : string := "m_Colors:" +:+ nl.

(** A scalar block whose second line has a signed number, and one whose
    only line has a number with an exponent. *)
Definition cutoff_line : Spec.float_line :=
  {| Spec.after_dash := " "; Spec.prop_name := "Cutoff"; Spec.after_colon := " ";
     Spec.number := "0.5"; Spec.trailing := nl +:+ "    " |}.

Definition signed_rest : string :=
  "- _Offset: -2" +:+ nl +:+ "    - _Glossiness: 0.8" +:+ nl.

Definition signed_block : string :=
  floats_pre +:+ "m_Floats:" +:+ floats_gap +:+ Spec.render_lines [cutoff_line]
  +:+ signed_rest.

Definition exponent_block : string :=
  floats_pre +:+ "m_Floats:" +:+ floats_gap +:+ "- _Scale: 1e-05" +:+ nl.

(** The projects of [fs0] where the Godot assets directory holds a regular
    file named [Scenes]. *)
Definition fs_blocked : filesystem :=
  {| sep := "/"; cwd := ["home"];
     tree :=
       Dir [ ("u", Dir [ ("Assets", Dir [
                 ("Meshes", Dir [ ("Props", Dir [ ("Crate.fbx", File (NotUtf8 "")) ]) ]) ]) ]);
             ("g", Dir [ ("assets", Dir [ ("Scenes", File (Utf8 "")) ]) ]);
             ("home", Dir []) ] |}.


(** A Unity project whose only sidecar has lost its asset, beside a sidecar
    that is not UTF-8. *)
Definition fs_orphan : filesystem :=
  {| sep := "/"; cwd := ["home"];
     tree := Dir [ ("u", Dir [ ("Gone.png.meta", File (Utf8 ("guid: " +:+ guid_lost)));
                               ("Blob.meta", File (NotUtf8 "")) ]);
                   ("home", Dir []) ] |}.

(** A mesh that the Godot project holds in another directory. *)
Definition fs_meshes : filesystem :=
  {| sep := "/"; cwd := ["home"];
     tree := Dir [ ("u", Dir [ ("Assets", Dir [
                      ("Meshes", Dir [ ("Props", Dir [ ("Crate.fbx", File (NotUtf8 "")) ]) ]) ]) ]);
                   ("g", Dir [ ("assets", Dir [
                      ("Models", Dir [ ("Crate.fbx", File (NotUtf8 "")) ]) ]) ]);
                   ("home", Dir []) ] |}.

(** A Unity project with one material file that only names the
    material. *)
Definition fs_project : filesystem :=
  {| sep := "/"; cwd := ["home"];
     tree := Dir [ ("u", Dir [ ("Assets", Dir [
                      ("Plain.mat", File (Utf8 ("  m_Name: Plain" +:+ nl))) ]) ]);
                   ("g", Dir [ ("assets", Dir []) ]);
                   ("home", Dir []) ] |}.

Definition plain : material :=
  {| name := "Plain"; path := "/u/Assets/Plain.mat";
     textures := no_textures; floats := no_floats; colors := no_colors;
     shader_keywords := "" |}.

End Example.

(** ** Notions the proofs use *)

Module Notions.
Import Text FS Converter Regex.

(** The pairs [(root, file)] the two nested loops over a walk go through. *)
Definition walk_files (entries : list (string * list string * list string))
  : list (string * string) :=
  flat_map (λ e, map (pair e.1.1) e.2) entries.

Definition below_files (entries : list (string * node)) : list (list string) :=
  flat_map (λ e, map (cons e.1) (files_below e.2)) entries.

(** The state after walks only: the counter may have grown, nothing else
    changed. *)
Definition only_walked (st st' : state) : Prop :=
  unity_texture_cache st' = unity_texture_cache st ∧
  godot_resource_cache st' = godot_resource_cache st ∧
  disk st' = disk st ∧ stdout st' = stdout st.

(** What a call of the resolver does to the state. *)
Definition resolved (project_root guid : string) (v : option string) (st st' : state) : Prop :=
  disk st' = disk st ∧
  godot_resource_cache st' = godot_resource_cache st ∧
  unity_texture_cache st' !! cache_key project_root guid = Some v ∧
  (unity_texture_cache st !! cache_key project_root guid = Some v ∧ st' = st
   ∨ unity_texture_cache st !! cache_key project_root guid = None ∧
     scan_walk (disk st) guid (walk (disk st) project_root) = Return v ∧
     unity_texture_cache st' = <[cache_key project_root guid := v]> (unity_texture_cache st) ∧
     stdout st' = stdout st ++ ["Searching for GUID: " +:+ guid]).

(** What a call of the locator does to the state. *)
Definition located (st st' : state) : Prop :=
  disk st' = disk st ∧ unity_texture_cache st' = unity_texture_cache st ∧
  stdout st' = stdout st.

Definition names_mesh (stem : string) (item : string * string) : bool :=
  contains (lower item.1) (lower stem).

(** The matcher's answer: the first of the ways [r] matches. *)
Definition hd_run (r : regex) (s : chars) (g : captures) : option (chars * captures) :=
  head (run r s g).

(** [s] does not start with a character of the class [p]. *)
Definition stops (p : ascii → bool) (s : chars) : Prop :=
  match s with
  | [] => True
  | c :: _ => p c = false
  end.

(** [l] is a prefix of [s]. *)
Fixpoint starts_with (l s : chars) : bool :=
  match l, s with
  | [], _ => true
  | a :: l', b :: s' => bool_decide (a = b) && starts_with l' s'
  | _ :: _, [] => false
  end.

(** The characters of a rendered line. *)
Definition line_chars (l : Spec.float_line) : chars :=
  "-"%char :: chars_of (Spec.after_dash l) ++ "_"%char :: chars_of (Spec.prop_name l)
  ++ ":"%char :: chars_of (Spec.after_colon l) ++ chars_of (Spec.number l)
  ++ chars_of (Spec.trailing l).

Definition items (ls : list Spec.float_line) : chars := concat (map line_chars ls).

Record line_parts_ok (l : Spec.float_line) : Prop := {
  ok_after_dash : forallb is_space (chars_of (Spec.after_dash l)) = true;
  ok_name : chars_of (Spec.prop_name l) ≠ [];
  ok_name_word : forallb is_word (chars_of (Spec.prop_name l)) = true;
  ok_after_colon : forallb is_space (chars_of (Spec.after_colon l)) = true;
  ok_number : chars_of (Spec.number l) ≠ [];
  ok_number_digits : forallb digit_or_dot (chars_of (Spec.number l)) = true;
  ok_trailing : forallb is_space (chars_of (Spec.trailing l)) = true;
}.

(** What may follow a line: no white space, digit or dot at its start. *)
Definition rest_ok (rest : chars) : Prop := stops is_space rest ∧ stops digit_or_dot rest.

(** The entries found in the lines: one per line, in order, with the name
    and the number of the line as groups 1 and 2. *)
Definition entry_of (m : found) (l : Spec.float_line) : Prop :=
  group m 1 = "_" +:+ Spec.prop_name l ∧ group m 2 = Spec.number l.

(** A line of the floats block after its leading white space. *)
Definition float_item_tail : regex :=
  Cat (Chr "-") (Cat spaces (Cat (Chr "_") (Cat (Plus word)
  (Cat (Chr ":") (Cat spaces (Cat number spaces)))))).

(** The record without the texture reference of one property. *)
Definition without_texture (unity_prop : string) (m : material) : material :=
  {| name := name m; path := path m;
     textures := delete unity_prop (textures m);
     floats := floats m; colors := colors m;
     shader_keywords := shader_keywords m |}.

(** A resolver cache [late] that holds [early] and, besides, only answers
    the resolver would compute on the disk [d] for the root [ur]. *)
Definition extends (ur : string) (d : filesystem)
  (early late : gmap string (option string)) : Prop :=
  ∀ g, late !! cache_key ur g = early !! cache_key ur g
       ∨ (early !! cache_key ur g = None ∧
          ∃ v, late !! cache_key ur g = Some v ∧ scan_walk d g (walk d ur) = Return v).

(** Two states of the converter that differ only in what the resolver has
    cached, printed and walked. *)
Definition similar (ur : string) (a b : state) : Prop :=
  disk a = disk b ∧ godot_resource_cache a = godot_resource_cache b ∧
  extends ur (disk b) (unity_texture_cache b) (unity_texture_cache a).

(** What a texture reference contributes, given the locator's answer. *)
Definition texture_piece (godot_prop : string) (godot_path : option string) : string :=
  if truthy godot_path
  then godot_prop +:+ " = ExtResource(" +:+ dq +:+ default "" godot_path +:+ dq +:+ ")" +:+ nl
  else "".

(** The resolver's answer for [g] under [ur] is "not found", in the cache or
    on the disk. *)
Definition absent (ur g : string) (st : state) : Prop :=
  unity_texture_cache st !! cache_key ur g = Some None
  ∨ (unity_texture_cache st !! cache_key ur g = None
     ∧ scan_walk (disk st) g (walk (disk st) ur) = Return None).

(** [os.path.isdir] *)
Definition isdir (fs : filesystem) (p : string) : bool :=
  match resolve fs p with Some (Dir _) => true | _ => false end.

(** The state with another disk. *)
Definition on_disk (fs : filesystem) (st : state) : state :=
  {| unity_texture_cache := unity_texture_cache st;
     godot_resource_cache := godot_resource_cache st;
     disk := fs; stdout := stdout st; walks := walks st |}.

(** The path of the scene file of a mesh whose path relative to the Unity
    assets directory is [rel]. *)
Definition scene_path (s : ascii) (godot_assets_dir fbx_path rel : string) : string :=
  Path.join s
    (Path.join s (Path.join s godot_assets_dir "Scenes")
       (Path.dirname s (relevant_path_of s rel)))
    ((Path.splitext s (Path.basename s fbx_path)).1 +:+ ".tscn").

(** The text is empty or its first character is outside the class [p]. *)
Definition starts_outside (p : ascii → bool) (s : string) : bool :=
  match s with
  | "" => true
  | String c _ => negb (p c)
  end.

(** A texture slot as Unity writes it: the property, and on the next line,
    after the indentation, the reference. *)
Definition texture_entry (name indent file_id guid : string) : string :=
  "_" +:+ name +:+ ":" +:+ nl +:+ indent +:+ "m_Texture: {fileID: " +:+ file_id
  +:+ ", guid: " +:+ guid.

(** White space that does not break the line. *)
Definition is_indent (c : ascii) : bool := is_space c && not_newline c.

(** The state [st'] holds the disk of [st] and, in both caches, at least the
    answers [st] holds. *)
Definition grows (st st' : state) : Prop :=
  disk st' = disk st ∧
  unity_texture_cache st ⊆ unity_texture_cache st' ∧
  godot_resource_cache st ⊆ godot_resource_cache st'.

(** One entry of the colours block as Unity writes it,
    [- _<Name>: {r: R, g: G, b: B, a: A}], and the white space after it. *)
Record color_line := {
  color_name : string;
  red : string;
  green : string;
  blue : string;
  alpha : string;
  color_trailing : string;
}.

Definition render_color_line (l : color_line) : string :=
  "- _" +:+ color_name l +:+ ": {r: " +:+ red l +:+ ", g: " +:+ green l
  +:+ ", b: " +:+ blue l +:+ ", a: " +:+ alpha l +:+ "}" +:+ color_trailing l.






(** The characters of the entries of a colours block. *)
Definition color_items (ls : list color_line) : Regex.chars :=
  concat (map (λ l, chars_of (render_color_line l)) ls).




End Notions.

(** * Properties *)

Import Text FS Converter Notions.
Local Open Scope conv_scope.

(** ** Facts about text and paths *)

Module TextFacts.

Lemma append_cons (c : ascii) (s t : string) : String c s +:+ t = String c (s +:+ t).
Proof. reflexivity. Qed.

Lemma append_nil_l (t : string) : "" +:+ t = t.
Proof. reflexivity. Qed.

Ltac sapp := rewrite ?append_cons, ?append_nil_l in *.

Lemma append_assoc (s1 s2 s3 : string) : (s1 +:+ s2) +:+ s3 = s1 +:+ s2 +:+ s3.
Proof. induction s1 as [|c s1 IH]; sapp; [done | by rewrite IH]. Qed.

Lemma append_nil_r (s : string) : s +:+ "" = s.
Proof. induction s as [|c s IH]; sapp; [done | by rewrite IH]. Qed.

Lemma append_length (s1 s2 : string) :
  String.length (s1 +:+ s2) = String.length s1 + String.length s2.
Proof. induction s1 as [|c s1 IH]; sapp; simpl; [done | by rewrite IH]. Qed.

Lemma substring_app_l (s1 s2 : string) :
  String.substring 0 (String.length s1) (s1 +:+ s2) = s1.
Proof. induction s1 as [|c s1 IH]; sapp; simpl; [by destruct s2 | by rewrite IH]. Qed.

Lemma startswith_spec (p s : string) :
  startswith p s = true ↔ ∃ rest, s = p +:+ rest.
Proof.
  revert s. induction p as [|a p IH]; intros s; simpl.
  - split; [eauto | done].
  - destruct s as [|b s]; [split; [done | by intros [? ?]] |].
    case_decide as Hab.
    + subst b. rewrite IH. split; intros [rest Hr]; exists rest; sapp; congruence.
    + split; [done | intros [rest Hr]; sapp; congruence].
Qed.

Lemma startswith_app (p s : string) : startswith p (p +:+ s) = true.
Proof. apply startswith_spec. eauto. Qed.

Lemma endswith_spec (suffix s : string) :
  endswith suffix s = true ↔ ∃ pre, s = pre +:+ suffix.
Proof.
  induction s as [|c s IH]; simpl.
  - case_decide as Heq.
    + subst. split; [by exists "" | done].
    + split; [done|]. intros [pre Hpre]. destruct pre; sapp; [done | discriminate].
  - case_decide as Heq.
    + split; [by exists "" | done].
    + rewrite IH. split.
      * intros [pre ->]. by exists (String c pre).
      * intros [[|c' pre] Hpre]; sapp; [done |].
        injection Hpre as -> ->. eauto.
Qed.

Lemma contains_spec (needle s : string) :
  contains needle s = true ↔ ∃ pre post, s = pre +:+ needle +:+ post.
Proof.
  induction s as [|c s IH]; simpl.
  - rewrite orb_false_r, startswith_spec. split.
    + intros [rest ->]. by exists "", rest.
    + intros ([|? pre] & post & Heq); sapp; [eauto | discriminate].
  - rewrite orb_true_iff, startswith_spec, IH. split.
    + intros [[rest ->] | (pre & post & ->)].
      * by exists "", rest.
      * by exists (String c pre), post.
    + intros ([|c' pre] & post & Heq); sapp.
      * left. eauto.
      * injection Heq as -> ->. right. eauto.
Qed.

Lemma contains_app_l (needle s t : string) :
  contains needle s = true → contains needle (s +:+ t) = true.
Proof.
  rewrite !contains_spec. intros (pre & post & ->).
  exists pre, (post +:+ t). by rewrite !append_assoc.
Qed.

Lemma contains_app_r (needle s t : string) :
  contains needle t = true → contains needle (s +:+ t) = true.
Proof.
  rewrite !contains_spec. intros (pre & post & ->).
  exists (s +:+ pre), post. by rewrite !append_assoc.
Qed.

Lemma nonempty_app_l (s t : string) : nonempty s = true → nonempty (s +:+ t) = true.
Proof. by destruct s. Qed.

Lemma split_nonnil (s : ascii) (x : string) : split s x ≠ [].
Proof.
  induction x as [|c x IH]; simpl; [done|]. case_decide; [done|]. by destruct (split s x).
Qed.

Lemma split_app_sep (s : ascii) (x y : string) :
  split s (x +:+ String s y) = split s x ++ split s y.
Proof.
  induction x as [|c x IH]; sapp; simpl.
  - by rewrite decide_True.
  - case_decide; [by rewrite IH|]. rewrite IH.
    pose proof (split_nonnil s x). by destruct (split s x).
Qed.


Lemma split_no_sep (s : ascii) (x : string) :
  contains (String s "") x = false → split s x = [x].
Proof.
  induction x as [|c x IH]; simpl; [done|].
  intros Hx. destruct (decide (c = s)) as [->|Hne].
  - rewrite decide_True in Hx by done. by destruct x.
  - rewrite decide_False in Hx by congruence. simpl in Hx. by rewrite IH.
Qed.


End TextFacts.

Module PathFacts.
Import TextFacts Path.

Section WithSep.
Variable s : ascii.

Lemma valid_name_nonempty name : valid_name s name = true → nonempty name = true.
Proof. unfold valid_name. rewrite !andb_true_iff. tauto. Qed.

Lemma valid_name_no_sep name :
  valid_name s name = true → contains (sep_str s) name = false.
Proof.
  unfold valid_name. rewrite !andb_true_iff, !negb_true_iff. tauto.
Qed.

Lemma valid_name_not_abs name : valid_name s name = true → isabs s name = false.
Proof.
  intros Hv. apply valid_name_no_sep in Hv. unfold isabs.
  destruct name; simpl in *; [done|]. by apply orb_false_iff in Hv as [? _].
Qed.

Lemma norm_step_valid acc name :
  valid_name s name = true → norm_step acc name = acc ++ [name].
Proof.
  unfold valid_name, norm_step.
  rewrite !andb_true_iff, !negb_true_iff, !bool_decide_eq_false.
  intros [[[Hne _] Hdot] Hdd].
  rewrite !decide_False; [done|done|done|]. by intros ->.
Qed.

(** A valid name never ends a text with the separator. *)
Lemma endswith_sep_valid x name :
  valid_name s name = true → endswith (sep_str s) (x +:+ name) = false.
Proof.
  intros Hv. apply not_true_is_false. rewrite endswith_spec. intros [pre Hpre].
  pose proof (valid_name_nonempty _ Hv) as Hne.
  apply valid_name_no_sep in Hv. apply not_true_iff_false in Hv. apply Hv.
  clear Hv. revert pre Hpre. induction x as [|c x IH]; intros pre Hpre; sapp.
  - apply contains_spec. exists pre, "". by rewrite append_nil_r.
  - destruct pre as [|c' pre]; sapp.
    + injection Hpre as _ Hx. destruct x; sapp; [by subst name | discriminate].
    + injection Hpre as _ Hx. by apply (IH pre).
Qed.

Lemma isabs_app a t : nonempty a = true → isabs s (a +:+ t) = isabs s a.
Proof. destruct a as [|c a]; [done|]. intros _. unfold isabs. simpl. by case_decide. Qed.

(** Joining a valid name appends it, after a separator unless one is
    there. *)
Lemma join_valid a name :
  nonempty a = true → valid_name s name = true →
  join s a name =
    if endswith (sep_str s) a then a +:+ name else a +:+ sep_str s +:+ name.
Proof.
  intros Ha Hv. unfold join. apply valid_name_not_abs in Hv.
  unfold isabs in Hv. rewrite Hv, Ha. simpl. by destruct (endswith _ a).
Qed.

Lemma join_nonempty a name : nonempty a = true → nonempty (join s a name) = true.
Proof.
  intros Ha. unfold join. destruct (startswith _ name) eqn:Hst.
  - destruct name; [done|done].
  - rewrite Ha. simpl. destruct (endswith _ a); by apply nonempty_app_l.
Qed.

Lemma abs_components_join cwd a name :
  nonempty a = true → valid_name s name = true →
  abs_components s cwd (join s a name) = abs_components s cwd a ++ [name].
Proof.
  intros Ha Hv. rewrite join_valid by done. unfold abs_components.
  pose proof (valid_name_no_sep _ Hv) as Hns.
  destruct (endswith (sep_str s) a) eqn:Hend.
  - apply endswith_spec in Hend as [a' ->].
    assert (isabs s ((a' +:+ sep_str s) +:+ name) = isabs s (a' +:+ sep_str s)) as ->
      by by apply isabs_app.
    rewrite append_assoc. unfold sep_str. sapp.
    rewrite !split_app_sep, (split_no_sep _ name Hns). simpl.
    rewrite !fold_left_app. simpl.
    rewrite norm_step_valid by done. unfold norm_step at 2. by rewrite decide_True.
  - rewrite isabs_app by done. unfold sep_str. sapp.
    rewrite split_app_sep, (split_no_sep _ name Hns), fold_left_app. simpl.
    by rewrite norm_step_valid.
Qed.

Lemma fold_join_nonempty comps top :
  nonempty top = true → nonempty (fold_left (join s) comps top) = true.
Proof.
  revert top. induction comps as [|c comps IH]; intros top Ht; simpl; [done|].
  apply IH. by apply join_nonempty.
Qed.

(** Descending from [top] through valid names adds them to the absolute
    components of [top]. *)
Lemma abs_components_descend cwd comps top :
  nonempty top = true → forallb (valid_name s) comps = true →
  abs_components s cwd (fold_left (join s) comps top) = abs_components s cwd top ++ comps.
Proof.
  revert top. induction comps as [|c comps IH]; intros top Ht Hv; simpl.
  - by rewrite List.app_nil_r.
  - simpl in Hv. apply andb_true_iff in Hv as [Hc Hv].
    rewrite IH; [|by apply join_nonempty|done].
    rewrite abs_components_join by done. by rewrite <- List.app_assoc.
Qed.


Lemma nonempty_app_r (x y : string) : nonempty y = true → nonempty (x +:+ y) = true.
Proof. destruct x; [done|by sapp]. Qed.

(** [join_all] of valid names is the names with separators in between. *)
Lemma fold_join_valid comps acc name :
  valid_name s name = true → forallb (valid_name s) comps = true →
  fold_left (join s) comps (acc +:+ name)
  = acc +:+ join_with (sep_str s) (name :: comps).
Proof.
  revert acc name. induction comps as [|c comps IH]; intros acc name Hn Hv.
  - done.
  - simpl in Hv. apply andb_true_iff in Hv as [Hc Hv].
    cbn [fold_left].
    rewrite join_valid;
      [|by apply nonempty_app_r, valid_name_nonempty|done].
    rewrite endswith_sep_valid by done.
    replace ((acc +:+ name) +:+ sep_str s +:+ c)
      with ((acc +:+ name +:+ sep_str s) +:+ c) by by rewrite !append_assoc.
    rewrite IH by done. by rewrite !append_assoc.
Qed.

Lemma join_all_valid comps :
  forallb (valid_name s) comps = true →
  join_all s comps = join_with (sep_str s) comps.
Proof.
  destruct comps as [|c comps]; [done|]. simpl. intros [Hc Hv]%andb_true_iff.
  by apply (fold_join_valid comps "" c).
Qed.


End WithSep.
End PathFacts.

(** ** Facts about the file-system tree *)

Module FSFacts.
Import TextFacts Path PathFacts.

(** Induction on a tree, with the hypothesis for every child of a
    directory. *)
Lemma node_ind' (P : node → Prop) :
  (∀ d, P (File d)) →
  (∀ entries, Forall (λ e, P e.2) entries → P (Dir entries)) →
  ∀ n, P n.
Proof.
  intros Hfile Hdir. fix IH 1. intros [d|entries]; [apply Hfile|apply Hdir].
  induction entries as [|[name child] entries IHes]; constructor; [apply IH|apply IHes].
Qed.

Lemma wf_node_dir s entries :
  wf_node s (Dir entries) = true ↔
  forallb (valid_name s) entries.*1 = true ∧ NoDup entries.*1 ∧
  Forall (λ e, wf_node s e.2 = true) entries.
Proof.
  cbn [wf_node]. rewrite !andb_true_iff, bool_decide_eq_true.
  assert ((fix all (es : list (string * node)) : bool :=
             match es with
             | [] => true
             | (_, child) :: es' => wf_node s child && all es'
             end) entries = true ↔ Forall (λ e, wf_node s e.2 = true) entries) as ->;
    [|tauto].
  induction entries as [|[name child] entries IH].
  - split; [constructor|done].
  - rewrite andb_true_iff, IH, Forall_cons. done.
Qed.

Lemma assoc_NoDup name x (entries : list (string * node)) :
  NoDup entries.*1 → (name, x) ∈ entries → assoc name entries = Some x.
Proof.
  induction entries as [|[n y] entries IH]; simpl; [by intros _ ?%elem_of_nil|].
  intros [Hn Hnd]%NoDup_cons [[= -> ->]|Hin]%elem_of_cons.
  - by rewrite decide_True.
  - rewrite decide_False; [by apply IH|].
    intros ->. apply Hn. apply list_elem_of_fmap. by exists (name, x).
Qed.

Lemma lookup_node_app n xs ys :
  lookup_node n (xs ++ ys) =
    match lookup_node n xs with Some n' => lookup_node n' ys | None => None end.
Proof.
  revert n. induction xs as [|x xs IH]; intros n; simpl; [done|].
  destruct n as [d|entries]; [done|]. destruct (assoc x entries); [apply IH|done].
Qed.

Lemma elem_of_nondirs file entries :
  file ∈ nondirs entries ↔ ∃ d, (file, File d) ∈ entries.
Proof.
  unfold nondirs. rewrite list_elem_of_fmap. split.
  - intros ([name [d|es]] & -> & [Hf ?]%list_elem_of_filter); [eauto|done].
  - intros [d Hin]. exists (file, File d). split; [done|].
    by apply list_elem_of_filter.
Qed.

Lemma files_below_dir entries :
  files_below (Dir entries) = map (λ file, [file]) (nondirs entries) ++ below_files entries.
Proof.
  cbn [files_below]. f_equal. unfold below_files.
  induction entries as [|[name child] entries IH]; simpl; [done | by rewrite IH].
Qed.

Lemma walk_node_dir s top entries :
  walk_node s top (Dir entries) =
    (top, subdirs entries, nondirs entries) ::
    flat_map (λ e, walk_node s (join s top e.1) e.2) entries.
Proof.
  cbn [walk_node]. f_equal.
  induction entries as [|[name child] entries IH]; simpl; [done | by rewrite IH].
Qed.

Lemma files_below_nonnil n p : p ∈ files_below n → p ≠ [].
Proof.
  destruct n as [d|entries]; [by intros ?%elem_of_nil|].
  rewrite files_below_dir, elem_of_app, list_elem_of_fmap. unfold below_files.
  intros [(f & -> & _)|Hin]; [done|].
  apply list_elem_of_In, in_flat_map in Hin as (e & _ & Hin).
  apply in_map_iff in Hin as (q & <- & _). done.
Qed.

(** The files a walk lists are the files below the directory, each under
    the root the walk reports for its directory. *)
Lemma walk_files_node s n : ∀ top,
  walk_files (walk_node s top n) =
    map (λ p, (fold_left (join s) (removelast p) top, List.last p "")) (files_below n).
Proof.
  induction n as [d|entries IH] using node_ind'; intros top; [done|].
  rewrite walk_node_dir, files_below_dir, map_app, map_map.
  unfold walk_files at 1. cbn [flat_map fst snd]. f_equal.
  fold (walk_files (flat_map (λ e, walk_node s (join s top e.1) e.2) entries)).
  unfold below_files.
  induction entries as [|[name child] entries IHes]; [done|].
  apply Forall_cons in IH as [IHc IH]. cbn [flat_map fst snd].
  unfold walk_files. rewrite flat_map_app, map_app.
  fold (walk_files (walk_node s (join s top name) child)).
  fold (walk_files (flat_map (λ e, walk_node s (join s top e.1) e.2) entries)).
  rewrite IHes by done. f_equal. cbn [snd] in IHc. rewrite IHc, map_map.
  apply map_ext_in. intros p Hp%list_elem_of_In%files_below_nonnil.
  destruct p as [|x p]; [done|]. cbn [removelast List.last fold_left]. done.
Qed.

(** Below a well-formed directory, the components of a listed file are
    valid names and lead to a file. *)
Lemma files_below_lookup s n : ∀ p,
  wf_node s n = true → p ∈ files_below n →
  forallb (valid_name s) p = true ∧ ∃ d, lookup_node n p = Some (File d).
Proof.
  induction n as [d|entries IH] using node_ind'; intros p Hwf Hp;
    [by apply elem_of_nil in Hp|].
  apply wf_node_dir in Hwf as (Hvalid & Hnd & Hwf).
  rewrite forallb_forall in Hvalid.
  rewrite files_below_dir, elem_of_app in Hp. destruct Hp as [Hp|Hp].
  - apply list_elem_of_fmap in Hp as (f & -> & [d Hf]%elem_of_nondirs).
    split.
    + simpl. rewrite andb_true_r. apply Hvalid, list_elem_of_In, list_elem_of_fmap.
      by exists (f, File d).
    + exists d. simpl. by rewrite (assoc_NoDup f (File d)).
  - unfold below_files in Hp.
    apply list_elem_of_In, in_flat_map in Hp as ([name child] & Hin & Hp).
    apply in_map_iff in Hp as (q & <- & Hq). apply list_elem_of_In in Hin, Hq.
    rewrite Forall_forall in IH, Hwf.
    destruct (IH _ Hin q (Hwf _ Hin) Hq) as [Hv [d Hd]]. split.
    + simpl. rewrite Hv, andb_true_r. apply Hvalid, list_elem_of_In, list_elem_of_fmap.
      by exists (name, child).
    + exists d. simpl. by rewrite (assoc_NoDup name child).
Qed.

End FSFacts.

(** ** The GUID resolver is memoized *)

Section Resolver.

Lemma find_meta_cached st project_root guid v :
  unity_texture_cache st !! cache_key project_root guid = Some v →
  find_meta_file_by_guid project_root guid st = (Return v, st).
Proof.
  intros Hc. unfold find_meta_file_by_guid, bind, get. cbn. by rewrite Hc.
Qed.

(** A call either raises (the walk met a file it could not open), leaving
    both caches as they were, or returns [v] and leaves [v] in the cache. *)
Lemma find_meta_outcome st project_root guid :
  let res := find_meta_file_by_guid project_root guid st in
  match res.1 with
  | Return v => unity_texture_cache res.2 !! cache_key project_root guid = Some v
  | Raise _ => unity_texture_cache res.2 = unity_texture_cache st
               ∧ unity_texture_cache st !! cache_key project_root guid = None
  end
  ∧ disk res.2 = disk st
  ∧ godot_resource_cache res.2 = godot_resource_cache st.
Proof.
  unfold find_meta_file_by_guid, bind, get. cbn.
  destruct (unity_texture_cache st !! cache_key project_root guid) as [v|] eqn:Hc; cbn.
  - done.
  - destruct (scan_walk _ _ _) as [[asset|]|e]; cbn;
      rewrite ?lookup_insert_eq; done.
Qed.

(** The key is the text [root:guid], so two pairs can share one entry. *)
Remark cache_key_collision : cache_key "a:b" "c" = cache_key "a" "b:c".
Proof. reflexivity. Qed.

End Resolver.

(** C1. Two successive calls of [find_meta_file_by_guid] with the same
    project root and GUID give the same result. A returned result, found or
    absent, is stored under the key of the pair, and from then on any call
    for that pair is answered from the cache, whatever the file system holds:
    the state does not change, so no directory walk is counted and nothing is
    printed. *)
Theorem find_meta_file_by_guid_memoized (st : state) (project_root guid : string) :
  let first := find_meta_file_by_guid project_root guid st in
  let second := find_meta_file_by_guid project_root guid first.2 in
  second.1 = first.1 ∧
  ∀ v, first.1 = Return v →
    unity_texture_cache first.2 !! cache_key project_root guid = Some v ∧
    second = (Return v, first.2) ∧
    walks second.2 = walks first.2 ∧
    ∀ st', unity_texture_cache st' = unity_texture_cache first.2 →
      find_meta_file_by_guid project_root guid st' = (Return v, st').
Proof.
  intros first second.
  pose proof (find_meta_outcome st project_root guid) as (Hout & Hdisk & _).
  fold first in Hout, Hdisk.
  assert (Hret : ∀ v, first.1 = Return v →
            ∀ st', unity_texture_cache st' = unity_texture_cache first.2 →
              find_meta_file_by_guid project_root guid st' = (Return v, st')).
  { intros v Hv st' Hst'. apply find_meta_cached. rewrite Hst'.
    by rewrite Hv in Hout. }
  split.
  - destruct (first.1) as [v|e] eqn:Hfirst.
    + subst second. by rewrite (Hret v eq_refl first.2 eq_refl).
    + destruct Hout as [Hsame Hmiss]. subst second.
      (* the failed walk is repeated on the same disk with the same cache *)
      unfold first in Hfirst, Hsame, Hdisk |- *.
      revert Hfirst Hsame Hdisk.
      unfold find_meta_file_by_guid, bind, get. cbn. rewrite Hmiss. cbn.
      destruct (scan_walk (disk st) guid (walk (disk st) project_root))
        as [[asset|]|e'] eqn:Hscan; cbn; try discriminate.
      intros [= ->] _ _. rewrite Hmiss. cbn. by rewrite Hscan.
  - intros v Hv. rewrite Hv in Hout. split; [done|].
    assert (second = (Return v, first.2)) as Hsecond
      by (subst second; by apply Hret).
    split; [done|]. split; [by rewrite Hsecond|]. by apply Hret.
Qed.

(** ** The resource locator *)

Module LocatorFacts.
Import TextFacts Path PathFacts FSFacts.

Lemma lower_app (x y : string) : lower (x +:+ y) = lower x +:+ lower y.
Proof. induction x as [|c x IH]; sapp; simpl; [done | sapp; by rewrite IH]. Qed.


(** On the characters of the embedding, lower-casing goes through
    concatenation: the comparison is equality up to case with the base name
    plus the extension. *)
Lemma matches_name_up_to_case base ext file :
  Spec.matches_name base ext file = bool_decide (lower file = lower (base +:+ ext)).
Proof. unfold Spec.matches_name. by rewrite lower_app. Qed.




Lemma wf_node_lookup s n comps n' :
  wf_node s n = true → lookup_node n comps = Some n' → wf_node s n' = true.
Proof.
  revert n. induction comps as [|c comps IH]; intros n Hwf; simpl; [by intros [= <-]|].
  destruct n as [d|entries]; [done|].
  destruct (assoc c entries) as [child|] eqn:Hc; [|done].
  apply IH. apply wf_node_dir in Hwf as (_ & _ & Hwf).
  rewrite Forall_forall in Hwf.
  clear -Hc Hwf. induction entries as [|[n x] entries IHe]; simpl in Hc; [done|].
  case_decide.
  - injection Hc as ->. apply (Hwf (n, child)), elem_of_cons. by left.
  - apply IHe; try done. intros e He. apply Hwf, elem_of_cons. by right.
Qed.

Lemma join_with_cons sep (x y : string) (p : list string) :
  join_with sep (x :: y :: p) = x +:+ sep +:+ join_with sep (y :: p).
Proof. reflexivity. Qed.





Lemma resolve_nonempty fs top n : resolve fs top = Some n → nonempty top = true.
Proof. unfold resolve. by destruct (nonempty top). Qed.



Lemma find_godot_resource_cached st root unity_path v :
  nonempty unity_path = true →
  godot_resource_cache st !! cache_key root unity_path = Some v →
  find_godot_resource root unity_path st = (Return v, st).
Proof.
  intros Hne Hc. unfold find_godot_resource. rewrite Hne. cbn.
  unfold bind, get. by rewrite Hc.
Qed.

End LocatorFacts.




(** A [.psd] source is looked up as [.png] only, and [wood.PNG] matches the
    base name [Wood] up to case. *)
Example locate_wood :
  Spec.locate Example.fs0 "/g" "/u/Assets/Textures/Wood.psd"
  = Some "res://assets/Textures/wood.PNG".
Proof. reflexivity. Qed.

(** ** The resolver and the locator always answer on a well-formed tree *)

Module Totality.
Import TextFacts Path PathFacts FSFacts LocatorFacts.

Lemma scan_files_pairs fs guid root files :
  (∀ file, file ∈ files → ∃ r, inspect_meta fs guid root file = Return r) →
  ∃ r, scan_files fs guid root files = Return r.
Proof.
  induction files as [|file files IH]; intros H; [by eexists|]. simpl.
  destruct (H file) as [[asset|] ->]; [by left|by eexists|].
  apply IH. intros f Hf. apply H. by right.
Qed.

Lemma scan_walk_pairs fs guid entries :
  (∀ x, x ∈ walk_files entries → ∃ r, inspect_meta fs guid x.1 x.2 = Return r) →
  ∃ r, scan_walk fs guid entries = Return r.
Proof.
  induction entries as [|[[root dirs] files] entries IH]; intros H; [by eexists|].
  simpl. destruct (scan_files_pairs fs guid root files) as [[asset|] ->].
  - intros file Hf. apply (H (root, file)). unfold walk_files. simpl.
    apply elem_of_app. left. by apply list_elem_of_fmap_2.
  - by eexists.
  - apply IH. intros x Hx. apply H. unfold walk_files. simpl.
    apply elem_of_app. by right.
Qed.

(** Every file a walk lists can be opened. *)
Lemma walk_files_readable fs top x :
  wf fs = true → x ∈ walk_files (walk fs top) →
  read_utf8 fs (join (sep fs) x.1 x.2) ≠ OSError.
Proof.
  intros Hwf Hx. unfold walk in Hx.
  destruct (resolve fs top) as [n|] eqn:Hres; [|by apply elem_of_nil in Hx].
  pose proof (resolve_nonempty _ _ _ Hres) as Hne.
  rewrite walk_files_node in Hx.
  apply list_elem_of_fmap in Hx as (p & -> & Hp). cbn [fst snd].
  assert (wf_node (sep fs) n = true) as Hwfn.
  { unfold resolve in Hres. rewrite Hne in Hres. by eapply wf_node_lookup. }
  destruct (files_below_lookup _ _ _ Hwfn Hp) as [Hv [d Hd]].
  pose proof (files_below_nonnil _ _ Hp) as Hnil.
  replace (join (sep fs) (fold_left (join (sep fs)) (removelast p) top) (List.last p ""))
    with (fold_left (join (sep fs)) p top).
  2:{ rewrite (app_removelast_last "" Hnil) at 1. by rewrite fold_left_app. }
  unfold read_utf8, resolve. rewrite fold_join_nonempty by done.
  rewrite abs_components_descend, lookup_node_app by done.
  unfold resolve in Hres. rewrite Hne in Hres. rewrite Hres, Hd. by destruct d.
Qed.

Lemma scan_walk_returns fs guid top :
  wf fs = true → ∃ r, scan_walk fs guid (walk fs top) = Return r.
Proof.
  intros Hwf. apply scan_walk_pairs. intros x Hx.
  pose proof (walk_files_readable fs top x Hwf Hx) as Hread.
  unfold inspect_meta. destruct (endswith ".meta" x.2); [|by eexists].
  destruct (read_utf8 _ _) as [content| |]; [|by eexists|done].
  destruct (contains _ content); [|by eexists].
  destruct (exists_ _ _); by eexists.
Qed.

Lemma find_meta_returns st project_root guid :
  wf (disk st) = true →
  ∃ v st', find_meta_file_by_guid project_root guid st = (Return v, st')
           ∧ resolved project_root guid v st st'.
Proof.
  intros Hwf. unfold find_meta_file_by_guid, resolved, bind, get. cbn.
  destruct (unity_texture_cache st !! cache_key project_root guid) as [v|] eqn:Hc; cbn.
  - exists v, st. repeat split; auto.
  - destruct (scan_walk_returns (disk st) guid project_root Hwf) as [[asset|] Hscan];
      rewrite Hscan; cbn; eexists _, _; (split; [reflexivity|]); cbn;
      rewrite lookup_insert_eq; repeat split; auto.
Qed.

Lemma walk_node_roots s n : ∀ top e,
  nonempty top = true → e ∈ walk_node s top n → nonempty e.1.1 = true.
Proof.
  induction n as [d|entries IH] using node_ind'; intros top e Ht He;
    [by apply elem_of_nil in He|].
  rewrite walk_node_dir in He. apply elem_of_cons in He as [->|He]; [done|].
  apply list_elem_of_In, in_flat_map in He as (c & Hc & He).
  rewrite Forall_forall in IH. apply list_elem_of_In in Hc, He.
  eapply (IH c Hc); [|exact He]. by apply join_nonempty.
Qed.

Lemma first_match_root base ext entries root file :
  first_match base ext entries = Some (root, file) → ∃ e, e ∈ entries ∧ e.1.1 = root.
Proof.
  induction entries as [|[[r ds] fs] entries IH]; simpl; [done|].
  destruct (List.find _ fs).
  - intros [= -> ->]. eexists. split; [by left|done].
  - intros (e & He & Hr)%IH. exists e. split; [by right|done].
Qed.

Lemma locate_returns exts : ∀ st top base,
  ∃ v st', locate top base exts st = (Return v, st') ∧ only_walked st st'.
Proof.
  induction exts as [|ext exts IH]; intros st top base.
  - exists None, st. by split.
  - cbn [locate]. unfold bind at 1, get. cbn beta iota.
    unfold bind at 1, os_walk. cbn beta iota zeta.
    destruct (first_match base ext (walk (disk st) top)) as [[root file]|] eqn:Hfm.
    + apply first_match_root in Hfm as (e & He & <-).
      assert (nonempty e.1.1 = true) as Hroot.
      { unfold walk in He. destruct (resolve (disk st) top) as [n|] eqn:Hres;
          [|by apply elem_of_nil in He].
        eapply walk_node_roots; [|exact He]. by eapply resolve_nonempty. }
      unfold godot_path_of, relpath.
      rewrite (join_nonempty _ _ file Hroot). cbn [negb].
      destruct (strip_common _ _) as [up down].
      destruct (replicate (length up) ".." ++ down);
        eexists _, _; (split; [reflexivity|]); by repeat split.
    + match goal with |- context [locate top base exts ?st1] => set (st1' := st1) end.
      destruct (IH st1' top base) as (v & st' & -> & Hw).
      exists v, st'. split; [done|]. destruct Hw as (? & ? & ? & ?). by repeat split.
Qed.

Lemma find_godot_resource_returns st root unity_path :
  ∃ v st', find_godot_resource root unity_path st = (Return v, st') ∧ located st st'.
Proof.
  unfold find_godot_resource, located. destruct (nonempty unity_path); cbn [negb].
  2:{ exists None, st. by repeat split. }
  unfold bind at 1, get. cbn beta iota.
  destruct (godot_resource_cache st !! _) as [v|].
  { exists v, st. by repeat split. }
  edestruct (locate_returns) as (v & st1 & Hloc & Hu & Hg & Hd & Ho).
  unfold bind at 1. rewrite Hloc. cbn.
  eexists _, _. split; [reflexivity|]. by repeat split.
Qed.

End Totality.

(** ** The material translator *)

Module TranslatorFacts.
Import TextFacts Totality.

Lemma translate_property_returns m ur gr unity_prop godot_prop st :
  wf (disk st) = true →
  ∃ piece st',
    translate_property m ur gr unity_prop godot_prop st = (Return piece, st') ∧
    Spec.contribution m unity_prop godot_prop piece ∧
    disk st' = disk st.
Proof.
  intros Hwf. unfold translate_property.
  destruct (textures m !! unity_prop) as [tex|] eqn:Htex.
  - destruct (find_meta_returns st ur (guid tex) Hwf) as (v & st1 & Hfind & Hd1 & _).
    unfold bind at 1. rewrite Hfind. cbn beta iota.
    destruct (truthy v).
    2:{ eexists _, _. split; [reflexivity|]. split; [by econstructor|done]. }
    unfold bind at 1, get. cbn beta iota.
    destruct (find_godot_resource_returns st1 gr (default "" v))
      as (gv & st2 & Hloc & Hd2 & _).
    unfold bind at 1. rewrite Hloc. cbn beta iota.
    destruct (truthy gv); unfold bind, print, ret; cbn;
      eexists _, _; (split; [reflexivity|]); cbn;
      (split; [by econstructor | congruence]).
  - destruct (colors m !! unity_prop) as [c|] eqn:Hcol.
    { eexists _, _. split; [reflexivity|]. split; [|done].
      unfold convert_color. rewrite !append_assoc. by constructor. }
    destruct (floats m !! unity_prop) as [v|] eqn:Hfl.
    { eexists _, _. split; [reflexivity|]. split; [by constructor|done]. }
    eexists _, _. split; [reflexivity|]. split; [by constructor|done].
Qed.

(** The property loop appends the contribution of each table entry, in table
    order. *)
Lemma translate_properties_returns m ur gr table : ∀ tres_content st,
  wf (disk st) = true →
  ∃ pieces st',
    translate_properties m ur gr table tres_content st
    = (Return (tres_content +:+ concat_all pieces), st') ∧
    Forall2 (λ e piece, Spec.contribution m e.1 e.2 piece) table pieces ∧
    disk st' = disk st.
Proof.
  induction table as [|[unity_prop godot_prop] table IH]; intros tres_content st Hwf.
  - exists [], st. cbn. rewrite append_nil_r. by repeat split.
  - cbn [translate_properties].
    destruct (translate_property_returns m ur gr unity_prop godot_prop st Hwf)
      as (piece & st1 & Hp & Hc & Hd1).
    unfold bind at 1. rewrite Hp. cbn beta iota.
    destruct (IH (tres_content +:+ piece) st1) as (pieces & st2 & Hps & Hcs & Hd2);
      [by rewrite Hd1|].
    exists (piece :: pieces), st2. rewrite Hps. cbn [concat_all].
    rewrite append_assoc. repeat split; [by constructor|congruence].
Qed.

(** The text is the header, then the transparency fields, then the
    contributions of the eight table entries. *)
Lemma material_text_returns m ur gr st :
  wf (disk st) = true →
  ∃ pieces st',
    material_text m ur gr st
    = (Return (header +:+ transparency m +:+ concat_all pieces), st') ∧
    Forall2 (λ e piece, Spec.contribution m e.1 e.2 piece) property_mappings pieces ∧
    disk st' = disk st.
Proof.
  intros Hwf. unfold material_text.
  destruct (translate_properties_returns m ur gr property_mappings
              (header +:+ transparency m) st Hwf) as (pieces & st' & -> & Hc & Hd).
  exists pieces, st'. by rewrite append_assoc.
Qed.

End TranslatorFacts.

Import TranslatorFacts.

(** C3. Transparency inference comes before the property loop: the text is
    the header, then the transparency fields, then the contributions of the
    property table. With the alpha-test flag in the keyword string the fields
    are [transparency = 1], [alpha_scissor_threshold] with the [_Cutoff]
    float ([0.5] when absent) and [alpha_hash_scale = 1.0]; otherwise, with
    either alpha-blend flag, [transparency = 1] and [blend_mode = 1];
    otherwise there is no field at all. *)
Theorem transparency_inference (m : material) (ur gr : string) (st : state) :
  wf (disk st) = true →
  ∃ fields body st',
    material_text m ur gr st = (Return (header +:+ fields +:+ concat_all body), st') ∧
    Forall2 (λ e piece, Spec.contribution m e.1 e.2 piece) property_mappings body ∧
    (contains "_ALPHATEST_ON" (shader_keywords m) = true →
       fields = "transparency = 1" +:+ nl
                +:+ "alpha_scissor_threshold = "
                +:+ match floats m !! "_Cutoff" with
                    | Some cutoff => PyFloat.repr cutoff
                    | None => "0.5"
                    end +:+ nl
                +:+ "alpha_hash_scale = 1.0" +:+ nl) ∧
    (contains "_ALPHATEST_ON" (shader_keywords m) = false →
     contains "_ALPHABLEND_ON" (shader_keywords m) = true
     ∨ contains "_ALPHAPREMULTIPLY_ON" (shader_keywords m) = true →
       fields = "transparency = 1" +:+ nl +:+ "blend_mode = 1" +:+ nl) ∧
    (contains "_ALPHATEST_ON" (shader_keywords m) = false →
     contains "_ALPHABLEND_ON" (shader_keywords m) = false →
     contains "_ALPHAPREMULTIPLY_ON" (shader_keywords m) = false →
       fields = "").
Proof.
  intros Hwf.
  destruct (material_text_returns m ur gr st Hwf) as (pieces & st' & Htext & Hc & _).
  exists (transparency m), pieces, st'. split; [done|]. split; [done|].
  unfold transparency. repeat split.
  - intros ->. by destruct (floats m !! "_Cutoff").
  - intros -> [-> | ->]; [done|]. by rewrite orb_true_r.
  - by intros -> -> ->.
Qed.

Lemma transparency_inference_witness :
  wf (disk Example.st0) = true ∧
  ∃ fields body st',
    material_text Example.cutout "/u" "/g" Example.st0
    = (Return (header +:+ fields +:+ concat_all body), st') ∧
    Forall2 (λ e piece, Spec.contribution Example.cutout e.1 e.2 piece)
      property_mappings body ∧
    fields = "transparency = 1" +:+ nl +:+ "alpha_scissor_threshold = 0.5" +:+ nl
             +:+ "alpha_hash_scale = 1.0" +:+ nl.
Proof.
  split; [reflexivity|].
  destruct (transparency_inference Example.cutout "/u" "/g" Example.st0 eq_refl)
    as (fields & body & st' & Htext & Hbody & Htest & _).
  exists fields, body, st'. split; [exact Htext|]. split; [exact Hbody|].
  exact (Htest eq_refl).
Defined.

(** C9. With the alpha-test flag in the keyword string, the text has the line
    [alpha_hash_scale = 1.0]: it ends the transparency fields, right before
    the contributions of the property table. *)
Theorem alpha_test_emits_hash_scale (m : material) (ur gr : string) (st : state) :
  wf (disk st) = true →
  contains "_ALPHATEST_ON" (shader_keywords m) = true →
  ∃ before body st',
    material_text m ur gr st
    = (Return (before +:+ ("alpha_hash_scale = 1.0" +:+ nl) +:+ concat_all body), st') ∧
    endswith nl before = true ∧
    Forall2 (λ e piece, Spec.contribution m e.1 e.2 piece) property_mappings body.
Proof.
  intros Hwf Hflag.
  destruct (material_text_returns m ur gr st Hwf) as (pieces & st' & Htext & Hc & _).
  exists (header +:+ "transparency = 1" +:+ nl +:+ "alpha_scissor_threshold = "
          +:+ PyFloat.repr (default 0.5%float (floats m !! "_Cutoff")) +:+ nl),
    pieces, st'.
  split; [|split; [|done]].
  - rewrite Htext. unfold transparency. rewrite Hflag.
    by rewrite !TextFacts.append_assoc.
  - apply TextFacts.endswith_spec. eexists.
    rewrite <- !TextFacts.append_assoc. reflexivity.
Qed.

Lemma alpha_test_emits_hash_scale_witness :
  ∃ before body st',
    material_text Example.cutout "/u" "/g" Example.st0
    = (Return (before +:+ ("alpha_hash_scale = 1.0" +:+ nl) +:+ concat_all body), st') ∧
    endswith nl before = true ∧
    Forall2 (λ e piece, Spec.contribution Example.cutout e.1 e.2 piece)
      property_mappings body.
Proof.
  exact (alpha_test_emits_hash_scale Example.cutout "/u" "/g" Example.st0 eq_refl eq_refl).
Defined.

Lemma contribution_line m unity_prop godot_prop piece :
  Spec.contribution m unity_prop godot_prop piece →
  piece = "" ∨ (startswith (godot_prop +:+ " = ") piece = true ∧ endswith nl piece = true).
Proof.
  intros [tex rid Ht|tex Ht|c Ht Hc|v Ht Hc Hf|Ht Hc Hf]; auto; right; split;
    try (apply TextFacts.startswith_spec; eexists;
         rewrite ?TextFacts.append_assoc; reflexivity);
    apply TextFacts.endswith_spec; eexists;
    rewrite <- ?TextFacts.append_assoc; reflexivity.
Qed.

Lemma endswith_nl_app (x y : string) :
  endswith nl x = true → y = "" ∨ endswith nl y = true → endswith nl (x +:+ y) = true.
Proof.
  intros Hx [->|Hy]; [by rewrite TextFacts.append_nil_r|].
  apply TextFacts.endswith_spec in Hy as [pre ->].
  apply TextFacts.endswith_spec. exists (x +:+ pre). by rewrite TextFacts.append_assoc.
Qed.

Lemma transparency_lines m :
  transparency m = "" ∨ endswith nl (transparency m) = true.
Proof.
  unfold transparency. destruct (contains "_ALPHATEST_ON" _).
  - right. apply TextFacts.endswith_spec. eexists.
    rewrite <- !TextFacts.append_assoc. reflexivity.
  - destruct (_ || _); [right|by left]. reflexivity.
Qed.

(** C4 (as amended). A material whose floats hold [_Glossiness], with no
    texture or colour under that name, gets the line [roughness = v] where
    [v] is the binary64 difference [1.0 - glossiness], printed as [repr]
    prints it. *)
Theorem glossiness_inverted (m : material) (ur gr : string) (st : state) (glossiness : float) :
  wf (disk st) = true →
  floats m !! "_Glossiness" = Some glossiness →
  textures m !! "_Glossiness" = None →
  colors m !! "_Glossiness" = None →
  ∃ before after st',
    material_text m ur gr st
    = (Return (before +:+ ("roughness = " +:+ PyFloat.repr (1 - glossiness)%float +:+ nl)
               +:+ after), st') ∧
    endswith nl before = true.
Proof.
  intros Hwf Hf Ht Hc.
  destruct (material_text_returns m ur gr st Hwf) as (pieces & st' & Htext & Hcs & _).
  unfold property_mappings in Hcs.
  repeat match type of Hcs with
         | Forall2 _ (_ :: _) _ =>
             let p := fresh "p" in let H := fresh "Hp" in
             apply Forall2_cons_inv_l in Hcs as (p & ? & H & Hcs & ->)
         | Forall2 _ [] _ => apply Forall2_nil_inv_l in Hcs as ->
         end.
  cbn [fst snd] in *.
  assert (p2 = "roughness = " +:+ PyFloat.repr (1 - glossiness)%float +:+ nl) as ->.
  { inversion Hp2 as [| | |v _ _ Hv|]; try congruence.
    rewrite Hf in Hv. injection Hv as <-. by rewrite decide_True. }
  exists (header +:+ transparency m +:+ p +:+ p0 +:+ p1), (concat_all [p3; p4; p5; p6]), st'.
  split.
  - rewrite Htext. cbn [concat_all]. by rewrite !TextFacts.append_assoc.
  - rewrite <- !TextFacts.append_assoc.
    assert (∀ up gp q, Spec.contribution m up gp q → q = "" ∨ endswith nl q = true) as Hline.
    { intros up gp q Hq. destruct (contribution_line _ _ _ _ Hq) as [?|[_ ?]]; auto. }
    apply endswith_nl_app; [|by eapply Hline].
    apply endswith_nl_app; [|by eapply Hline].
    apply endswith_nl_app; [|by eapply Hline].
    apply endswith_nl_app; [reflexivity|apply transparency_lines].
Qed.

Lemma glossiness_inverted_witness :
  ∃ before after st',
    material_text (Example.glossy 0.5) "/u" "/g" Example.st0
    = (Return (before +:+ ("roughness = " +:+ PyFloat.repr (1 - 0.5)%float +:+ nl)
               +:+ after), st') ∧
    endswith nl before = true.
Proof.
  exact (glossiness_inverted (Example.glossy 0.5) "/u" "/g" Example.st0 0.5%float
           eq_refl eq_refl eq_refl eq_refl).
Defined.

(** C4, the example of the claim as stated: glossiness 0.8 does not give the
    line [roughness = 0.2]. The text is the header and the line
    [roughness = 0.19999999999999996], and the binary64 value of
    [1.0 - 0.8] is not that of [0.2]. *)
Lemma glossiness_08_is_not_02 :
  (material_text (Example.glossy 0.8) "/u" "/g" Example.st0).1
  = Return (header +:+ "roughness = 0.19999999999999996" +:+ nl) ∧
  PrimFloat.eqb (1 - 0.8) 0.2 = false ∧
  PyFloat.repr 0.2 = "0.2".
Proof. vm_compute. done. Qed.



(** ** A texture whose GUID no sidecar declares *)

(** When the resolver answers absent, the property contributes nothing, and
    the only line that may be printed is the resolver's own, on a cache
    miss: no warning. *)
Lemma translate_property_unresolved m ur gr unity_prop godot_prop tex st st1 :
  textures m !! unity_prop = Some tex →
  find_meta_file_by_guid ur (guid tex) st = (Return None, st1) →
  translate_property m ur gr unity_prop godot_prop st = (Return "", st1) ∧
  (stdout st1 = stdout st
   ∨ stdout st1 = stdout st ++ ["Searching for GUID: " +:+ guid tex]).
Proof.
  intros Htex Hfind. split.
  - unfold translate_property. rewrite Htex. unfold bind at 1. by rewrite Hfind.
  - revert Hfind. unfold find_meta_file_by_guid, bind, get. cbn.
    destruct (unity_texture_cache st !! _) as [v|]; cbn; [intros [= _ <-]; by left|].
    destruct (scan_walk _ _ _) as [[asset|]|e]; cbn; intros [= <-]; by right.
Qed.

(** C6, at the failing input: [_MainTex] names a GUID that no sidecar of the
    Unity project declares. The property is left out and the colour that
    follows is translated, but the output holds no warning: the one line
    printed is the resolver's search notice. *)
Theorem unresolved_texture_prints_no_warning :
  let res := material_text Example.lost_texture "/u" "/g" Example.st0 in
  res.1 = Return (header +:+ "albedo_color = Color(1.0, 0.5, 0.25, 1.0)" +:+ nl) ∧
  stdout res.2 = ["Searching for GUID: ffffffffffffffffffffffffffffffff"] ∧
  forallb (λ line, negb (contains "Warning" line)) (stdout res.2) = true.
Proof. vm_compute. done. Qed.

(** The analyzer's texture pattern puts the underscore before its first
    group, so the key it stores is the property name without it; the keys of
    the property table keep it. *)
Example texture_key_has_no_underscore :
  parse_textures Example.texture_slot !! "MainTex"
  = Some {| fileID := "2800000"; guid := Example.guid_wood |} ∧
  parse_textures Example.texture_slot !! "_MainTex" = None ∧
  existsb (λ e, String.eqb e.1 "MainTex") property_mappings = false.
Proof. vm_compute. done. Qed.

(** ** Records that differ in an unresolved texture *)

Module SimilarFacts.
Import TextFacts Totality LocatorFacts.

Lemma cache_key_inj ur g1 g2 : cache_key ur g1 = cache_key ur g2 → g1 = g2.
Proof.
  unfold cache_key. intros H. apply (inj (String.app ur)) in H.
  by apply (inj (String.app ":")) in H.
Qed.

Lemma extends_refl ur d c : extends ur d c c.
Proof. intros g. by left. Qed.

Lemma extends_trans ur d c1 c2 c3 :
  extends ur d c1 c2 → extends ur d c2 c3 → extends ur d c1 c3.
Proof.
  intros H12 H23 g. destruct (H23 g) as [E23|(N2 & v & S3 & Hv)];
    destruct (H12 g) as [E12|(N1 & w & S2 & Hw)].
  - left. congruence.
  - right. split; [done|]. exists w. split; [congruence|done].
  - right. split; [congruence|]. by exists v.
  - congruence.
Qed.

(** A call of the resolver only adds to its cache an answer computed on
    the disk. *)
Lemma resolved_extends ur g v st st' :
  resolved ur g v st st' →
  extends ur (disk st) (unity_texture_cache st) (unity_texture_cache st').
Proof.
  intros (Hd & _ & _ & [[_ ->]|(Hmiss & Hscan & Hcache & _)]); [apply extends_refl|].
  intros g'. rewrite Hcache. destruct (decide (g' = g)) as [->|Hne].
  - right. split; [done|]. exists v. by rewrite lookup_insert_eq.
  - left. rewrite lookup_insert_ne; [done|]. intros ?%cache_key_inj. done.
Qed.

(** On similar states the resolver gives the same answer, and leaves similar
    states. *)
Lemma similar_find_meta ur g a b :
  similar ur a b → wf (disk b) = true →
  ∃ v a' b',
    find_meta_file_by_guid ur g a = (Return v, a') ∧
    find_meta_file_by_guid ur g b = (Return v, b') ∧
    similar ur a' b' ∧ resolved ur g v a a'.
Proof.
  intros (Hd & Hg & Hext) Hwf.
  destruct (find_meta_returns a ur g) as (va & a' & Ha & Hra); [by rewrite Hd|].
  destruct (find_meta_returns b ur g Hwf) as (vb & b' & Hb & Hrb).
  assert (va = vb ∧ extends ur (disk b') (unity_texture_cache b') (unity_texture_cache a'))
    as [-> Hext'].
  { destruct Hra as (Hda & _ & Ha' & Hra), Hrb as (Hdb & _ & Hb' & Hrb).
    rewrite Hdb.
    destruct Hra as [[Hah ->]|(Ham & Has & Hac & _)];
      destruct Hrb as [[Hbh ->]|(Hbm & Hbs & Hbc & _)].
    - destruct (Hext g) as [E|(N & _)]; [|congruence].
      split; [congruence|done].
    - destruct (Hext g) as [E|(N & w & Sw & Hw)]; [congruence|].
      assert (va = vb) as -> by congruence. split; [done|].
      intros g'. rewrite Hbc. destruct (decide (g' = g)) as [->|Hne].
      + left. by rewrite lookup_insert_eq.
      + rewrite lookup_insert_ne; [apply Hext|]. intros ?%cache_key_inj. done.
    - destruct (Hext g) as [E|(N & w & Sw & Hw)]; congruence.
    - rewrite Hd in Has. assert (va = vb) as -> by congruence. split; [done|].
      intros g'. rewrite Hac, Hbc. destruct (decide (g' = g)) as [->|Hne].
      + left. by rewrite !lookup_insert_eq.
      + rewrite !lookup_insert_ne; [apply Hext| |];
          intros ?%cache_key_inj; done. }
  exists vb, a', b'. repeat split; try done.
  - destruct Hra as (-> & _), Hrb as (-> & _). done.
  - destruct Hra as (_ & -> & _), Hrb as (_ & -> & _). done.
  - by destruct Hra.
  - by destruct Hra as (_ & ? & _).
  - by destruct Hra as (_ & _ & ? & _).
  - by destruct Hra as (_ & _ & _ & ?).
Qed.

Lemma locate_cons top base ext exts st :
  locate top base (ext :: exts) st =
    match first_match base ext (walk (disk st) top) with
    | Some (root, file) =>
        match godot_path_of (disk st) top root file with
        | Return godot_path => (Return (Some godot_path), (os_walk top st).2)
        | Raise e => (Raise e, (os_walk top st).2)
        end
    | None => locate top base exts (os_walk top st).2
    end.
Proof.
  cbn [locate]. unfold bind, get. cbn.
  destruct (first_match base ext (walk (disk st) top)) as [[root file]|]; [|done].
  by destruct (godot_path_of (disk st) top root file).
Qed.

(** The locator's search reads the disk only. *)
Lemma locate_disk top base exts : ∀ a b,
  disk a = disk b → (locate top base exts a).1 = (locate top base exts b).1.
Proof.
  induction exts as [|ext exts IH]; intros a b Hd; [done|].
  rewrite !locate_cons, Hd.
  destruct (first_match base ext (walk (disk b) top)) as [[root file]|].
  - by destruct (godot_path_of (disk b) top root file).
  - by apply IH.
Qed.

Lemma find_godot_resource_miss st gr p v st1 :
  nonempty p = true → godot_resource_cache st !! cache_key gr p = None →
  locate gr (base_name (sep (disk st)) p) (extensions (sep (disk st)) p) st
  = (Return v, st1) →
  ∃ st', find_godot_resource gr p st = (Return v, st') ∧
         godot_resource_cache st' = <[cache_key gr p := v]> (godot_resource_cache st1) ∧
         unity_texture_cache st' = unity_texture_cache st1 ∧ disk st' = disk st1.
Proof.
  intros Hne Hmiss Hloc. unfold find_godot_resource. rewrite Hne. cbn [negb].
  unfold bind at 1, get. cbn beta iota. rewrite Hmiss.
  unfold bind at 1. rewrite Hloc. cbn. eexists. by repeat split.
Qed.

Lemma find_godot_resource_empty st gr p :
  nonempty p = false → find_godot_resource gr p st = (Return None, st).
Proof. intros Hne. unfold find_godot_resource. by rewrite Hne. Qed.

Lemma similar_find_godot ur gr p a b :
  similar ur a b →
  ∃ v a' b',
    find_godot_resource gr p a = (Return v, a') ∧
    find_godot_resource gr p b = (Return v, b') ∧
    similar ur a' b' ∧ unity_texture_cache a' = unity_texture_cache a ∧ disk a' = disk a.
Proof.
  intros (Hd & Hg & Hext).
  destruct (nonempty p) eqn:Hne.
  2:{ exists None, a, b. rewrite !find_godot_resource_empty by done. by repeat split. }
  destruct (godot_resource_cache b !! cache_key gr p) as [v|] eqn:Hb.
  { exists v, a, b.
    rewrite (find_godot_resource_cached a gr p v), (find_godot_resource_cached b gr p v)
      by congruence.
    by repeat split. }
  pose proof (locate_disk gr (base_name (sep (disk b)) p) (extensions (sep (disk b)) p)
                a b Hd) as Hsame.
  destruct (locate_returns (extensions (sep (disk b)) p) a gr (base_name (sep (disk b)) p))
    as (va & a1 & Hla & Hua & Hga & Hda & _).
  destruct (locate_returns (extensions (sep (disk b)) p) b gr (base_name (sep (disk b)) p))
    as (vb & b1 & Hlb & Hub & Hgb & Hdb & _).
  rewrite Hla, Hlb in Hsame. injection Hsame as ->.
  destruct (find_godot_resource_miss a gr p vb a1) as (a' & Ha' & Hga' & Hua' & Hda');
    [done|congruence|by rewrite Hd|].
  destruct (find_godot_resource_miss b gr p vb b1) as (b' & Hb' & Hgb' & Hub' & Hdb');
    [done|done|done|].
  exists vb, a', b'. repeat split; try congruence.
  rewrite Hua', Hub', Hdb', Hua, Hub, Hdb. done.
Qed.

Lemma translate_property_texture m ur gr unity_prop godot_prop tex st v st1 :
  textures m !! unity_prop = Some tex →
  find_meta_file_by_guid ur (guid tex) st = (Return v, st1) →
  (truthy v = false →
   translate_property m ur gr unity_prop godot_prop st = (Return "", st1)) ∧
  (truthy v = true → ∀ gv st2,
   find_godot_resource gr (default "" v) st1 = (Return gv, st2) →
   ∃ st3, translate_property m ur gr unity_prop godot_prop st
          = (Return (texture_piece godot_prop gv), st3) ∧
          unity_texture_cache st3 = unity_texture_cache st2 ∧
          godot_resource_cache st3 = godot_resource_cache st2 ∧
          disk st3 = disk st2).
Proof.
  intros Htex Hfind. unfold translate_property. rewrite Htex.
  split.
  - intros Hv. unfold bind at 1. rewrite Hfind. cbn beta iota. by rewrite Hv.
  - intros Hv gv st2 Hloc. unfold bind at 1. rewrite Hfind. cbn beta iota.
    rewrite Hv. unfold bind at 1, get. cbn beta iota.
    unfold bind at 1. rewrite Hloc. cbn beta iota. unfold texture_piece.
    destruct (truthy gv); unfold bind, print, ret; cbn; eexists; by repeat split.
Qed.

Lemma translate_property_plain m m' ur gr unity_prop godot_prop st :
  textures m !! unity_prop = None → textures m' !! unity_prop = None →
  colors m = colors m' → floats m = floats m' →
  ∃ piece,
    translate_property m ur gr unity_prop godot_prop st = (Return piece, st) ∧
    ∀ st', translate_property m' ur gr unity_prop godot_prop st' = (Return piece, st').
Proof.
  intros Ht Ht' Hc Hf. unfold translate_property. rewrite Ht, Ht', <- Hc, <- Hf.
  destruct (colors m !! unity_prop); [by eexists|].
  destruct (floats m !! unity_prop); by eexists.
Qed.

(** An entry of the property table on which two records agree is translated
    alike on similar states. *)
Lemma similar_translate_property m m' ur gr unity_prop godot_prop a b :
  textures m !! unity_prop = textures m' !! unity_prop →
  colors m = colors m' → floats m = floats m' →
  similar ur a b → wf (disk b) = true →
  ∃ piece a' b',
    translate_property m ur gr unity_prop godot_prop a = (Return piece, a') ∧
    translate_property m' ur gr unity_prop godot_prop b = (Return piece, b') ∧
    similar ur a' b' ∧
    extends ur (disk a) (unity_texture_cache a) (unity_texture_cache a') ∧
    disk a' = disk a.
Proof.
  intros Ht Hc Hf Hsim Hwf.
  destruct (textures m !! unity_prop) as [tex|] eqn:Htex.
  - destruct (similar_find_meta ur (guid tex) a b Hsim Hwf)
      as (v & a1 & b1 & Ha & Hb & Hsim1 & Hres).
    pose proof (resolved_extends _ _ _ _ _ Hres) as Hext1.
    assert (disk a1 = disk a) as Hd1 by by destruct Hres.
    destruct (translate_property_texture m ur gr unity_prop godot_prop tex a v a1 Htex Ha)
      as [Hfa Hta].
    destruct (translate_property_texture m' ur gr unity_prop godot_prop tex b v b1
                (eq_sym Ht) Hb) as [Hfb Htb].
    destruct (truthy v).
    { destruct (similar_find_godot ur gr (default "" v) a1 b1 Hsim1)
        as (gv & a2 & b2 & Hga & Hgb & (Hsd & Hsg & Hse) & Hu2 & Hd2).
      destruct (Hta eq_refl gv a2 Hga) as (a3 & -> & Hua & Hgca & Hda).
      destruct (Htb eq_refl gv b2 Hgb) as (b3 & -> & Hub & Hgcb & Hdb).
      exists (texture_piece godot_prop gv), a3, b3.
      repeat split; try congruence.
      - by rewrite Hua, Hub, Hdb.
      - by rewrite Hua, Hu2. }
    exists "", a1, b1. rewrite Hfa, Hfb by done. do 3 (split; [done|]). by split.
  - destruct (translate_property_plain m m' ur gr unity_prop godot_prop a)
      as (piece & Hpa & Hpb); [done|congruence|done|done|].
    exists piece, a, b. rewrite Hpa, Hpb. do 3 (split; [done|]).
    split; [apply extends_refl|done].
Qed.

Lemma absent_spec ur g st :
  wf (disk st) = true →
  (find_meta_file_by_guid ur g st).1 = Return None → absent ur g st.
Proof.
  intros Hwf Hnone. destruct (find_meta_returns st ur g Hwf) as (v & st' & Hfind & Hres).
  rewrite Hfind in Hnone. injection Hnone as ->.
  destruct Hres as (_ & _ & _ & [[Hhit _]|(Hmiss & Hscan & _)]); [by left|by right].
Qed.

Lemma absent_resolved ur g v st st' :
  absent ur g st → resolved ur g v st st' → v = None.
Proof.
  intros [Hhit|[Hmiss Hscan]] (_ & _ & _ & [[Hhit' _]|(Hmiss' & Hscan' & _)]); congruence.
Qed.

Lemma absent_extends ur g st st' :
  absent ur g st → disk st' = disk st →
  extends ur (disk st) (unity_texture_cache st) (unity_texture_cache st') →
  absent ur g st'.
Proof.
  intros Habs Hd Hext. unfold absent. rewrite Hd.
  destruct (Hext g) as [->|(Hnone & v & -> & Hv)]; [done|].
  destruct Habs as [Hhit|[_ Hscan]]; [congruence|]. left. congruence.
Qed.

Lemma translate_properties_cons m ur gr up gp table tres_content st piece st1 :
  translate_property m ur gr up gp st = (Return piece, st1) →
  translate_properties m ur gr ((up, gp) :: table) tres_content st
  = translate_properties m ur gr table (tres_content +:+ piece) st1.
Proof. intros H. cbn [translate_properties]. unfold bind. by rewrite H. Qed.

(** The loop over a table, on a record with an unresolved texture and on the
    record without it. *)
Lemma similar_translate_properties m ur gr unity_prop tex table :
  textures m !! unity_prop = Some tex →
  colors m !! unity_prop = None → floats m !! unity_prop = None →
  ∀ tres_content a b,
    similar ur a b → wf (disk b) = true → absent ur (guid tex) a →
    (translate_properties m ur gr table tres_content a).1
    = (translate_properties (without_texture unity_prop m) ur gr table tres_content b).1.
Proof.
  intros Htex Hcol Hflo.
  induction table as [|[up gp] table IH]; intros acc a b Hsim Hwf Habs; [done|].
  destruct (decide (up = unity_prop)) as [->|Hne].
  - destruct (find_meta_returns a ur (guid tex)) as (v & a1 & Hfind & Hres).
    { destruct Hsim as (-> & _). done. }
    assert (v = None) as -> by by eapply absent_resolved.
    destruct (translate_property_texture m ur gr unity_prop gp tex a None a1 Htex Hfind)
      as [Hpa _].
    assert (translate_property (without_texture unity_prop m) ur gr unity_prop gp b
            = (Return "", b)) as Hpb.
    { unfold translate_property. cbn [textures colors floats without_texture].
      by rewrite lookup_delete_eq, Hcol, Hflo. }
    rewrite (translate_properties_cons _ _ _ _ _ _ _ _ _ _ (Hpa eq_refl)).
    rewrite (translate_properties_cons _ _ _ _ _ _ _ _ _ _ Hpb).
    pose proof (resolved_extends _ _ _ _ _ Hres) as Hext.
    assert (disk a1 = disk a) as Hd by by destruct Hres.
    destruct Hsim as (Hsd & Hsg & Hse).
    apply IH; [|done|by eapply absent_extends].
    split; [congruence|]. split; [destruct Hres as (_ & -> & _); done|].
    eapply extends_trans; [done|]. by rewrite <- Hsd.
  - destruct (similar_translate_property m (without_texture unity_prop m) ur gr up gp a b)
      as (piece & a' & b' & Hpa & Hpb & Hsim' & Hext & Hd); try done.
    { cbn. by rewrite lookup_delete_ne. }
    rewrite (translate_properties_cons _ _ _ _ _ _ _ _ _ _ Hpa).
    rewrite (translate_properties_cons _ _ _ _ _ _ _ _ _ _ Hpb).
    apply IH; [done| |by eapply absent_extends].
    destruct Hsim as (Hsd & _), Hsim' as (Hsd' & _). congruence.
Qed.

End SimilarFacts.

(** X14. A texture the resolver cannot find is left out, and
    nothing else changes:
    the text built for a record whose property [unity_prop] names such a
    texture (and sets no colour or scalar of that name) is the text built for
    the record without the texture. *)
Theorem unresolved_texture_is_left_out m ur gr unity_prop tex st :
  wf (disk st) = true →
  textures m !! unity_prop = Some tex →
  colors m !! unity_prop = None → floats m !! unity_prop = None →
  (find_meta_file_by_guid ur (guid tex) st).1 = Return None →
  (material_text m ur gr st).1
  = (material_text (without_texture unity_prop m) ur gr st).1.
Proof.
  intros Hwf Htex Hcol Hflo Hnone. unfold material_text.
  change (transparency (without_texture unity_prop m)) with (transparency m).
  apply (SimilarFacts.similar_translate_properties m ur gr unity_prop tex); try done.
  - split; [done|]. split; [done|]. apply SimilarFacts.extends_refl.
  - by apply SimilarFacts.absent_spec.
Qed.

Example lost_texture_is_left_out :
  (material_text Example.lost_texture "/u" "/g" Example.st0).1
  = (material_text (without_texture "_MainTex" Example.lost_texture) "/u" "/g" Example.st0).1.
Proof.
  by apply (unresolved_texture_is_left_out Example.lost_texture "/u" "/g" "_MainTex"
              {| fileID := "2800000"; guid := Example.guid_lost |}).
Defined.

(** ** The material mapping of a mesh *)

Module MappingFacts.

Lemma material_mappings_for_acc stem items : ∀ acc,
  acc = [] ∨ (∃ v, acc = [(stem, v)]) →
  material_mappings_for stem items acc =
    match last (List.filter (names_mesh stem) items) with
    | Some item => [(stem, item.2)]
    | None => acc
    end.
Proof.
  induction items as [|[mat_name mat_path] items IH]; intros acc Hacc; [done|].
  cbn [material_mappings_for List.filter].
  change (names_mesh stem (mat_name, mat_path))
    with (contains (lower mat_name) (lower stem)).
  destruct (contains (lower mat_name) (lower stem)).
  - assert (dict_set acc stem mat_path = [(stem, mat_path)]) as ->.
    { destruct Hacc as [->|[v ->]]; [done|]. simpl. by rewrite decide_True. }
    rewrite IH by eauto. rewrite last_cons.
    by destruct (last (List.filter (names_mesh stem) items)).
  - by apply IH.
Qed.

Lemma scene_text_overrides godot_fbx_path fbx_name material_mappings :
  scene_text godot_fbx_path fbx_name material_mappings
  = scene_text godot_fbx_path fbx_name [] +:+ overrides material_mappings.
Proof. unfold scene_text. cbn [overrides]. by rewrite !TextFacts.append_assoc. Qed.

End MappingFacts.

(** C10. The mapping built for a mesh is keyed by the stem of the mesh file:
    whatever the number of materials whose lower-cased name occurs in the
    lower-cased stem, it has no entry when none does and otherwise the single
    entry [stem ↦ path of the last such material], in the order of the
    materials; the scene then has exactly one override node, named after the
    mesh. *)
Theorem material_mappings_single_entry
  (stem : string) (material_paths : list (string * string))
  (godot_fbx_path fbx_name : string) :
  let matching :=
    List.filter (λ item, contains (lower item.1) (lower stem)) material_paths in
  let material_mappings := material_mappings_for stem material_paths [] in
  length material_mappings ≤ 1 ∧
  material_mappings =
    match last matching with
    | Some (_, mat_path) => [(stem, mat_path)]
    | None => []
    end ∧
  scene_text godot_fbx_path fbx_name material_mappings =
    scene_text godot_fbx_path fbx_name [] +:+
    match last matching with
    | Some (_, mat_path) =>
        "[node name=" +:+ dq +:+ stem +:+ dq +:+ " parent=" +:+ dq +:+ "." +:+ dq
        +:+ " index=" +:+ dq +:+ "0" +:+ dq +:+ "]" +:+ nl
        +:+ "material_override = ExtResource(" +:+ dq +:+ mat_path +:+ dq +:+ ")"
        +:+ nl +:+ nl
    | None => ""
    end.
Proof.
  intros matching material_mappings.
  assert (material_mappings =
            match last matching with
            | Some (_, mat_path) => [(stem, mat_path)]
            | None => []
            end) as Hmm.
  { subst material_mappings matching.
    rewrite MappingFacts.material_mappings_for_acc by auto.
    fold (names_mesh stem).
    by destruct (last _) as [[? ?]|]. }
  split; [|split; [done|]].
  - rewrite Hmm. destruct (last matching) as [[? ?]|]; simpl; lia.
  - rewrite MappingFacts.scene_text_overrides, Hmm. f_equal.
    destruct (last matching) as [[? mat_path]|]; [|done].
    cbn [overrides]. by rewrite <- !TextFacts.append_assoc, TextFacts.append_nil_r.
Qed.

(** Two materials name the mesh [WoodCrate]; the later one stays. *)
Example material_mappings_last_wins :
  material_mappings_for "WoodCrate"
    [("Wood", "res://m/Wood.tres"); ("Steel", "res://m/Steel.tres");
     ("crate", "res://m/crate.tres")] []
  = [("WoodCrate", "res://m/crate.tres")].
Proof. reflexivity. Qed.

(** ** Scene composition when the mesh is not in the target tree *)

Module SceneFacts.
Import FSFacts.

Lemma assoc_set_entry c x entries y :
  assoc y (set_entry c x entries) = if decide (y = c) then Some x else assoc y entries.
Proof.
  induction entries as [|[n z] entries IH]; simpl.
  - destruct (decide (c = y)), (decide (y = c)); congruence.
  - destruct (decide (n = c)) as [->|Hn]; simpl.
    + destruct (decide (c = y)), (decide (y = c)); congruence.
    + rewrite IH. destruct (decide (n = y)), (decide (y = c)); congruence.
Qed.

(** [os.makedirs] adds directories only: the files of the tree, and what
    they hold, stay as they were. *)
Lemma mkdirs_files comps : ∀ n n',
  mkdirs n comps = Some n' →
  ∀ p data, lookup_node n' p = Some (File data) ↔ lookup_node n p = Some (File data).
Proof.
  induction comps as [|c comps IH]; intros n n'; destruct n as [d|entries]; simpl;
    try done.
  - by intros [= <-].
  - destruct (mkdirs (default (Dir []) (assoc c entries)) comps) as [child|] eqn:Hmk;
      [|done].
    intros [= <-] p data. destruct p as [|x p]; simpl; [done|].
    rewrite assoc_set_entry. destruct (decide (x = c)) as [->|Hx]; [|done].
    rewrite (IH _ _ Hmk). destruct (assoc c entries) as [child0|]; simpl; [done|].
    destruct p; simpl; done.
Qed.

Lemma makedirs_files fs fs' p :
  makedirs fs p = Some fs' →
  sep fs' = sep fs ∧ cwd fs' = cwd fs ∧
  ∀ q data, lookup_node (tree fs') q = Some (File data)
            ↔ lookup_node (tree fs) q = Some (File data).
Proof.
  unfold makedirs. destruct (nonempty p); [|done].
  destruct (mkdirs _ _) as [t|] eqn:Hmk; [|done]. intros [= <-]. simpl.
  repeat split; by apply (mkdirs_files _ _ _ Hmk).
Qed.

Lemma first_dir_with_none fbx_name entries :
  Forall (λ e, fbx_name ∉ e.2) entries → first_dir_with fbx_name entries = None.
Proof.
  induction 1 as [|[[root dirs] files] entries Hx _ IH]; [done|]. simpl.
  by rewrite bool_decide_eq_false_2.
Qed.

End SceneFacts.

(** C8 (as amended). When the two directories of the scene are made and, in
    the tree they leave, neither the direct mapping of the mesh into the target assets
    directory exists nor any directory below the target assets directory
    lists a file of the mesh's name, [generate_godot_scene] returns absent;
    the tree it leaves is the one with the two directories, whose files are
    those of the tree before the call, so no scene file is written; and the
    meshes loop goes on with the next file. *)
Theorem mesh_not_found_writes_no_scene
  (st : state) (fbx_path : string) (material_mappings : list (string * string))
  (unity_root godot_root unity_assets_dir godot_assets_dir output_dir rel_path : string)
  (dirs : filesystem) :
  Path.relpath (sep (disk st)) (cwd (disk st)) fbx_path unity_assets_dir = Some rel_path →
  scene_dirs (disk st) fbx_path unity_assets_dir godot_assets_dir = Some dirs →
  exists_ dirs (Path.join (sep dirs) godot_assets_dir rel_path) = false →
  Forall (λ e, Path.basename (sep dirs) fbx_path ∉ e.2) (walk dirs godot_assets_dir) →
  (∃ st',
     generate_godot_scene fbx_path material_mappings unity_root godot_root
       unity_assets_dir godot_assets_dir output_dir st = (Return None, st') ∧
     disk st' = dirs ∧
     ∀ p data, lookup_node (tree (disk st')) p = Some (File data)
               ↔ lookup_node (tree (disk st)) p = Some (File data)) ∧
  (∀ material_paths rest, ∃ st'',
     convert_meshes unity_assets_dir godot_assets_dir unity_root godot_root
       material_paths (fbx_path :: rest) st
     = convert_meshes unity_assets_dir godot_assets_dir unity_root godot_root
         material_paths rest st'' ∧
     disk st'' = dirs).
Proof.
  intros Hrel Hdirs Hdirect Hsearch.
  assert (∀ st0 mm od, disk st0 = disk st →
            ∃ st', generate_godot_scene fbx_path mm unity_root godot_root
                     unity_assets_dir godot_assets_dir od st0 = (Return None, st') ∧
                   disk st' = dirs) as Hgen.
  { intros st0 mm od Hd. revert Hdirs. unfold scene_dirs. rewrite <- Hd in *. rewrite Hrel.
    destruct (makedirs (disk st0) _) as [fs1|] eqn:Hmk1; [|done].
    intros Hmk2.
    destruct (SceneFacts.makedirs_files _ _ _ Hmk1) as (Hs1 & Hc1 & _).
    destruct (SceneFacts.makedirs_files _ _ _ Hmk2) as (Hs2 & Hc2 & _).
    unfold generate_godot_scene.
    unfold bind at 1, get. cbn beta iota.
    unfold bind at 1, os_makedirs at 1. rewrite Hmk1. cbn beta iota.
    unfold bind at 1, os_relpath at 1, bind at 1, get. cbn beta iota. cbn [disk].
    rewrite Hs1, Hc1, Hrel. unfold ret at 1. cbn beta iota.
    unfold bind at 1, os_makedirs at 1. cbn [disk]. rewrite Hmk2. cbn beta iota.
    unfold bind at 1, find_godot_fbx.
    unfold bind at 1, get. cbn beta iota. cbn [disk].
    unfold bind at 1, os_relpath at 1, bind at 1, get. cbn beta iota. cbn [disk].
    rewrite Hs2, Hc2, Hs1, Hc1, Hrel. unfold ret at 1. cbn beta iota.
    rewrite Hs2, Hs1 in Hdirect, Hsearch. rewrite Hdirect.
    unfold bind at 1, print at 1. cbn beta iota.
    unfold bind at 1, os_walk. cbn beta iota. cbn [disk].
    rewrite (SceneFacts.first_dir_with_none _ _ Hsearch).
    unfold bind at 1, print at 1. cbn beta iota. unfold ret at 1. cbn beta iota.
    cbn [truthy negb]. unfold bind at 1, print at 1. cbn beta iota.
    eexists. split; [reflexivity|]. done. }
  split.
  - destruct (Hgen st material_mappings output_dir eq_refl) as (st' & Hg & Hd).
    exists st'. split; [done|]. split; [done|]. rewrite Hd.
    revert Hdirs. unfold scene_dirs. rewrite Hrel.
    destruct (makedirs (disk st) _) as [fs1|] eqn:Hmk1; [|done]. intros Hmk2 p data.
    destruct (SceneFacts.makedirs_files _ _ _ Hmk1) as (_ & _ & Hf1).
    destruct (SceneFacts.makedirs_files _ _ _ Hmk2) as (_ & _ & Hf2).
    by rewrite Hf2, Hf1.
  - intros material_paths rest. cbn [convert_meshes].
    unfold bind at 1, convert_mesh. unfold bind at 1, get. cbn beta iota.
    unfold bind at 1, print at 1. cbn beta iota.
    unfold catch, bind at 1.
    match goal with |- context [generate_godot_scene _ ?mm _ _ _ _ ?od ?st0] =>
      destruct (Hgen st0 mm od eq_refl) as (st' & Hg & Hd) end.
    rewrite Hg. cbn beta iota. cbn [truthy]. unfold ret at 1.
    cbn beta iota. eexists. split; [reflexivity|]. done.
Qed.

Lemma mesh_not_found_writes_no_scene_witness :
  (∃ st',
     generate_godot_scene "/u/Assets/Meshes/Props/Crate.fbx" [] "/u" "/g"
       "/u/Assets" "/g/assets" "/g/assets" Example.st0 = (Return None, st') ∧
     disk st' = Example.fs0_scenes ∧
     ∀ p data, lookup_node (tree (disk st')) p = Some (File data)
               ↔ lookup_node (tree (disk Example.st0)) p = Some (File data)) ∧
  (∀ material_paths rest, ∃ st'',
     convert_meshes "/u/Assets" "/g/assets" "/u" "/g"
       material_paths ("/u/Assets/Meshes/Props/Crate.fbx" :: rest) Example.st0
     = convert_meshes "/u/Assets" "/g/assets" "/u" "/g" material_paths rest st'' ∧
     disk st'' = Example.fs0_scenes).
Proof.
  apply (mesh_not_found_writes_no_scene Example.st0 "/u/Assets/Meshes/Props/Crate.fbx" []
           "/u" "/g" "/u/Assets" "/g/assets" "/g/assets" "Meshes/Props/Crate.fbx"
           Example.fs0_scenes).
  - reflexivity.
  - reflexivity.
  - reflexivity.
  - apply (bool_decide_unpack _). vm_compute. exact I.
Defined.

(** C8, the claim as stated, at two inputs for which the direct mapping of
    the mesh does not exist and no directory below the target assets
    directory lists a file of its name. Where a regular file named [Scenes]
    lies in the target assets directory the call raises, at the first
    [os.makedirs], instead of returning absent. And for a mesh path whose
    place in the target assets directory is [Scenes] itself, the directory
    the call has just made is taken for the mesh, and a scene file is
    written. *)
Lemma composition_without_mesh_not_absent :
  (exists_ Example.fs_blocked "/g/assets/Meshes/Props/Crate.fbx" = false ∧
   forallb (λ e, negb (bool_decide ("Crate.fbx" ∈ e.2)))
     (walk Example.fs_blocked "/g/assets") = true ∧
   (generate_godot_scene "/u/Assets/Meshes/Props/Crate.fbx" [] "/u" "/g"
      "/u/Assets" "/g/assets" "/g/assets" (fresh Example.fs_blocked)).1
   = Raise OSError_) ∧
  (exists_ Example.fs0 "/g/assets/Scenes" = false ∧
   forallb (λ e, negb (bool_decide ("Scenes" ∈ e.2))) (walk Example.fs0 "/g/assets") = true ∧
   (generate_godot_scene "/u/Assets/Scenes" [] "/u" "/g"
      "/u/Assets" "/g/assets" "/g/assets" Example.st0).1
   = Return (Some "/g/assets/Scenes/Scenes.tscn") ∧
   exists_ (disk (generate_godot_scene "/u/Assets/Scenes" [] "/u" "/g"
                    "/u/Assets" "/g/assets" "/g/assets" Example.st0).2)
     "/g/assets/Scenes/Scenes.tscn" = true).
Proof. vm_compute. done. Qed.

(** ** Facts about the matcher *)

Module RegexFacts.
Import Regex.

Lemma hd_cat r1 r2 s g m x :
  hd_run r1 s g = Some m → hd_run r2 m.1 m.2 = Some x → hd_run (Cat r1 r2) s g = Some x.
Proof.
  unfold hd_run. cbn [run]. destruct (run r1 s g) as [|m' l]; [done|].
  intros [= ->]. cbn [flat_map]. destruct (run r2 m.1 m.2); [done|]. by intros [= ->].
Qed.

Lemma run_cls_stops p s g : stops p s → run (Cls p) s g = [].
Proof. destruct s as [|c s]; [done|]. simpl. by intros ->. Qed.

Lemma hd_cls p c s g : p c = true → hd_run (Cls p) (c :: s) g = Some (s, g).
Proof. unfold hd_run. simpl. by intros ->. Qed.

Lemma hd_chr c s g : hd_run (Chr c) (c :: s) g = Some (s, g).
Proof. apply hd_cls. by apply bool_decide_eq_true. Qed.

Lemma run_chr_other c s g : stops (λ x, bool_decide (x = c)) s → run (Chr c) s g = [].
Proof. apply run_cls_stops. Qed.

Lemma rounds_stop step fuel s g : step s g = [] → rounds step fuel s g = [(s, g)].
Proof. destruct fuel; [done|]. simpl. by intros ->. Qed.

Lemma rounds_nonempty step fuel s g : rounds step fuel s g ≠ [].
Proof. destruct fuel; simpl; [done|]. by destruct (flat_map _ _). Qed.

(** The first answer of a repetition whose body's first answer consumed
    input: that of the rounds that follow. *)
Lemma hd_rounds_step step fuel s g m :
  head (step s g) = Some m → length m.1 < length s →
  head (rounds step (S fuel) s g) = head (rounds step fuel m.1 m.2).
Proof.
  intros Hm Hlt. cbn [rounds]. destruct (step s g) as [|m' l]; [done|].
  injection Hm as ->. cbn [flat_map]. rewrite decide_True by done.
  pose proof (rounds_nonempty step fuel m.1 m.2).
  by destruct (rounds step fuel m.1 m.2).
Qed.

(** A greedy repetition of a class takes all the characters of the class. *)
Lemma hd_star_cls p w s g :
  forallb p w = true → stops p s → hd_run (Star (Cls p)) (w ++ s) g = Some (s, g).
Proof.
  intros Hw Hs. unfold hd_run. cbn [run].
  induction w as [|c w IH]; cbn [app].
  - by rewrite rounds_stop by by apply run_cls_stops.
  - cbn [forallb] in Hw. apply andb_true_iff in Hw as [Hc Hw]. cbn [length].
    rewrite (hd_rounds_step _ _ _ _ (w ++ s, g)); [by apply IH| |simpl; lia].
    simpl. by rewrite Hc.
Qed.

Lemma hd_plus_cls p w s g :
  w ≠ [] → forallb p w = true → stops p s → hd_run (Plus (Cls p)) (w ++ s) g = Some (s, g).
Proof.
  destruct w as [|c w]; [done|]. intros _ [Hc Hw]%andb_true_iff Hs.
  eapply hd_cat; [by apply hd_cls|]. by apply hd_star_cls.
Qed.

Lemma hd_group i r s g m :
  hd_run r s g = Some m →
  hd_run (Group i r) s g
  = Some (m.1, <[i := text_of (take (length s - length m.1) s)]> m.2).
Proof. unfold hd_run. cbn [run]. destruct (run r s g); [done|]. by intros [= ->]. Qed.

Lemma hd_lit l s g : hd_run (Lit l) (String.list_ascii_of_string l ++ s) g = Some (s, g).
Proof.
  induction l as [|c l IH]; [done|]. cbn [Lit String.list_ascii_of_string app].
  eapply hd_cat; [apply hd_chr|]. apply IH.
Qed.

Lemma take_consumed (w s : chars) : take (length (w ++ s) - length s) (w ++ s) = w.
Proof.
  rewrite length_app. replace (length w + length s - length s) with (length w) by lia.
  by rewrite take_app_length.
Qed.

Lemma run_lit_miss l s g :
  starts_with (String.list_ascii_of_string l) s = false → run (Lit l) s g = [].
Proof.
  revert s. induction l as [|c l IH]; intros s; [done|].
  cbn [Lit String.list_ascii_of_string starts_with]. destruct s as [|b s]; [done|].
  intros Hs. cbn [run]. unfold Chr. cbn [run].
  destruct (decide (b = c)) as [->|Hne].
  - rewrite bool_decide_eq_true_2 in Hs |- * by done. cbn [flat_map fst snd].
    rewrite List.app_nil_r. by apply IH.
  - by rewrite bool_decide_eq_false_2.
Qed.

Lemma match_here_lit_miss l r s :
  starts_with (String.list_ascii_of_string l) s = false →
  match_here (Cat (Lit l) r) s = None.
Proof. intros Hs. unfold match_here. cbn [run]. by rewrite run_lit_miss. Qed.

Lemma match_here_hd r s m :
  hd_run r s ∅ = Some m → match_here r s = Some {| groups := m.2; after := m.1 |}.
Proof.
  unfold hd_run, match_here. destruct (run r s ∅) as [|[rest g] l]; [done|].
  by intros [= <-].
Qed.

(** Where a pattern matches does not depend on the groups recorded so
    far. *)
Lemma flat_map_fst (f : chars → captures → list (chars * captures))
  (l l' : list (chars * captures)) :
  (∀ s g g', (f s g).*1 = (f s g').*1) → l.*1 = l'.*1 →
  (flat_map (λ m, f m.1 m.2) l).*1 = (flat_map (λ m, f m.1 m.2) l').*1.
Proof.
  intros Hf. revert l'. induction l as [|[s g] l IH]; intros [|[s' g'] l']; try done.
  cbn [fmap list_fmap flat_map fst snd]. intros [= -> Hl].
  rewrite !fmap_app. f_equal; [apply Hf|by apply IH].
Qed.

Lemma rounds_fst step :
  (∀ s g g', (step s g).*1 = (step s g').*1) →
  ∀ fuel s g g', (rounds step fuel s g).*1 = (rounds step fuel s g').*1.
Proof.
  intros Hstep. induction fuel as [|fuel IH]; intros s g g'; [done|].
  cbn [rounds]. rewrite !fmap_app. f_equal.
  pose proof (Hstep s g g') as Hl. revert Hl. generalize (step s g) (step s g').
  intros l. induction l as [|[s1 g1] l IHl]; intros [|[s1' g1'] l']; try done.
  cbn [fmap list_fmap flat_map fst snd]. intros [= -> Hl].
  rewrite !fmap_app. f_equal; [|by apply IHl].
  case_decide; [apply IH|done].
Qed.

Lemma run_fst r : ∀ s g g', (run r s g).*1 = (run r s g').*1.
Proof.
  induction r as [|p|r1 IH1 r2 IH2|r IH|i r IH]; intros s g g'.
  - done.
  - destruct s as [|c s]; [done|]. simpl. by destruct (p c).
  - cbn [run]. by apply (flat_map_fst (run r2)).
  - cbn [run]. by apply rounds_fst.
  - cbn [run]. rewrite <- !list_fmap_compose. apply IH.
Qed.

Lemma run_nil r s g g' : run r s g = [] → run r s g' = [].
Proof.
  intros H. apply fmap_nil_inv with (f := fst). by rewrite (run_fst r s g' g), H.
Qed.

End RegexFacts.

(** ** The scalar block of the analyzer *)

Module AnalyzerFacts.
Import Regex RegexFacts TextFacts.

Lemma chars_of_app (x y : string) : chars_of (x +:+ y) = chars_of x ++ chars_of y.
Proof. induction x as [|c x IH]; sapp; simpl; [done | by rewrite IH]. Qed.

Lemma text_of_chars_of (x : string) : text_of (chars_of x) = x.
Proof. apply String.string_of_list_ascii_of_string. Qed.

Lemma chars_of_text_of (x : chars) : chars_of (text_of x) = x.
Proof. apply String.list_ascii_of_string_of_list_ascii. Qed.

Lemma digit_or_dot_not_space c : digit_or_dot c = true → is_space c = false.
Proof. destruct c as [[] [] [] [] [] [] [] []]; vm_compute; congruence. Qed.

Lemma space_not_digit_or_dot c : is_space c = true → digit_or_dot c = false.
Proof. destruct c as [[] [] [] [] [] [] [] []]; vm_compute; congruence. Qed.

Lemma space_not_dash c : is_space c = true → bool_decide (c = "-"%char) = false.
Proof. destruct c as [[] [] [] [] [] [] [] []]; vm_compute; congruence. Qed.

Lemma stops_space_number num rest :
  num ≠ [] → forallb digit_or_dot num = true → stops is_space (num ++ rest).
Proof.
  destruct num as [|c num]; [done|]. intros _ [Hc _]%andb_true_iff.
  by apply digit_or_dot_not_space.
Qed.

Lemma stops_number_trailing tr rest :
  forallb is_space tr = true → stops digit_or_dot rest → stops digit_or_dot (tr ++ rest).
Proof.
  destruct tr as [|c tr]; [done|]. intros [Hc _]%andb_true_iff _.
  by apply space_not_digit_or_dot.
Qed.

(** One round of the floats block takes one line, white space included. *)
Lemma hd_float_item ad pn ac num tr rest g :
  forallb is_space ad = true → pn ≠ [] → forallb is_word pn = true →
  forallb is_space ac = true → num ≠ [] → forallb digit_or_dot num = true →
  forallb is_space tr = true → stops is_space rest → stops digit_or_dot rest →
  hd_run float_item
    ("-"%char :: ad ++ "_"%char :: pn ++ ":"%char :: ac ++ num ++ tr ++ rest) g
  = Some (rest, g).
Proof.
  intros Had Hpn Hpw Hac Hnum Hnd Htr Hrs Hrd.
  unfold float_item, spaces, space, word, number.
  eapply hd_cat; [by apply (hd_star_cls is_space [])|]. cbn [fst snd].
  eapply hd_cat; [apply hd_chr|]. cbn [fst snd].
  eapply hd_cat; [by apply hd_star_cls|]. cbn [fst snd].
  eapply hd_cat; [apply hd_chr|]. cbn [fst snd].
  eapply hd_cat; [by apply hd_plus_cls|]. cbn [fst snd].
  eapply hd_cat; [apply hd_chr|]. cbn [fst snd].
  eapply hd_cat; [apply hd_star_cls; [done|by apply stops_space_number]|]. cbn [fst snd].
  eapply hd_cat; [apply hd_plus_cls; [done|done|by apply stops_number_trailing]|].
  cbn [fst snd]. by apply hd_star_cls.
Qed.

Lemma hd_float_entry ad pn ac num rest :
  forallb is_space ad = true → pn ≠ [] → forallb is_word pn = true →
  forallb is_space ac = true → num ≠ [] → forallb digit_or_dot num = true →
  stops digit_or_dot rest →
  hd_run float_entry
    ("-"%char :: ad ++ "_"%char :: pn ++ ":"%char :: ac ++ num ++ rest) ∅
  = Some (rest, <[2 := text_of num]> (<[1 := text_of ("_"%char :: pn)]> ∅)).
Proof.
  intros Had Hpn Hpw Hac Hnum Hnd Hrd.
  unfold float_entry, spaces, space, word, number.
  eapply hd_cat; [apply hd_chr|]. cbn [fst snd].
  eapply hd_cat; [by apply hd_star_cls|]. cbn [fst snd].
  eapply hd_cat.
  { apply hd_group. eapply hd_cat; [apply hd_chr|]. by apply hd_plus_cls. }
  cbn [fst snd].
  change ("_"%char :: pn ++ ":"%char :: ac ++ num ++ rest)
    with (("_"%char :: pn) ++ ":"%char :: ac ++ num ++ rest).
  rewrite take_consumed.
  eapply hd_cat; [apply hd_chr|]. cbn [fst snd].
  eapply hd_cat; [apply hd_star_cls; [done|by apply stops_space_number]|]. cbn [fst snd].
  erewrite hd_group; [|by apply hd_plus_cls]. cbn [fst snd].
  by rewrite take_consumed.
Qed.

Lemma chars_of_render_line l : chars_of (Spec.render_line l) = line_chars l.
Proof.
  unfold Spec.render_line, line_chars. rewrite !chars_of_app. cbn.
  by rewrite <- ?List.app_assoc.
Qed.

Lemma chars_of_render_lines ls : chars_of (Spec.render_lines ls) = items ls.
Proof.
  unfold Spec.render_lines, items. induction ls as [|l ls IH]; [done|].
  cbn [map concat_all concat]. by rewrite chars_of_app, chars_of_render_line, IH.
Qed.

Lemma nonempty_chars (x : string) : nonempty x = true → chars_of x ≠ [].
Proof. by destruct x. Qed.

Lemma line_ok_parts l : Spec.line_ok l = true → line_parts_ok l.
Proof.
  unfold Spec.line_ok, Spec.all_chars. rewrite !andb_true_iff.
  intros [[[[[[? ?] ?] ?] ?] ?] ?]. split; auto using nonempty_chars.
Qed.

Lemma rest_ok_items ls post :
  Spec.stops_block post = true → rest_ok (items ls ++ chars_of post).
Proof.
  intros [Hpost _]%andb_true_iff. destruct ls as [|l ls]; [|by split].
  cbn. destruct post as [|c post]; [by split|]. cbn in *.
  apply andb_true_iff in Hpost as [Hs Hd].
  split; by apply negb_true_iff.
Qed.

Lemma rest_ok_items_end ls : rest_ok (items ls).
Proof. destruct ls as [|l ls]; by split. Qed.

Lemma hd_float_item_line l rest g :
  Spec.line_ok l = true → rest_ok rest →
  hd_run float_item (line_chars l ++ rest) g = Some (rest, g).
Proof.
  intros [] %line_ok_parts [Hs Hd]. unfold line_chars.
  repeat (rewrite <- ?List.app_assoc; cbn [app]).
  by apply hd_float_item.
Qed.

Lemma run_float_item_stop post g :
  Spec.stops_block post = true → run float_item (chars_of post) g = [].
Proof.
  intros [_ Hpost]%andb_true_iff. apply (run_nil _ _ ∅).
  by destruct (run float_item (chars_of post) ∅).
Qed.

Lemma run_float_item_ends post g :
  Spec.ends_block post = true → run float_item (chars_of post) g = [].
Proof.
  intros Hpost. unfold float_item, spaces, space. cbn [run].
  assert (stops is_space (chars_of post) ∧
          stops (λ x, bool_decide (x = "-"%char)) (chars_of post)) as [Hs Hd].
  { destruct post as [|c post]; [done|]. cbn in *.
    apply andb_true_iff in Hpost as [[Hs Hd]%andb_true_iff _].
    split; by apply negb_true_iff. }
  rewrite rounds_stop by by apply run_cls_stops. cbn [flat_map fst snd].
  unfold Chr. by rewrite run_cls_stops.
Qed.

(** A text that starts with no white space, dash, digit or dot stops the
    block. *)
Lemma ends_block_stops post : Spec.ends_block post = true → Spec.stops_block post = true.
Proof.
  intros Hpost. unfold Spec.stops_block.
  rewrite (run_float_item_ends post ∅ Hpost), andb_true_r.
  destruct post as [|c post]; [done|]. cbn in Hpost |- *.
  apply andb_true_iff in Hpost as [[Hs _]%andb_true_iff Hd]. by rewrite Hs, Hd.
Qed.

Lemma line_chars_length l : 0 < length (line_chars l).
Proof. unfold line_chars. simpl. lia. Qed.

Lemma fuel_after_round (a b fuel : nat) : a + b ≤ S fuel → 0 < a → b ≤ fuel.
Proof. lia. Qed.

(** The repetition of the floats block takes all the lines. *)
Lemma hd_rounds_items post ls : ∀ fuel g,
  Forall (λ l, Spec.line_ok l = true) ls → Spec.stops_block post = true →
  length (items ls ++ chars_of post) ≤ fuel →
  head (rounds (run float_item) fuel (items ls ++ chars_of post) g)
  = Some (chars_of post, g).
Proof.
  induction ls as [|l ls IH]; intros fuel g Hls Hpost Hfuel.
  - cbn. by rewrite rounds_stop by by apply run_float_item_stop.
  - apply Forall_cons in Hls as [Hl Hls].
    pose proof (line_chars_length l) as Hlen.
    unfold items in *. cbn [map concat] in *. rewrite <- List.app_assoc in *.
    rewrite length_app in Hfuel.
    destruct fuel as [|fuel]; [lia|].
    rewrite (hd_rounds_step _ _ _ _ (concat (map line_chars ls) ++ chars_of post, g)).
    + apply IH; [done|done|]. cbn [fst]. exact (fuel_after_round _ _ _ Hfuel Hlen).
    + apply hd_float_item_line; [done|]. by apply rest_ok_items.
    + cbn [fst]. rewrite !length_app. lia.
Qed.

(** The pattern of the block, at the marker: group 1 is the lines. *)
Lemma match_here_float_pattern gap ls post :
  Spec.all_chars is_space gap = true → ls ≠ [] →
  Forall (λ l, Spec.line_ok l = true) ls → Spec.stops_block post = true →
  match_here float_pattern
    (chars_of "m_Floats:" ++ chars_of gap ++ items ls ++ chars_of post)
  = Some {| groups := <[1 := text_of (items ls)]> ∅; after := chars_of post |}.
Proof.
  intros Hgap Hne Hls Hpost.
  rewrite (match_here_hd _ _ (chars_of post, <[1 := text_of (items ls)]> ∅)); [done|].
  unfold float_pattern, spaces, space.
  eapply hd_cat; [apply hd_lit|]. cbn [fst snd].
  eapply hd_cat.
  { apply hd_star_cls; [done|]. by destruct ls. }
  cbn [fst snd]. erewrite hd_group; cycle 1.
  { destruct ls as [|l ls]; [done|]. apply Forall_cons in Hls as [Hl Hls].
    unfold Plus. eapply hd_cat.
    - unfold items. cbn [map concat]. rewrite <- List.app_assoc.
      apply hd_float_item_line; [done|]. by apply rest_ok_items.
    - cbn [fst snd]. unfold hd_run. cbn [run]. by apply hd_rounds_items. }
  cbn [fst snd]. by rewrite take_consumed.
Qed.

Lemma startswith_chars (p s : string) :
  startswith p s = starts_with (chars_of p) (chars_of s).
Proof.
  revert s. induction p as [|a p IH]; intros s; [done|].
  destruct s as [|b s]; [done|]. simpl. rewrite IH.
  by destruct (decide (a = b)); [rewrite bool_decide_eq_true_2|rewrite bool_decide_eq_false_2].
Qed.

(** A pattern that begins with a literal is not found in a text that does
    not hold the literal. *)
Lemma search_lit_absent l r (content : string) :
  contains l content = false → search (Cat (Lit l) r) (chars_of content) = None.
Proof.
  induction content as [|c content IH]; simpl.
  - rewrite orb_false_r, startswith_chars. intros Hs.
    by rewrite match_here_lit_miss.
  - intros [Hs Hc]%orb_false_iff.
    rewrite match_here_lit_miss; [by apply IH|].
    by rewrite startswith_chars in Hs.
Qed.

(** The search passes over a prefix in which the literal does not start. *)
Lemma search_lit_skip l r (pre : string) (s : chars) :
  (∀ a b, pre = a +:+ b → b ≠ "" → starts_with (chars_of l) (chars_of b ++ s) = false) →
  search (Cat (Lit l) r) (chars_of pre ++ s) = search (Cat (Lit l) r) s.
Proof.
  induction pre as [|c pre IH]; intros Hpre; [done|].
  cbn [chars_of String.list_ascii_of_string app search].
  rewrite match_here_lit_miss.
  - apply IH. intros a b -> Hb. apply (Hpre (String c a) b); done.
  - apply (Hpre "" (String c pre)); done.
Qed.

(** The marker of the floats block cannot start inside a text that does not
    hold it, even when the marker follows that text. *)
Lemma floats_marker_border (b : string) (s : chars) :
  b ≠ "" → startswith "m_Floats:" b = false →
  starts_with (chars_of "m_Floats:") (chars_of b ++ chars_of "m_Floats:" ++ s) = false.
Proof.
  intros Hb Hs.
  destruct b as [|c1 b]; [done|].
  repeat match goal with
         | b : string |- _ =>
             destruct b as [|? b]; cbn in Hs |- *;
             repeat (case_decide; subst; cbn in Hs |- *; try done);
             repeat (case_bool_decide; subst; cbn in Hs |- *; try done)
         end.
Qed.

Lemma contains_suffix l a b : contains l (a +:+ b) = false → startswith l b = false.
Proof.
  intros Hc. destruct (contains l b) eqn:Hb.
  - by rewrite (contains_app_r l a b Hb) in Hc.
  - destruct b; simpl in Hb; by apply orb_false_iff in Hb as [? _].
Qed.

Lemma search_float_pattern pre gap ls post :
  contains "m_Floats:" pre = false →
  Spec.all_chars is_space gap = true → ls ≠ [] →
  Forall (λ l, Spec.line_ok l = true) ls → Spec.stops_block post = true →
  search float_pattern
    (chars_of (pre +:+ "m_Floats:" +:+ gap +:+ Spec.render_lines ls +:+ post))
  = Some {| groups := <[1 := text_of (items ls)]> ∅; after := chars_of post |}.
Proof.
  intros Hpre Hgap Hne Hls Hpost.
  rewrite !chars_of_app, chars_of_render_lines.
  unfold float_pattern at 1. rewrite search_lit_skip.
  - fold float_pattern.
    assert (∀ s, search float_pattern s
                 = match match_here float_pattern s with
                   | Some m => Some m
                   | None => match s with [] => None | _ :: s' => search float_pattern s' end
                   end) as -> by by intros [|? ?].
    by rewrite match_here_float_pattern.
  - intros a b -> Hb. apply floats_marker_border; [done|]. by eapply contains_suffix.
Qed.

(** The entry pattern does not start at white space. *)
Lemma search_float_entry_skip ws s :
  forallb is_space ws = true → search float_entry (ws ++ s) = search float_entry s.
Proof.
  induction ws as [|c ws IH]; [done|]. intros [Hc Hws]%andb_true_iff.
  cbn [app search]. rewrite IH by done.
  assert (match_here float_entry (c :: ws ++ s) = None) as ->; [|done].
  unfold match_here, float_entry. cbn [run]. unfold Chr. cbn [run].
  by rewrite (space_not_dash c Hc).
Qed.

Lemma search_float_entry_end : search float_entry [] = None.
Proof. reflexivity. Qed.

Lemma search_float_entry_line l rest :
  Spec.line_ok l = true → rest_ok rest →
  search float_entry (line_chars l ++ rest)
  = Some {| groups := <[2 := Spec.number l]> (<[1 := "_" +:+ Spec.prop_name l]> ∅);
            after := chars_of (Spec.trailing l) ++ rest |}.
Proof.
  intros Hl%line_ok_parts [Hs Hd]. destruct Hl.
  unfold line_chars. repeat (rewrite <- ?List.app_assoc; cbn [app]).
  cbn [search].
  erewrite match_here_hd; cycle 1.
  { apply hd_float_entry; try done. by apply stops_number_trailing. }
  cbn [fst snd].
  change (text_of ("_"%char :: chars_of (Spec.prop_name l)))
    with (String "_" (text_of (chars_of (Spec.prop_name l)))).
  by rewrite !text_of_chars_of.
Qed.

Lemma line_chars_trailing l :
  length (chars_of (Spec.trailing l)) < length (line_chars l).
Proof.
  unfold line_chars. do 6 (cbn [length]; rewrite ?length_app). lia.
Qed.

Lemma finditer_float_entry ls : ∀ ws fuel,
  forallb is_space ws = true → Forall (λ l, Spec.line_ok l = true) ls →
  length (ws ++ items ls) < fuel →
  Forall2 entry_of (finditer_fuel fuel float_entry (ws ++ items ls)) ls.
Proof.
  induction ls as [|l ls IH]; intros ws fuel Hws Hls Hfuel.
  - destruct fuel as [|fuel]; [lia|]. cbn [finditer_fuel items map concat].
    rewrite search_float_entry_skip by done. cbn. constructor.
  - apply Forall_cons in Hls as [Hl Hls].
    destruct fuel as [|fuel]; [lia|]. cbn [finditer_fuel].
    rewrite search_float_entry_skip by done.
    unfold items. cbn [map concat]. fold (items ls).
    rewrite search_float_entry_line; [|done|apply rest_ok_items_end].
    cbn [after]. pose proof (line_chars_length l) as Hlen.
    rewrite decide_True.
    2:{ pose proof (line_chars_trailing l). rewrite !length_app. lia. }
    constructor.
    + split; reflexivity.
    + apply IH; [by apply line_ok_parts in Hl as []|done|].
      pose proof (line_chars_trailing l). revert Hfuel.
      unfold items. cbn [map concat]. rewrite !length_app. lia.
Qed.

Lemma collect_floats_entries ms ls : ∀ acc,
  Forall2 entry_of ms ls → collect_floats ms acc = Spec.floats_of_lines ls acc.
Proof.
  intros acc H. revert acc. induction H as [|m l ms ls [H1 H2] _ IH]; intros acc; [done|].
  cbn [collect_floats Spec.floats_of_lines]. rewrite H1, H2.
  destruct (PyFloat.float_of_str (Spec.number l)); [apply IH|done].
Qed.

Lemma parse_floats_lines pre gap ls post :
  contains "m_Floats:" pre = false →
  Spec.all_chars is_space gap = true → ls ≠ [] →
  forallb Spec.line_ok ls = true → Spec.stops_block post = true →
  parse_floats (pre +:+ "m_Floats:" +:+ gap +:+ Spec.render_lines ls +:+ post)
  = Spec.floats_of_lines ls ∅.
Proof.
  intros Hpre Hgap Hne Hls Hpost.
  assert (Forall (λ l, Spec.line_ok l = true) ls) as Hls'.
  { apply Forall_forall. intros l Hl. rewrite forallb_forall in Hls.
    by apply Hls, list_elem_of_In. }
  unfold parse_floats. rewrite search_float_pattern by done.
  change (group {| groups := <[1 := text_of (items ls)]> ∅; after := chars_of post |} 1)
    with (text_of (items ls)).
  rewrite chars_of_text_of. apply collect_floats_entries.
  unfold finditer. apply (finditer_float_entry ls []); [done|done|]. simpl. lia.
Qed.

Lemma parse_floats_block pre gap ls post :
  contains "m_Floats:" pre = false →
  Spec.all_chars is_space gap = true → ls ≠ [] →
  forallb Spec.line_ok ls = true → Spec.ends_block post = true →
  parse_floats (pre +:+ "m_Floats:" +:+ gap +:+ Spec.render_lines ls +:+ post)
  = Spec.floats_of_lines ls ∅.
Proof.
  intros Hpre Hgap Hne Hls Hpost. apply parse_floats_lines; try done.
  by apply ends_block_stops.
Qed.

Lemma parse_floats_absent content :
  contains "m_Floats:" content = false → parse_floats content = Return ∅.
Proof.
  intros Hc. unfold parse_floats, float_pattern. by rewrite search_lit_absent.
Qed.

Lemma analyze_content_floats mat_path content m :
  analyze_content mat_path content = Return m → parse_floats content = Return (floats m).
Proof.
  unfold analyze_content. destruct (parse_floats content) as [fl|]; [|done].
  destruct (parse_colors content); [|done]. by intros [= <-].
Qed.

End AnalyzerFacts.

(** The meshes loop never stops on a mesh: whatever composing its scene does,
    the loop body returns. *)
Lemma convert_mesh_returns input_dir output_dir ur gr material_paths fbx_file st :
  ∃ st', convert_mesh input_dir output_dir ur gr material_paths fbx_file st
         = (Return (), st').
Proof.
  unfold convert_mesh. unfold bind at 1, get. cbn beta iota.
  unfold bind at 1, print at 1. cbn beta iota. unfold catch, bind at 1.
  destruct (generate_godot_scene _ _ _ _ _ _ _ _) as [[scene_path|e] st1].
  - destruct (truthy scene_path); by eexists.
  - by eexists.
Qed.

(** * Further properties of the code *)

Import TextFacts Totality LocatorFacts.

Module ResolverFacts.

Lemma inspect_meta_some fs guid root file asset_path :
  inspect_meta fs guid root file = Return (Some asset_path) →
  endswith ".meta" file = true ∧
  (∃ content, read_utf8 fs (Path.join (sep fs) root file) = ReadOk content ∧
              contains ("guid: " +:+ guid) content = true) ∧
  asset_path = drop_end 5 (Path.join (sep fs) root file) ∧
  exists_ fs asset_path = true.
Proof.
  unfold inspect_meta. destruct (endswith ".meta" file); [|done].
  destruct (read_utf8 fs _) as [content| |]; try done.
  destruct (contains _ content) eqn:Hc; [|done].
  destruct (exists_ fs _) eqn:He; [|done].
  intros [= <-]. repeat split; try done. by exists content.
Qed.

Lemma inspect_meta_none fs guid root file content :
  inspect_meta fs guid root file = Return None →
  endswith ".meta" file = true →
  read_utf8 fs (Path.join (sep fs) root file) = ReadOk content →
  contains ("guid: " +:+ guid) content = true →
  exists_ fs (drop_end 5 (Path.join (sep fs) root file)) = false.
Proof.
  unfold inspect_meta. intros H He Hr Hc. rewrite He, Hr, Hc in H.
  by destruct (exists_ fs _).
Qed.

Lemma scan_files_some fs guid root files asset_path :
  scan_files fs guid root files = Return (Some asset_path) →
  ∃ file, file ∈ files ∧ inspect_meta fs guid root file = Return (Some asset_path).
Proof.
  induction files as [|file rest IH]; [done|]. cbn [scan_files].
  destruct (inspect_meta fs guid root file) as [[p|]|e] eqn:Hi.
  - intros [= ->]. exists file. split; [apply elem_of_cons; by left|done].
  - intros H. destruct (IH H) as (f & Hf & Hif). exists f.
    split; [apply elem_of_cons; by right|done].
  - done.
Qed.

Lemma scan_files_none fs guid root files file :
  scan_files fs guid root files = Return None → file ∈ files →
  inspect_meta fs guid root file = Return None.
Proof.
  induction files as [|f rest IH]; [by intros _ ?%elem_of_nil|]. cbn [scan_files].
  destruct (inspect_meta fs guid root f) as [[p|]|e] eqn:Hi; try done.
  intros H [->|Hin]%elem_of_cons; [done|]. by apply IH.
Qed.

Lemma scan_walk_some fs guid entries asset_path :
  scan_walk fs guid entries = Return (Some asset_path) →
  ∃ x, x ∈ walk_files entries ∧ inspect_meta fs guid x.1 x.2 = Return (Some asset_path).
Proof.
  induction entries as [|[[root dirs] files] rest IH]; [done|]. cbn [scan_walk].
  unfold walk_files. cbn [flat_map]. fold (walk_files rest).
  destruct (scan_files fs guid root files) as [[p|]|e] eqn:Hs.
  - intros [= ->]. destruct (scan_files_some _ _ _ _ _ Hs) as (file & Hin & Hi).
    exists (root, file). split; [|done]. apply elem_of_app. left.
    apply list_elem_of_fmap. by exists file.
  - intros H. destruct (IH H) as (x & Hx & Hi). exists x. split; [|done].
    apply elem_of_app. by right.
  - done.
Qed.

Lemma scan_walk_none fs guid entries x :
  scan_walk fs guid entries = Return None → x ∈ walk_files entries →
  inspect_meta fs guid x.1 x.2 = Return None.
Proof.
  induction entries as [|[[root dirs] files] rest IH]; [by intros _ ?%elem_of_nil|].
  cbn [scan_walk]. unfold walk_files. cbn [flat_map]. fold (walk_files rest).
  destruct (scan_files fs guid root files) as [[p|]|e] eqn:Hs; try done.
  intros H [Hin|Hin]%elem_of_app; [|by apply IH].
  apply list_elem_of_fmap in Hin as (file & -> & Hin). cbn.
  by eapply scan_files_none.
Qed.

Lemma find_meta_miss st project_root guid v st' :
  unity_texture_cache st !! cache_key project_root guid = None →
  find_meta_file_by_guid project_root guid st = (Return v, st') →
  scan_walk (disk st) guid (walk (disk st) project_root) = Return v.
Proof.
  intros Hmiss. unfold find_meta_file_by_guid, bind, get. cbn. rewrite Hmiss. cbn.
  destruct (scan_walk _ _ _) as [[p|]|e]; cbn; by intros [= <- _].
Qed.

End ResolverFacts.

(** X1. Whatever a call of [find_meta_file_by_guid] does, it leaves the
    disk and the locator's cache as they were. A call that returns holds
    its answer in its own cache, which is as it was (a hit) or has the one
    entry of this call added; a call that raises (a sidecar that cannot be
    opened) has stored nothing. *)
Theorem find_meta_file_by_guid_frame (st st' : state) (project_root guid : string)
  (o : outcome (option string)) :
  find_meta_file_by_guid project_root guid st = (o, st') →
  disk st' = disk st ∧
  godot_resource_cache st' = godot_resource_cache st ∧
  match o with
  | Return v =>
      unity_texture_cache st' !! cache_key project_root guid = Some v ∧
      (unity_texture_cache st' = unity_texture_cache st
       ∨ unity_texture_cache st'
         = <[cache_key project_root guid := v]> (unity_texture_cache st))
  | Raise _ => unity_texture_cache st' = unity_texture_cache st
  end.
Proof.
  unfold find_meta_file_by_guid, bind, get. cbn.
  destruct (unity_texture_cache st !! cache_key project_root guid) as [cached|] eqn:Hc.
  { intros [= <- <-]. repeat split; [done|by left]. }
  cbn. destruct (scan_walk _ _ _) as [[p|]|e]; cbn; intros [= <- <-]; cbn;
    repeat split; try (by rewrite lookup_insert_eq); by right.
Qed.

Lemma find_meta_file_by_guid_frame_witness :
  disk (find_meta_file_by_guid "/u" Example.guid_wood Example.st0).2 = disk Example.st0 ∧
  godot_resource_cache (find_meta_file_by_guid "/u" Example.guid_wood Example.st0).2
  = godot_resource_cache Example.st0 ∧
  unity_texture_cache (find_meta_file_by_guid "/u" Example.guid_wood Example.st0).2
    !! cache_key "/u" Example.guid_wood = Some (Some "/u/Assets/Textures/Wood.psd") ∧
  (unity_texture_cache (find_meta_file_by_guid "/u" Example.guid_wood Example.st0).2
   = unity_texture_cache Example.st0
   ∨ unity_texture_cache (find_meta_file_by_guid "/u" Example.guid_wood Example.st0).2
     = <[cache_key "/u" Example.guid_wood := Some "/u/Assets/Textures/Wood.psd"]>
         (unity_texture_cache Example.st0)).
Proof.
  exact (find_meta_file_by_guid_frame Example.st0 _ "/u" Example.guid_wood
           (Return (Some "/u/Assets/Textures/Wood.psd")) eq_refl).
Defined.

(** X2. An asset path the resolver computes (a cache miss that returns a
    path) is sound: the walk of the project root lists a file ending in
    [.meta] that reads as UTF-8 text containing [guid: <guid>]; the answer is
    that file's path without its last five characters, and that path
    exists. *)
Theorem find_meta_file_by_guid_sound
  (st st' : state) (project_root guid asset_path : string) :
  unity_texture_cache st !! cache_key project_root guid = None →
  find_meta_file_by_guid project_root guid st = (Return (Some asset_path), st') →
  ∃ root file content,
    (root, file) ∈ walk_files (walk (disk st) project_root) ∧
    endswith ".meta" file = true ∧
    read_utf8 (disk st) (Path.join (sep (disk st)) root file) = ReadOk content ∧
    contains ("guid: " +:+ guid) content = true ∧
    asset_path = drop_end 5 (Path.join (sep (disk st)) root file) ∧
    exists_ (disk st) asset_path = true.
Proof.
  intros Hmiss Hfind.
  pose proof (ResolverFacts.find_meta_miss _ _ _ _ _ Hmiss Hfind) as Hscan.
  destruct (ResolverFacts.scan_walk_some _ _ _ _ Hscan) as ([root file] & Hin & Hi).
  destruct (ResolverFacts.inspect_meta_some _ _ _ _ _ Hi) as (He & (content & Hr & Hc) & Hp & Hx).
  by exists root, file, content.
Qed.

Lemma find_meta_file_by_guid_sound_witness :
  ∃ root file content,
    (root, file) ∈ walk_files (walk (disk Example.st0) "/u") ∧
    endswith ".meta" file = true ∧
    read_utf8 (disk Example.st0) (Path.join (sep (disk Example.st0)) root file)
    = ReadOk content ∧
    contains ("guid: " +:+ Example.guid_wood) content = true ∧
    "/u/Assets/Textures/Wood.psd"
    = drop_end 5 (Path.join (sep (disk Example.st0)) root file) ∧
    exists_ (disk Example.st0) "/u/Assets/Textures/Wood.psd" = true.
Proof.
  exact (find_meta_file_by_guid_sound Example.st0
           (find_meta_file_by_guid "/u" Example.guid_wood Example.st0).2
           "/u" Example.guid_wood "/u/Assets/Textures/Wood.psd" eq_refl eq_refl).
Defined.

(** X3. When the resolver computes "absent" (a cache miss that returns
    [None]), no sidecar under the project root declares the GUID for an
    existing asset: every walked [.meta] file that reads as UTF-8 text
    containing [guid: <guid>] has no asset beside it. *)
Theorem find_meta_file_by_guid_complete
  (st st' : state) (project_root guid root file content : string) :
  unity_texture_cache st !! cache_key project_root guid = None →
  find_meta_file_by_guid project_root guid st = (Return None, st') →
  (root, file) ∈ walk_files (walk (disk st) project_root) →
  endswith ".meta" file = true →
  read_utf8 (disk st) (Path.join (sep (disk st)) root file) = ReadOk content →
  contains ("guid: " +:+ guid) content = true →
  exists_ (disk st) (drop_end 5 (Path.join (sep (disk st)) root file)) = false.
Proof.
  intros Hmiss Hfind Hin He Hr Hc.
  pose proof (ResolverFacts.find_meta_miss _ _ _ _ _ Hmiss Hfind) as Hscan.
  pose proof (ResolverFacts.scan_walk_none _ _ _ _ Hscan Hin) as Hi.
  by eapply ResolverFacts.inspect_meta_none.
Qed.

Lemma find_meta_file_by_guid_complete_witness :
  exists_ Example.fs_orphan (drop_end 5 (Path.join (sep Example.fs_orphan) "/u" "Gone.png.meta")) = false.
Proof.
  apply (find_meta_file_by_guid_complete (fresh Example.fs_orphan)
           (find_meta_file_by_guid "/u" Example.guid_lost (fresh Example.fs_orphan)).2
           "/u" Example.guid_lost "/u" "Gone.png.meta" ("guid: " +:+ Example.guid_lost));
    try reflexivity.
  vm_compute. apply elem_of_cons. by left.
Defined.

Module ResPathFacts.

Lemma contains_char_cons (c x : ascii) (s : string) :
  contains (String c "") (String x s) = bool_decide (c = x) || contains (String c "") s.
Proof.
  cbn [contains startswith]. destruct (decide (c = x)) as [->|Hne].
  - rewrite bool_decide_true by done. by destruct s.
  - by rewrite bool_decide_false by done.
Qed.

Lemma contains_char_app (c : ascii) (a b : string) :
  contains (String c "") (a +:+ b) = contains (String c "") a || contains (String c "") b.
Proof.
  induction a as [|x a IH].
  - rewrite append_nil_l. by destruct b.
  - rewrite append_cons, !contains_char_cons, IH. by rewrite orb_assoc.
Qed.

Lemma contains_char_nil (c : ascii) : contains (String c "") "" = false.
Proof. reflexivity. Qed.

Lemma replace_char_gone (a b : ascii) (s : string) :
  a ≠ b → contains (String a "") (replace_char a b s) = false.
Proof.
  intros Hab. induction s as [|x s IH]; [done|].
  cbn [replace_char]. rewrite contains_char_cons, IH, orb_false_r.
  destruct (decide (x = a)); apply bool_decide_false; congruence.
Qed.

Lemma res_path_shape rel :
  startswith "res://" (res_path rel) = true ∧
  contains (String backslash "") (res_path rel) = false.
Proof.
  unfold res_path. split; [done|].
  rewrite contains_char_app, replace_char_gone by done. done.
Qed.

Lemma locate_res_path exts : ∀ top base st st' p,
  locate top base exts st = (Return (Some p), st') → ∃ rel, p = res_path rel.
Proof.
  induction exts as [|ext exts IH]; intros top base st st' p; [done|].
  rewrite SimilarFacts.locate_cons.
  destruct (first_match base ext (walk (disk st) top)) as [[root file]|]; [|apply IH].
  unfold godot_path_of.
  destruct (Path.relpath _ _ _ _) as [rel|]; [|done].
  intros [= <- _]. by exists rel.
Qed.

Lemma locate_walks exts : ∀ top base st,
  walks st ≤ walks (locate top base exts st).2 ≤ walks st + length exts.
Proof.
  induction exts as [|ext exts IH]; intros top base st; [cbn; lia|].
  rewrite SimilarFacts.locate_cons.
  destruct (first_match base ext (walk (disk st) top)) as [[root file]|].
  - destruct (godot_path_of (disk st) top root file); cbn; lia.
  - specialize (IH top base (os_walk top st).2). cbn in IH |- *. lia.
Qed.

Lemma extensions_length s p : length (extensions s p) ≤ 2.
Proof. unfold extensions. destruct (endswith _ _); cbn; lia. Qed.

Lemma find_godot_resource_miss_eq st gr p :
  nonempty p = true → godot_resource_cache st !! cache_key gr p = None →
  find_godot_resource gr p st
  = match locate gr (base_name (sep (disk st)) p) (extensions (sep (disk st)) p) st with
    | (Return v, st1) => (Return v, (set_godot_resource_cache (cache_key gr p) v st1).2)
    | (Raise e, st1) => (Raise e, st1)
    end.
Proof.
  intros Hne Hmiss. unfold find_godot_resource. rewrite Hne. cbn [negb].
  unfold bind at 1, get. cbn beta iota. rewrite Hmiss. unfold bind at 1.
  by destruct (locate _ _ _ st) as [[v|e] st1].
Qed.

End ResPathFacts.

(** X4. [find_godot_resource] is memoized: a call returns, and a second call
    with the same arguments returns the same answer and leaves the state as
    it is, so it neither walks the tree nor prints. *)
Theorem find_godot_resource_memoized (st : state) (godot_project_root unity_path : string) :
  ∃ v st',
    find_godot_resource godot_project_root unity_path st = (Return v, st') ∧
    find_godot_resource godot_project_root unity_path st' = (Return v, st') ∧
    disk st' = disk st ∧ unity_texture_cache st' = unity_texture_cache st.
Proof.
  destruct (nonempty unity_path) eqn:Hne.
  2:{ exists None, st. by rewrite !SimilarFacts.find_godot_resource_empty. }
  destruct (godot_resource_cache st !! cache_key godot_project_root unity_path)
    as [v|] eqn:Hc.
  { exists v, st. by rewrite !(find_godot_resource_cached st _ _ v). }
  destruct (locate_returns (extensions (sep (disk st)) unity_path) st godot_project_root
              (base_name (sep (disk st)) unity_path)) as (v & st1 & Hl & Hu & Hg & Hd & Hs).
  destruct (SimilarFacts.find_godot_resource_miss st godot_project_root unity_path v st1
              Hne Hc Hl) as (st' & Hf & Hg' & Hu' & Hd').
  exists v, st'. split; [done|]. split; [|split; congruence].
  apply find_godot_resource_cached; [done|]. rewrite Hg'. apply lookup_insert_eq.
Qed.

(** X5. A locator call walks the Godot tree at most twice, once per
    candidate extension; on an empty path or a cached pair it does not walk
    at all. *)
Theorem find_godot_resource_walks (st : state) (godot_project_root unity_path : string) :
  let st' := (find_godot_resource godot_project_root unity_path st).2 in
  walks st ≤ walks st' ≤ walks st + 2 ∧
  (nonempty unity_path = false
   ∨ is_Some (godot_resource_cache st !! cache_key godot_project_root unity_path) →
   walks st' = walks st).
Proof.
  cbn zeta. destruct (nonempty unity_path) eqn:Hne.
  2:{ rewrite SimilarFacts.find_godot_resource_empty by done. cbn. split; [lia|done]. }
  destruct (godot_resource_cache st !! cache_key godot_project_root unity_path)
    as [v|] eqn:Hc.
  { rewrite (find_godot_resource_cached st _ _ v) by done. cbn. split; [lia|done]. }
  split; [|by intros [?|[? ?]]].
  pose proof (ResPathFacts.locate_walks (extensions (sep (disk st)) unity_path)
                godot_project_root (base_name (sep (disk st)) unity_path) st) as Hw.
  pose proof (ResPathFacts.extensions_length (sep (disk st)) unity_path) as Hl.
  rewrite ResPathFacts.find_godot_resource_miss_eq by done.
  destruct (locate _ _ _ st) as [[v|e] st1]; cbn in *; lia.
Qed.

(** X6. A resource identifier the locator computes starts with [res://] and
    holds no backslash, whatever the separator of the platform. *)
Theorem find_godot_resource_res_path
  (st st' : state) (godot_project_root unity_path godot_path : string) :
  godot_resource_cache st !! cache_key godot_project_root unity_path = None →
  find_godot_resource godot_project_root unity_path st = (Return (Some godot_path), st') →
  startswith "res://" godot_path = true ∧
  contains (String backslash "") godot_path = false.
Proof.
  intros Hc. destruct (nonempty unity_path) eqn:Hne.
  2:{ by rewrite SimilarFacts.find_godot_resource_empty. }
  rewrite ResPathFacts.find_godot_resource_miss_eq by done.
  destruct (locate _ _ _ st) as [[v|e] st1] eqn:Hl; [|done].
  intros [= -> _].
  destruct (ResPathFacts.locate_res_path _ _ _ _ _ _ Hl) as (rel & ->).
  apply ResPathFacts.res_path_shape.
Qed.

Lemma find_godot_resource_res_path_witness :
  startswith "res://" "res://assets/Textures/wood.PNG" = true ∧
  contains (String backslash "") "res://assets/Textures/wood.PNG" = false.
Proof.
  exact (find_godot_resource_res_path Example.st0
           (find_godot_resource "/g" "/u/Assets/Textures/Wood.psd" Example.st0).2
           "/g" "/u/Assets/Textures/Wood.psd" "res://assets/Textures/wood.PNG"
           eq_refl eq_refl).
Defined.

Module FbxFacts.

Lemma first_dir_with_some fbx_name entries root :
  first_dir_with fbx_name entries = Some root →
  ∃ e, e ∈ entries ∧ e.1.1 = root ∧ fbx_name ∈ e.2.
Proof.
  induction entries as [|[[r dirs] files] rest IH]; [done|]. cbn [first_dir_with].
  destruct (bool_decide (fbx_name ∈ files)) eqn:Hin.
  - intros [= <-]. exists (r, dirs, files). apply bool_decide_eq_true in Hin.
    split; [apply elem_of_cons; by left|done].
  - intros H. destruct (IH H) as (e & He & Hr & Hf). exists e.
    split; [apply elem_of_cons; by right|done].
Qed.

Lemma first_dir_with_absent fbx_name entries :
  first_dir_with fbx_name entries = None → Forall (λ e, fbx_name ∉ e.2) entries.
Proof.
  induction entries as [|[[r dirs] files] rest IH]; [by constructor|]. cbn [first_dir_with].
  destruct (bool_decide (fbx_name ∈ files)) eqn:Hin; [done|].
  apply bool_decide_eq_false in Hin. intros H. constructor; [done|by apply IH].
Qed.

(** The three ways [find_godot_fbx] ends when it returns. *)
Lemma find_godot_fbx_cases fbx ur gr ua ga st v st' :
  find_godot_fbx fbx ur gr ua ga st = (Return v, st') →
  let s := sep (disk st) in
  ∃ rel, Path.relpath s (cwd (disk st)) fbx ua = Some rel ∧
    ((exists_ (disk st) (Path.join s ga rel) = true ∧ walks st' = walks st ∧
      ∃ rel', Path.relpath s (cwd (disk st)) (Path.join s ga rel) gr = Some rel' ∧
              v = Some (res_path rel'))
     ∨ (exists_ (disk st) (Path.join s ga rel) = false ∧ walks st' = S (walks st) ∧
        ((∃ root rel',
            first_dir_with (Path.basename s fbx) (walk (disk st) ga) = Some root ∧
            Path.relpath s (cwd (disk st)) (Path.join s root (Path.basename s fbx)) gr
            = Some rel' ∧ v = Some (res_path rel'))
         ∨ (first_dir_with (Path.basename s fbx) (walk (disk st) ga) = None ∧ v = None))))
    ∧ disk st' = disk st ∧ unity_texture_cache st' = unity_texture_cache st
    ∧ godot_resource_cache st' = godot_resource_cache st.
Proof.
  unfold find_godot_fbx, os_relpath, bind, get, print, os_walk, ret, raise. cbn.
  destruct (Path.relpath _ _ fbx ua) as [rel|]; [|done]. cbn.
  destruct (exists_ (disk st) _) eqn:Hex; cbn.
  - destruct (Path.relpath _ _ _ gr) as [rel'|] eqn:Hr; [|done]. cbn.
    intros [= <- <-]. exists rel. split; [done|]. split; [|done].
    left. repeat split; try done. by exists rel'.
  - destruct (first_dir_with _ _) as [root|] eqn:Hf; cbn.
    + destruct (Path.relpath _ _ _ gr) as [rel'|] eqn:Hr; [|done]. cbn.
      intros [= <- <-]. exists rel. split; [done|]. split; [|done].
      right. repeat split; try done. left. by exists root, rel'.
    + intros [= <- <-]. exists rel. split; [done|]. split; [|done].
      right. repeat split; try done. by right.
Qed.

End FbxFacts.

(** X19. A path [find_godot_fbx] returns starts with [res://] and holds no
    backslash, whichever of its two strategies found the mesh. *)
Theorem find_godot_fbx_res_path (st st' : state)
  (unity_fbx_path unity_root godot_root unity_assets_dir godot_assets_dir p : string) :
  find_godot_fbx unity_fbx_path unity_root godot_root unity_assets_dir godot_assets_dir st
  = (Return (Some p), st') →
  startswith "res://" p = true ∧ contains (String backslash "") p = false.
Proof.
  intros H. destruct (FbxFacts.find_godot_fbx_cases _ _ _ _ _ _ _ _ H) as (rel & _ & Hc & _).
  destruct Hc as [(_ & _ & rel' & _ & [= ->])
                 |(_ & _ & [(root & rel' & _ & _ & [= ->])|[_ [=]]])];
    apply ResPathFacts.res_path_shape.
Qed.

Lemma find_godot_fbx_res_path_witness :
  startswith "res://" "res://assets/Models/Crate.fbx" = true ∧
  contains (String backslash "") "res://assets/Models/Crate.fbx" = false.
Proof.
  exact (find_godot_fbx_res_path (fresh Example.fs_meshes)
           (find_godot_fbx "/u/Assets/Meshes/Props/Crate.fbx" "/u" "/g" "/u/Assets"
              "/g/assets" (fresh Example.fs_meshes)).2
           "/u/Assets/Meshes/Props/Crate.fbx" "/u" "/g" "/u/Assets" "/g/assets"
           "res://assets/Models/Crate.fbx" eq_refl).
Defined.

(** X20. The search of [find_godot_fbx] is exhaustive: when it returns
    [None], the directly mapped path does not exist and no directory walked
    below the Godot assets directory lists a file with the name of the mesh;
    the tree was walked exactly once. *)
Theorem find_godot_fbx_none (st st' : state)
  (unity_fbx_path unity_root godot_root unity_assets_dir godot_assets_dir : string) :
  find_godot_fbx unity_fbx_path unity_root godot_root unity_assets_dir godot_assets_dir st
  = (Return None, st') →
  (∃ rel, Path.relpath (sep (disk st)) (cwd (disk st)) unity_fbx_path unity_assets_dir
          = Some rel ∧
          exists_ (disk st) (Path.join (sep (disk st)) godot_assets_dir rel) = false) ∧
  Forall (λ e, Path.basename (sep (disk st)) unity_fbx_path ∉ e.2)
    (walk (disk st) godot_assets_dir) ∧
  walks st' = S (walks st) ∧ disk st' = disk st.
Proof.
  intros H. destruct (FbxFacts.find_godot_fbx_cases _ _ _ _ _ _ _ _ H)
    as (rel & Hrel & Hc & Hd & _).
  destruct Hc as [(_ & _ & rel' & _ & [=])
                 |(Hex & Hw & [(root & rel' & _ & _ & [=])|[Hnone _]])].
  split; [by exists rel|]. split; [by apply FbxFacts.first_dir_with_absent|done].
Qed.

Lemma find_godot_fbx_none_witness :
  (∃ rel, Path.relpath (sep (disk Example.st0)) (cwd (disk Example.st0))
            "/u/Assets/Meshes/Props/Crate.fbx" "/u/Assets" = Some rel ∧
          exists_ (disk Example.st0)
            (Path.join (sep (disk Example.st0)) "/g/assets" rel) = false) ∧
  Forall (λ e, Path.basename (sep (disk Example.st0)) "/u/Assets/Meshes/Props/Crate.fbx"
               ∉ e.2)
    (walk (disk Example.st0) "/g/assets") ∧
  walks (find_godot_fbx "/u/Assets/Meshes/Props/Crate.fbx" "/u" "/g" "/u/Assets"
           "/g/assets" Example.st0).2 = S (walks Example.st0) ∧
  disk (find_godot_fbx "/u/Assets/Meshes/Props/Crate.fbx" "/u" "/g" "/u/Assets"
          "/g/assets" Example.st0).2 = disk Example.st0.
Proof.
  exact (find_godot_fbx_none Example.st0 _ "/u/Assets/Meshes/Props/Crate.fbx" "/u" "/g"
           "/u/Assets" "/g/assets" eq_refl).
Defined.

Module WriteFacts.
Import SceneFacts.

Lemma put_file_lookup comps : ∀ n n' data,
  put_file n comps data = Some n' → lookup_node n' comps = Some (File data).
Proof.
  induction comps as [|c comps IH]; intros n n' data; destruct n as [d|entries]; simpl;
    try done; [congruence..|].
  destruct (assoc c entries) as [child|] eqn:Ha.
  - destruct (put_file child comps data) as [child'|] eqn:Hp; [|done].
    intros [= <-]. simpl. rewrite assoc_set_entry, decide_True by done. by eapply IH.
  - destruct comps; [|done]. intros [= <-]. simpl.
    by rewrite assoc_set_entry, decide_True.
Qed.

Lemma lookup_file_below data q : q ≠ [] → lookup_node (File data) q = None.
Proof. by destruct q. Qed.

Lemma put_file_other comps : ∀ n n' data q d,
  put_file n comps data = Some n' → q ≠ comps →
  lookup_node n' q = Some (File d) ↔ lookup_node n q = Some (File d).
Proof.
  induction comps as [|c comps IH]; intros n n' data q d; destruct n as [d0|entries];
    simpl; try done.
  - intros [= <-] Hq. by rewrite !lookup_file_below.
  - intros Hput Hq. destruct q as [|x q]; simpl.
    { destruct (assoc c entries) as [child|]; [|by destruct comps; simplify_eq].
      by destruct (put_file child comps data); simplify_eq. }
    destruct (assoc c entries) as [child|] eqn:Ha.
    + destruct (put_file child comps data) as [child'|] eqn:Hp; [|done].
      injection Hput as <-. simpl. rewrite assoc_set_entry.
      destruct (decide (x = c)) as [->|Hx]; [|done].
      rewrite Ha. apply (IH _ _ _ _ _ Hp). congruence.
    + destruct comps; [|done]. injection Hput as <-. simpl. rewrite assoc_set_entry.
      destruct (decide (x = c)) as [->|Hx]; [|done].
      rewrite Ha, lookup_file_below; [done|]. congruence.
Qed.

Lemma write_text_read fs fs' p text :
  write_text fs p text = Some fs' → read_utf8 fs' p = ReadOk (universal_newlines text).
Proof.
  unfold write_text, read_utf8, resolve. destruct (nonempty p); [|done].
  destruct (put_file _ _ _) as [t|] eqn:Hp; [|done]. intros [= <-]. simpl.
  by rewrite (put_file_lookup _ _ _ _ Hp).
Qed.

(** A text without a carriage return is read as it is. *)
Lemma universal_newlines_plain text :
  contains (String carriage_return "") text = false → universal_newlines text = text.
Proof.
  unfold universal_newlines. induction text as [|c text IH]; [done|].
  intros H. simpl in H. apply orb_false_iff in H as [Hc Htext].
  cbn [read_newlines]. rewrite IH by done.
  destruct (decide (c = carriage_return)) as [->|_]; [by rewrite decide_True in Hc|].
  by destruct (decide (c = line_feed)) as [->|_].
Qed.

Lemma write_text_read_plain fs fs' p text :
  write_text fs p text = Some fs' →
  contains (String carriage_return "") text = false → read_utf8 fs' p = ReadOk text.
Proof.
  intros Hw Hplain. by rewrite (write_text_read _ _ _ _ Hw), universal_newlines_plain.
Qed.

Lemma write_text_files fs fs' p text :
  write_text fs p text = Some fs' →
  sep fs' = sep fs ∧ cwd fs' = cwd fs ∧
  ∀ q d, q ≠ Path.abs_components (sep fs) (cwd fs) p →
         lookup_node (tree fs') q = Some (File d) ↔ lookup_node (tree fs) q = Some (File d).
Proof.
  unfold write_text. destruct (nonempty p); [|done].
  destruct (put_file _ _ _) as [t|] eqn:Hp; [|done]. intros [= <-]. simpl.
  repeat split; by apply (put_file_other _ _ _ _ _ _ Hp).
Qed.

Lemma generate_godot_material_eq m ur gr out st :
  generate_godot_material m ur gr out st
  = match material_text m ur gr st with
    | (Return text, st1) =>
        match makedirs (disk st1) (Path.dirname (sep (disk st1)) out) with
        | Some fs1 =>
            match write_text fs1 out text with
            | Some fs2 =>
                (Return (),
                 {| unity_texture_cache := unity_texture_cache st1;
                    godot_resource_cache := godot_resource_cache st1;
                    disk := fs2; stdout := stdout st1; walks := walks st1 |})
            | None =>
                (Raise OSError_,
                 {| unity_texture_cache := unity_texture_cache st1;
                    godot_resource_cache := godot_resource_cache st1;
                    disk := fs1; stdout := stdout st1; walks := walks st1 |})
            end
        | None => (Raise OSError_, st1)
        end
    | (Raise e, st1) => (Raise e, st1)
    end.
Proof.
  unfold generate_godot_material. unfold bind at 1.
  destruct (material_text m ur gr st) as [[text|e] st1]; [|done].
  unfold bind, get, os_makedirs, write_file. cbn.
  destruct (makedirs _ _) as [fs1|]; [|done]. cbn.
  by destruct (write_text fs1 out text).
Qed.

End WriteFacts.

(** X17. After a call of [generate_godot_material] that returns, reading
    the output path as UTF-8 text gives the text the translation built, with
    its line ends translated as a text-mode read does: exactly that text
    when it holds no carriage return. Every other file of the tree holds
    what it held before. *)
Theorem generate_godot_material_writes (m : material) (ur gr output_path : string)
  (st st' : state) :
  wf (disk st) = true →
  generate_godot_material m ur gr output_path st = (Return (), st') →
  ∃ text st1,
    material_text m ur gr st = (Return text, st1) ∧
    read_utf8 (disk st') output_path = ReadOk (universal_newlines text) ∧
    (contains (String carriage_return "") text = false →
     read_utf8 (disk st') output_path = ReadOk text) ∧
    ∀ q d, q ≠ Path.abs_components (sep (disk st)) (cwd (disk st)) output_path →
           lookup_node (tree (disk st')) q = Some (File d)
           ↔ lookup_node (tree (disk st)) q = Some (File d).
Proof.
  intros Hwf. rewrite WriteFacts.generate_godot_material_eq.
  destruct (TranslatorFacts.material_text_returns m ur gr st Hwf)
    as (pieces & st1 & Htext & _ & Hd).
  rewrite Htext, Hd.
  destruct (makedirs (disk st) _) as [fs1|] eqn:Hmk; [|done].
  destruct (write_text fs1 output_path _) as [fs2|] eqn:Hw; [|done].
  intros [= <-]. eexists _, st1. split; [done|]. cbn.
  split; [by eapply WriteFacts.write_text_read|].
  split; [by eapply WriteFacts.write_text_read_plain|].
  destruct (SceneFacts.makedirs_files _ _ _ Hmk) as (Hs & Hc & Hfiles).
  destruct (WriteFacts.write_text_files _ _ _ _ Hw) as (_ & _ & Hother).
  intros q d Hq. rewrite Hother by (by rewrite Hs, Hc). apply Hfiles.
Qed.

(** X18. An output path without a directory part makes
    [generate_godot_material] raise: [os.makedirs] is called on the empty
    string. The text is built first, so the caches may have grown, but the
    disk is as it was. *)
Theorem generate_godot_material_bare_name (m : material) (ur gr output_path : string)
  (st : state) :
  wf (disk st) = true →
  Path.dirname (sep (disk st)) output_path = "" →
  ∃ st', generate_godot_material m ur gr output_path st = (Raise OSError_, st') ∧
         disk st' = disk st.
Proof.
  intros Hwf Hdir. rewrite WriteFacts.generate_godot_material_eq.
  destruct (TranslatorFacts.material_text_returns m ur gr st Hwf)
    as (pieces & st1 & Htext & _ & Hd).
  rewrite Htext, Hd, Hdir. cbn. by exists st1.
Qed.

Lemma generate_godot_material_bare_name_witness :
  ∃ st', generate_godot_material Example.cutout "/u" "/g" "Cutout.tres" Example.st0
         = (Raise OSError_, st') ∧
         disk st' = disk Example.st0.
Proof.
  exact (generate_godot_material_bare_name Example.cutout "/u" "/g" "Cutout.tres"
           Example.st0 eq_refl eq_refl).
Defined.

Lemma generate_godot_material_writes_witness :
  ∃ text st1,
    material_text Example.cutout "/u" "/g" Example.st0 = (Return text, st1) ∧
    read_utf8 (disk (generate_godot_material Example.cutout "/u" "/g"
                       "/g/assets/Materials/Cutout.tres" Example.st0).2)
      "/g/assets/Materials/Cutout.tres" = ReadOk (universal_newlines text) ∧
    (contains (String carriage_return "") text = false →
     read_utf8 (disk (generate_godot_material Example.cutout "/u" "/g"
                        "/g/assets/Materials/Cutout.tres" Example.st0).2)
       "/g/assets/Materials/Cutout.tres" = ReadOk text) ∧
    ∀ q d, q ≠ Path.abs_components (sep (disk Example.st0)) (cwd (disk Example.st0))
                 "/g/assets/Materials/Cutout.tres" →
           lookup_node (tree (disk (generate_godot_material Example.cutout "/u" "/g"
                                      "/g/assets/Materials/Cutout.tres" Example.st0).2)) q
           = Some (File d)
           ↔ lookup_node (tree (disk Example.st0)) q = Some (File d).
Proof.
  exact (generate_godot_material_writes Example.cutout "/u" "/g"
           "/g/assets/Materials/Cutout.tres" Example.st0 _ eq_refl eq_refl).
Defined.

Module SceneWriteFacts.
Import SceneFacts.

Lemma generate_godot_scene_eq fbx mm ur gr ua ga od st :
  generate_godot_scene fbx mm ur gr ua ga od st
  = let s := sep (disk st) in
    match makedirs (disk st) (Path.join s ga "Scenes") with
    | None => (Raise OSError_, st)
    | Some fs1 =>
        match Path.relpath (sep fs1) (cwd fs1) fbx ua with
        | None => (Raise ValueError_, on_disk fs1 st)
        | Some rel =>
            match makedirs fs1 (Path.join s (Path.join s ga "Scenes")
                                  (Path.dirname s (relevant_path_of s rel))) with
            | None => (Raise OSError_, on_disk fs1 st)
            | Some fs2 =>
                match find_godot_fbx fbx ur gr ua ga (on_disk fs2 st) with
                | (Raise e, st2) => (Raise e, st2)
                | (Return gp, st2) =>
                    if negb (truthy gp) then
                      (Return None,
                       (print ("Warning: Could not find corresponding FBX in Godot project for "
                               +:+ fbx) st2).2)
                    else
                      match write_text (disk st2) (scene_path s ga fbx rel)
                              (scene_text (default "" gp)
                                 (Path.splitext s (Path.basename s fbx)).1 mm) with
                      | Some fs3 => (Return (Some (scene_path s ga fbx rel)), on_disk fs3 st2)
                      | None => (Raise OSError_, st2)
                      end
                end
            end
        end
    end.
Proof.
  cbn zeta. unfold generate_godot_scene.
  unfold bind at 1, get. cbn beta iota.
  unfold bind at 1, os_makedirs at 1.
  destruct (makedirs (disk st) _) as [fs1|]; [|reflexivity]. cbn beta iota.
  unfold bind at 1, os_relpath at 1, bind at 1, get. cbn beta iota. cbn [disk].
  destruct (Path.relpath (sep fs1) (cwd fs1) fbx ua) as [rel|]; [|reflexivity].
  unfold ret at 1. cbn beta iota.
  unfold bind at 1, os_makedirs at 1. cbn [disk].
  destruct (makedirs fs1 _) as [fs2|]; [|reflexivity]. cbn beta iota.
  cbn [unity_texture_cache godot_resource_cache stdout walks disk].
  unfold bind at 1. fold (on_disk fs2 st).
  destruct (find_godot_fbx fbx ur gr ua ga (on_disk fs2 st)) as [[gp|e] st2]; [|reflexivity].
  destruct (truthy gp); cbn [negb].
  - unfold bind, write_file, ret, scene_path.
    destruct (write_text (disk st2) _ _); reflexivity.
  - reflexivity.
Qed.

Lemma mkdirs_is_dir comps : ∀ n n',
  mkdirs n comps = Some n' → ∃ es, lookup_node n' comps = Some (Dir es).
Proof.
  induction comps as [|c comps IH]; intros n n'; destruct n as [d|entries]; simpl;
    try done.
  - intros [= <-]. by eexists.
  - destruct (mkdirs _ comps) as [child|] eqn:Hmk; [|done]. intros [= <-]. simpl.
    rewrite assoc_set_entry, decide_True by done. by eapply IH.
Qed.

Lemma mkdirs_dirs comps : ∀ n n' q es,
  mkdirs n comps = Some n' → lookup_node n q = Some (Dir es) →
  ∃ es', lookup_node n' q = Some (Dir es').
Proof.
  induction comps as [|c comps IH]; intros n n' q es; destruct n as [d|entries]; simpl;
    try done.
  - intros [= <-] ?. by eexists.
  - destruct (mkdirs _ comps) as [child|] eqn:Hmk; [|done]. intros [= <-].
    destruct q as [|x q]; simpl; [by eexists|].
    rewrite assoc_set_entry. destruct (decide (x = c)) as [->|Hx]; [|by eexists].
    destruct (assoc c entries) as [child0|]; [|done]. simpl in Hmk.
    intros Hq. by eapply IH.
Qed.

Lemma put_file_dirs comps : ∀ n n' data q es,
  put_file n comps data = Some n' → lookup_node n q = Some (Dir es) →
  ∃ es', lookup_node n' q = Some (Dir es').
Proof.
  induction comps as [|c comps IH]; intros n n' data q es; destruct n as [d|entries];
    simpl; try done.
  - intros _. by destruct q.
  - intros Hput. destruct q as [|x q]; simpl.
    { intros _. destruct (assoc c entries) as [child|].
      - destruct (put_file child comps data); simplify_eq. by eexists.
      - destruct comps; simplify_eq. by eexists. }
    destruct (assoc c entries) as [child|] eqn:Ha.
    + destruct (put_file child comps data) as [child'|] eqn:Hp; [|done].
      injection Hput as <-. simpl. rewrite assoc_set_entry.
      destruct (decide (x = c)) as [->|Hx]; [|by eexists].
      rewrite Ha. by eapply IH.
    + destruct comps; [|done]. injection Hput as <-. simpl. rewrite assoc_set_entry.
      destruct (decide (x = c)) as [->|Hx]; [|by eexists]. by rewrite Ha.
Qed.

Lemma isdir_spec fs p :
  isdir fs p = true ↔
  nonempty p = true ∧
  ∃ es, lookup_node (tree fs) (Path.abs_components (sep fs) (cwd fs) p) = Some (Dir es).
Proof.
  unfold isdir, resolve. destruct (nonempty p); [|by split; [|intros []]].
  destruct (lookup_node _ _) as [[d|es]|]; split; try done.
  - by intros [_ [? ?]].
  - intros _. split; [done|]. by eexists.
  - by intros [_ [? ?]].
Qed.

Lemma makedirs_isdir fs fs' p : makedirs fs p = Some fs' → isdir fs' p = true.
Proof.
  unfold makedirs. destruct (nonempty p) eqn:Hne; [|done].
  destruct (mkdirs _ _) as [t|] eqn:Hmk; [|done]. intros [= <-].
  apply isdir_spec. split; [done|]. simpl. by eapply mkdirs_is_dir.
Qed.

Lemma makedirs_keeps_dirs fs fs' p q :
  makedirs fs p = Some fs' → isdir fs q = true → isdir fs' q = true.
Proof.
  unfold makedirs. destruct (nonempty p) eqn:Hne; [|done].
  destruct (mkdirs _ _) as [t|] eqn:Hmk; [|done]. intros [= <-].
  rewrite !isdir_spec. simpl. intros [Hq [es Hes]]. split; [done|].
  by eapply mkdirs_dirs.
Qed.

Lemma write_text_keeps_dirs fs fs' p text q :
  write_text fs p text = Some fs' → isdir fs q = true → isdir fs' q = true.
Proof.
  unfold write_text. destruct (nonempty p) eqn:Hne; [|done].
  destruct (put_file _ _ _) as [t|] eqn:Hp; [|done]. intros [= <-].
  rewrite !isdir_spec. simpl. intros [Hq [es Hes]]. split; [done|].
  by eapply put_file_dirs.
Qed.

End SceneWriteFacts.

(** X21. Whenever [generate_godot_scene] returns, with a scene or without,
    the [Scenes] directory below the Godot assets directory and the
    subdirectory of the mesh exist: both are made before the mesh is looked
    for. *)
Theorem generate_godot_scene_makes_dirs (st st' : state) (fbx_path : string)
  (material_mappings : list (string * string))
  (unity_root godot_root unity_assets_dir godot_assets_dir output_dir : string)
  (v : option string) :
  generate_godot_scene fbx_path material_mappings unity_root godot_root
    unity_assets_dir godot_assets_dir output_dir st = (Return v, st') →
  let s := sep (disk st) in
  isdir (disk st') (Path.join s godot_assets_dir "Scenes") = true ∧
  ∃ rel, Path.relpath s (cwd (disk st)) fbx_path unity_assets_dir = Some rel ∧
         isdir (disk st') (Path.join s (Path.join s godot_assets_dir "Scenes")
                             (Path.dirname s (relevant_path_of s rel))) = true.
Proof.
  rewrite SceneWriteFacts.generate_godot_scene_eq. cbn zeta.
  destruct (makedirs (disk st) _) as [fs1|] eqn:Hmk1; [|done].
  destruct (SceneFacts.makedirs_files _ _ _ Hmk1) as (Hs1 & Hc1 & _).
  rewrite Hs1, Hc1.
  destruct (Path.relpath _ _ fbx_path unity_assets_dir) as [rel|]; [|done].
  destruct (makedirs fs1 _) as [fs2|] eqn:Hmk2; [|done].
  destruct (find_godot_fbx _ _ _ _ _ (on_disk fs2 st)) as [[gp|e] st2] eqn:Hfbx; [|done].
  destruct (FbxFacts.find_godot_fbx_cases _ _ _ _ _ _ _ _ Hfbx) as (_ & _ & _ & Hd & _).
  cbn [on_disk disk] in Hd.
  assert (isdir fs2 (Path.join (sep (disk st)) godot_assets_dir "Scenes") = true) as H1.
  { eapply SceneWriteFacts.makedirs_keeps_dirs; [done|].
    by eapply SceneWriteFacts.makedirs_isdir. }
  pose proof (SceneWriteFacts.makedirs_isdir _ _ _ Hmk2) as H2.
  destruct (truthy gp); cbn [negb].
  - rewrite Hd. destruct (write_text fs2 _ _) as [fs3|] eqn:Hw; [|done].
    intros [= <- <-]. cbn [on_disk disk].
    split; [by eapply SceneWriteFacts.write_text_keeps_dirs|].
    exists rel. split; [done|]. by eapply SceneWriteFacts.write_text_keeps_dirs.
  - intros [= <- <-]. cbn. rewrite Hd. split; [done|]. by exists rel.
Qed.

Lemma generate_godot_scene_makes_dirs_witness :
  isdir (disk (generate_godot_scene "/u/Assets/Meshes/Props/Crate.fbx" [] "/u" "/g"
                 "/u/Assets" "/g/assets" "/g/assets" Example.st0).2)
    (Path.join "/" "/g/assets" "Scenes") = true ∧
  ∃ rel, Path.relpath "/" (cwd (disk Example.st0)) "/u/Assets/Meshes/Props/Crate.fbx"
           "/u/Assets" = Some rel ∧
         isdir (disk (generate_godot_scene "/u/Assets/Meshes/Props/Crate.fbx" [] "/u" "/g"
                        "/u/Assets" "/g/assets" "/g/assets" Example.st0).2)
           (Path.join "/" (Path.join "/" "/g/assets" "Scenes")
              (Path.dirname "/" (relevant_path_of "/" rel))) = true.
Proof.
  exact (generate_godot_scene_makes_dirs Example.st0 _ "/u/Assets/Meshes/Props/Crate.fbx" []
           "/u" "/g" "/u/Assets" "/g/assets" "/g/assets" None eq_refl).
Defined.



Module RelevantPathFacts.
Import PathFacts.

Lemma split_join_with (s : ascii) (parts : list string) :
  parts ≠ [] → forallb (valid_name s) parts = true →
  split s (join_with (Path.sep_str s) parts) = parts.
Proof.
  induction parts as [|p parts IH]; [done|]. intros _ [Hp Hv]%andb_true_iff.
  destruct parts as [|q parts].
  - cbn [join_with]. by apply split_no_sep, valid_name_no_sep.
  - rewrite join_with_cons. unfold Path.sep_str at 1. sapp.
    rewrite split_app_sep, IH by done.
    by rewrite (split_no_sep _ p (valid_name_no_sep _ _ Hp)).
Qed.

Lemma from_meshes_app (pre post : list string) :
  "Meshes" ∉ pre → from_meshes (pre ++ "Meshes" :: post) = Some ("Meshes" :: post).
Proof.
  induction pre as [|p pre IH]; intros Hpre; cbn [app from_meshes].
  - by rewrite decide_True.
  - rewrite decide_False; [apply IH|]; intros ?; apply Hpre, elem_of_cons; auto.
Qed.

End RelevantPathFacts.

(** X23. Only the part of a mesh's relative path from its first [Meshes]
    component on places the scene: whatever comes before that component is
    dropped, so two meshes whose paths differ only there get the same scene
    path. *)
Theorem relevant_path_drops_prefix (s : ascii) (pre post : list string) :
  forallb (valid_name s) (pre ++ "Meshes" :: post) = true →
  "Meshes" ∉ pre →
  relevant_path_of s (join_with (Path.sep_str s) (pre ++ "Meshes" :: post))
  = join_with (Path.sep_str s) ("Meshes" :: post).
Proof.
  intros Hv Hpre. unfold relevant_path_of.
  rewrite RelevantPathFacts.split_join_with; [|by destruct pre|done].
  rewrite RelevantPathFacts.from_meshes_app by done.
  apply PathFacts.join_all_valid.
  rewrite forallb_app in Hv. by apply andb_true_iff in Hv as [_ ?].
Qed.

Lemma relevant_path_drops_prefix_witness :
  relevant_path_of "/" (join_with (Path.sep_str "/") (["Props"; "Old"] ++ "Meshes" :: ["Crate.fbx"]))
  = join_with (Path.sep_str "/") ("Meshes" :: ["Crate.fbx"]).
Proof.
  apply (relevant_path_drops_prefix "/" ["Props"; "Old"] ["Crate.fbx"]); [reflexivity|].
  intros H. by repeat (apply elem_of_cons in H as [H|H]; [done|]); apply elem_of_nil in H.
Defined.

Module DirectoryFacts.

Lemma convert_meshes_step input_dir output_dir ur gr material_paths fbx_file rest st st1 :
  convert_mesh input_dir output_dir ur gr material_paths fbx_file st = (Return (), st1) →
  convert_meshes input_dir output_dir ur gr material_paths (fbx_file :: rest) st
  = convert_meshes input_dir output_dir ur gr material_paths rest st1.
Proof. intros H. cbn [convert_meshes]. unfold bind. by rewrite H. Qed.

End DirectoryFacts.

Module GlobFacts.
Import Path PathFacts FSFacts.

Section WithSep.
Variable s : ascii.

Lemma split_elems_no_sep (p x : string) :
  x ∈ split s p → contains (sep_str s) x = false.
Proof.
  revert x. induction p as [|c p IH]; intros x; cbn [split].
  - intros ->%list_elem_of_singleton. done.
  - destruct (decide (c = s)) as [->|Hc].
    + intros [->|Hx]%elem_of_cons; [done|by apply IH].
    + pose proof (split_nonnil s p) as Hne. destruct (split s p) as [|w ws]; [done|].
      intros [->|Hx]%elem_of_cons.
      * unfold sep_str. cbn [contains startswith]. rewrite decide_False by congruence.
        cbn. apply IH. apply elem_of_cons. by left.
      * apply IH. apply elem_of_cons. by right.
Qed.

Lemma split_join_no_sep (ps : list string) :
  ps ≠ [] → Forall (λ x, contains (sep_str s) x = false) ps →
  split s (join_with (sep_str s) ps) = ps.
Proof.
  induction ps as [|p ps IH]; [done|]. intros _ [Hp Hps]%Forall_cons.
  destruct ps as [|q ps].
  - cbn [join_with]. by apply split_no_sep.
  - rewrite join_with_cons. unfold sep_str at 1. sapp.
    rewrite split_app_sep, IH by done. by rewrite (split_no_sep _ p Hp).
Qed.

Lemma parts_no_sep (p x : string) : x ∈ parts s p → contains (sep_str s) x = false.
Proof. unfold parts. intros [_ Hx]%list_elem_of_filter. by eapply split_elems_no_sep. Qed.

Lemma parts_join_with (ps : list string) :
  Forall (λ x, contains (sep_str s) x = false ∧ x ≠ "" ∧ x ≠ ".") ps →
  parts s (join_with (sep_str s) ps) = ps.
Proof.
  intros Hps. destruct ps as [|p ps]; [done|]. unfold parts.
  rewrite split_join_no_sep; [|done|by eapply Forall_impl; [done|]; intros ? []].
  induction Hps as [|x l [_ Hx] _ IH]; [done|].
  by rewrite filter_cons_True, IH.
Qed.

Lemma parts_sep_cons (p : string) : parts s (String s p) = parts s p.
Proof.
  unfold parts. cbn [split]. rewrite decide_True by done.
  rewrite filter_cons_False; [done|]. by intros [? _].
Qed.

Lemma parts_Forall (p : string) :
  Forall (λ x, contains (sep_str s) x = false ∧ x ≠ "" ∧ x ≠ ".") (parts s p).
Proof.
  apply Forall_forall. intros x Hx. split; [by eapply parts_no_sep|].
  unfold parts in Hx. by apply list_elem_of_filter in Hx as [? _].
Qed.

Lemma parts_path_str (p : string) : parts s (path_str s p) = parts s p.
Proof.
  unfold path_str. destruct (parts s p) as [|x ps] eqn:Hp.
  - destruct (isabs s p).
    + unfold sep_str. by rewrite parts_sep_cons.
    + unfold parts. cbn [split]. destruct (decide ("."%char = s)) as [<-|Hs].
      * rewrite !filter_cons_False; [done|by intros [? _]|by intros [? _]].
      * rewrite filter_cons_False; [done|]. by intros [_ ?].
  - pose proof (parts_Forall p) as Hall. rewrite Hp in Hall.
    destruct (isabs s p).
    + unfold sep_str at 1. sapp. rewrite parts_sep_cons. by apply parts_join_with.
    + sapp. by apply parts_join_with.
Qed.

Lemma nonempty_path_str (p : string) : nonempty (path_str s p) = true.
Proof.
  unfold path_str. destruct (parts s p) as [|x ps] eqn:Hp.
  - by destruct (isabs s p).
  - pose proof (parts_Forall p) as Hall. rewrite Hp in Hall.
    apply Forall_cons in Hall as [(_ & Hx & _) _].
    destruct (isabs s p); [done|]. sapp. destruct x; [done|]. by destruct ps.
Qed.

Lemma isabs_sep_cons (x : string) : isabs s (String s x) = true.
Proof. unfold isabs. apply startswith_spec. by exists x. Qed.

Lemma isabs_other_cons (c : ascii) (x : string) : c ≠ s → isabs s (String c x) = false.
Proof.
  intros Hc. unfold isabs. apply not_true_is_false. rewrite startswith_spec.
  intros [r Hr]. unfold sep_str in Hr. sapp. congruence.
Qed.

Lemma isabs_path_str (p : string) :
  s ≠ "."%char → isabs s (path_str s p) = isabs s p.
Proof.
  intros Hs. unfold path_str. destruct (parts s p) as [|x ps] eqn:Hp.
  - destruct (isabs s p) eqn:Ha.
    + apply isabs_sep_cons.
    + by apply isabs_other_cons.
  - pose proof (parts_Forall p) as Hall. rewrite Hp in Hall.
    apply Forall_cons in Hall as [(Hns & Hx & _) _].
    destruct (isabs s p) eqn:Ha.
    + unfold sep_str at 1. sapp. apply isabs_sep_cons.
    + sapp. destruct x as [|c x]; [done|].
      assert (c ≠ s) as Hc.
      { intros ->. apply not_true_iff_false in Hns. apply Hns, contains_spec.
        by exists "", x. }
      destruct ps; [by apply isabs_other_cons|].
      rewrite join_with_cons. sapp. by apply isabs_other_cons.
Qed.

Lemma valid_name_part name :
  valid_name s name = true → name ≠ "" ∧ name ≠ ".".
Proof.
  unfold valid_name. rewrite !andb_true_iff, !negb_true_iff, !bool_decide_eq_false.
  intros [[[Hne _] Hdot] _]. split; [by intros ->|done].
Qed.

Lemma parts_app_sep (a b : string) :
  parts s (a +:+ String s b) = parts s a ++ parts s b.
Proof. unfold parts. by rewrite split_app_sep, filter_app. Qed.

Lemma parts_valid name : valid_name s name = true → parts s name = [name].
Proof.
  intros Hv. unfold parts. rewrite (split_no_sep _ _ (valid_name_no_sep _ _ Hv)).
  by rewrite filter_cons_True by by apply valid_name_part.
Qed.

Lemma parts_join a name :
  nonempty a = true → valid_name s name = true →
  parts s (join s a name) = parts s a ++ [name].
Proof.
  intros Ha Hv. rewrite join_valid by done.
  destruct (endswith (sep_str s) a) eqn:Hend.
  - apply endswith_spec in Hend as [a' ->]. rewrite append_assoc.
    unfold sep_str. sapp. rewrite !parts_app_sep, (parts_valid name) by done.
    unfold parts at 3. cbn [split]. rewrite filter_cons_False; [|by intros [? _]].
    by rewrite filter_nil, List.app_nil_r.
  - unfold sep_str. sapp. by rewrite parts_app_sep, (parts_valid name).
Qed.

Lemma parts_descend names : ∀ top,
  nonempty top = true → forallb (valid_name s) names = true →
  parts s (fold_left (join s) names top) = parts s top ++ names.
Proof.
  induction names as [|name names IH]; intros top Ht Hv; cbn [fold_left].
  - by rewrite List.app_nil_r.
  - cbn in Hv. apply andb_true_iff in Hv as [Hn Hv].
    rewrite IH, parts_join by (done || by apply join_nonempty).
    by rewrite <- List.app_assoc.
Qed.

Lemma isabs_descend names : ∀ top,
  nonempty top = true → forallb (valid_name s) names = true →
  isabs s (fold_left (join s) names top) = isabs s top.
Proof.
  induction names as [|name names IH]; intros top Ht Hv; cbn [fold_left]; [done|].
  cbn in Hv. apply andb_true_iff in Hv as [Hn Hv].
  rewrite IH by (done || by apply join_nonempty).
  rewrite join_valid by done. destruct (endswith _ top); by rewrite isabs_app.
Qed.

Lemma strip_prefix_app (base names : list string) :
  strip_prefix base (base ++ names) = Some names.
Proof. induction base as [|b base IH]; [done|]. cbn. by rewrite decide_True. Qed.

(** A path the glob yields is its top followed by valid names. *)
Lemma glob_node_shape suffix n : ∀ top p,
  wf_node s n = true → p ∈ glob_node s suffix top n →
  ∃ names, names ≠ [] ∧ forallb (valid_name s) names = true ∧
           p = fold_left (join s) names top.
Proof.
  induction n as [d|entries IH] using node_ind'; intros top p Hwf; cbn [glob_node].
  { by intros ?%elem_of_nil. }
  apply wf_node_dir in Hwf as (Hvalid & _ & Hwfs).
  intros [Hin|Hin]%elem_of_app.
  - apply list_elem_of_fmap in Hin as (name & -> & Hname).
    apply list_elem_of_filter in Hname as [_ Hname].
    exists [name]. split; [done|]. split; [|done]. cbn. rewrite andb_true_r.
    rewrite forallb_forall in Hvalid. by apply Hvalid, list_elem_of_In.
  - revert Hin. clear -IH Hvalid Hwfs.
    induction entries as [|[name child] entries IHes]; [by intros ?%elem_of_nil|].
    apply Forall_cons in IH as [IHc IH], Hwfs as [Hwc Hwfs].
    cbn in Hvalid. apply andb_true_iff in Hvalid as [Hn Hvalid].
    intros [Hin|Hin]%elem_of_app; [|by apply IHes].
    destruct (IHc _ _ Hwc Hin) as (names & _ & Hv & ->).
    exists (name :: names). split; [done|]. split; [|done]. cbn. by rewrite Hn.
Qed.

End WithSep.

Lemma output_file_for_glob fs input_dir output_dir suffix mat_file :
  wf fs = true → sep fs ≠ "."%char →
  mat_file ∈ glob fs input_dir suffix →
  ∃ output_file, output_file_for (sep fs) input_dir output_dir mat_file = Some output_file.
Proof.
  intros Hwf Hsep. unfold glob. cbn zeta.
  destruct (resolve fs (path_str (sep fs) input_dir)) as [n|] eqn:Hres;
    [|by intros ?%elem_of_nil].
  intros (found & -> & Hin)%list_elem_of_fmap.
  assert (wf_node (sep fs) n = true) as Hn.
  { unfold resolve in Hres. destruct (nonempty _); [|done].
    by apply (wf_node_lookup (sep fs) (tree fs) _ n Hwf Hres). }
  destruct (glob_node_shape _ _ _ _ _ Hn Hin) as (names & Hne & Hv & ->).
  unfold output_file_for, relative_to.
  rewrite isabs_path_str, isabs_descend, isabs_path_str, bool_decide_true
    by (done || apply nonempty_path_str).
  rewrite parts_path_str, parts_descend, parts_path_str, strip_prefix_app
    by (done || apply nonempty_path_str).
  destruct names as [|name names]; [done|].
  unfold with_suffix, path_name.
  rewrite parts_join_with.
  2:{ apply Forall_forall. intros x Hx. rewrite forallb_forall in Hv.
      apply list_elem_of_In, Hv in Hx. split; [by apply PathFacts.valid_name_no_sep|].
      by apply (valid_name_part (sep fs)). }
  assert (List.last (name :: names) "" ≠ "") as Hlast.
  { assert (List.last (name :: names) "" ∈ name :: names) as Hl.
    { clear. revert name. induction names as [|y names IH]; intros name.
      - apply elem_of_cons. by left.
      - apply elem_of_cons. right. apply IH. }
    rewrite forallb_forall in Hv. apply list_elem_of_In, Hv in Hl.
    apply (valid_name_part (sep fs)) in Hl.
    by destruct Hl. }
  destruct (List.last (name :: names) ""); [done|]. by eexists.
Qed.

End GlobFacts.

Module LoopFacts.

Lemma translate_property_disk m ur gr unity_prop godot_prop st :
  disk (translate_property m ur gr unity_prop godot_prop st).2 = disk st.
Proof.
  unfold translate_property. destruct (textures m !! unity_prop) as [tex|].
  - pose proof (find_meta_outcome st ur (guid tex)) as (_ & Hd & _). cbn zeta in Hd.
    unfold bind at 1.
    destruct (find_meta_file_by_guid ur (guid tex) st) as [[v|e] st1]; [|done].
    cbn [snd] in Hd. destruct (truthy v); [|done].
    unfold bind at 1, get. cbn beta iota.
    destruct (find_godot_resource_returns st1 gr (default "" v)) as (gv & st2 & Hl & Hd2 & _).
    unfold bind at 1. rewrite Hl. cbn beta iota.
    destruct (truthy gv); unfold bind, print, ret; cbn; congruence.
  - destruct (colors m !! unity_prop); [done|]. by destruct (floats m !! unity_prop).
Qed.

Lemma translate_properties_disk m ur gr table : ∀ tres_content st,
  disk (translate_properties m ur gr table tres_content st).2 = disk st.
Proof.
  induction table as [|[up gp] table IH]; intros acc st; [done|].
  cbn [translate_properties]. unfold bind.
  pose proof (translate_property_disk m ur gr up gp st) as Hd.
  destruct (translate_property m ur gr up gp st) as [[piece|e] st1]; [|done].
  cbn [snd] in Hd. by rewrite IH.
Qed.

Lemma material_text_disk m ur gr st : disk (material_text m ur gr st).2 = disk st.
Proof. apply translate_properties_disk. Qed.

Lemma makedirs_sep fs fs' p : makedirs fs p = Some fs' → sep fs' = sep fs.
Proof. intros H. by destruct (SceneFacts.makedirs_files _ _ _ H). Qed.

Lemma write_text_sep fs fs' p text : write_text fs p text = Some fs' → sep fs' = sep fs.
Proof. intros H. by destruct (WriteFacts.write_text_files _ _ _ _ H). Qed.

Lemma generate_godot_material_sep m ur gr out st :
  sep (disk (generate_godot_material m ur gr out st).2) = sep (disk st).
Proof.
  rewrite WriteFacts.generate_godot_material_eq.
  pose proof (material_text_disk m ur gr st) as Hd.
  destruct (material_text m ur gr st) as [[text|e] st1]; cbn [snd] in Hd;
    [|cbn; congruence].
  destruct (makedirs _ _) as [fs1|] eqn:Hmk; [|cbn; congruence].
  apply makedirs_sep in Hmk.
  destruct (write_text fs1 out text) as [fs2|] eqn:Hw; cbn; [|congruence].
  apply write_text_sep in Hw. congruence.
Qed.

Lemma analyze_unity_material_state mat_path st :
  (analyze_unity_material mat_path st).2 = st.
Proof.
  unfold analyze_unity_material, read_material, bind, get, lift, ret, raise. cbn.
  destruct (read_utf8 _ _); [done| |done]. by destruct (read_latin1 _ _).
Qed.

Lemma convert_material_sep ur gr material_paths mat_file output_file st :
  sep (disk (convert_material ur gr material_paths mat_file output_file st).2)
  = sep (disk st).
Proof.
  unfold convert_material. unfold bind at 1, get. cbn beta iota. unfold bind at 1.
  pose proof (analyze_unity_material_state mat_file st) as Ha.
  destruct (analyze_unity_material mat_file st) as [[m|e] st1]; cbn [snd] in Ha; subst st1;
    [|done].
  unfold bind at 1.
  pose proof (generate_godot_material_sep m ur gr output_file st) as Hg.
  destruct (generate_godot_material m ur gr output_file st) as [[[]|e] st2];
    cbn [snd] in Hg; [|done].
  destruct (Path.relative_to _ _ _); [|done]. by unfold bind, print, ret.
Qed.

(** The materials loop returns when every material file has an output
    file: what goes wrong inside its [try] is caught. *)
Lemma convert_materials_returns input_dir output_dir ur gr mat_files :
  ∀ material_paths st,
    Forall (λ mat_file, is_Some (output_file_for (sep (disk st)) input_dir output_dir mat_file))
      mat_files →
    ∃ material_paths' st',
      convert_materials input_dir output_dir ur gr mat_files material_paths st
      = (Return material_paths', st') ∧
      sep (disk st') = sep (disk st).
Proof.
  induction mat_files as [|mat_file rest IH]; intros material_paths st Hall.
  { by exists material_paths, st. }
  apply Forall_cons in Hall as [[output_file Hout] Hall].
  cbn [convert_materials]. unfold bind at 1, get. cbn beta iota. rewrite Hout.
  unfold bind at 1, catch.
  pose proof (convert_material_sep ur gr material_paths mat_file output_file st) as Hs.
  destruct (convert_material ur gr material_paths mat_file output_file st)
    as [[material_paths1|e] st1]; cbn [snd] in Hs.
  - destruct (IH material_paths1 st1) as (mp & st' & Hrest & Hs'); [by rewrite Hs|].
    exists mp, st'. split; [done|congruence].
  - unfold bind at 1, print at 1. cbn beta iota. unfold ret at 1.
    match goal with |- context [convert_materials _ _ _ _ rest ?mp ?st0] =>
      destruct (IH mp st0) as (mp' & st' & Hrest & Hs'); [by rewrite <- Hs in Hall|] end.
    exists mp', st'. split; [done|]. cbn in Hs'. congruence.
Qed.

Lemma convert_meshes_total input_dir output_dir ur gr material_paths fbx_files :
  ∀ st, ∃ st', convert_meshes input_dir output_dir ur gr material_paths fbx_files st
               = (Return (), st').
Proof.
  induction fbx_files as [|fbx_file rest IH]; intros st; [by exists st|].
  destruct (convert_mesh_returns input_dir output_dir ur gr material_paths fbx_file st)
    as (st1 & H1).
  rewrite (DirectoryFacts.convert_meshes_step _ _ _ _ _ _ _ _ _ H1). apply IH.
Qed.

End LoopFacts.

(** X26. The meshes loop never stops on a mesh: whatever goes wrong while a
    scene is composed is caught, so the loop returns for every list of
    meshes, on any file system. *)
Theorem convert_meshes_returns (st : state)
  (input_dir output_dir unity_project_root godot_project_root : string)
  (material_paths : list (string * string)) (fbx_files : list string) :
  ∃ st', convert_meshes input_dir output_dir unity_project_root godot_project_root
           material_paths fbx_files st = (Return (), st').
Proof. apply LoopFacts.convert_meshes_total. Qed.

(** X27. [convert_directory] never raises on a well-formed file system: every
    material file the glob yields lies below the input directory, so its
    output file is defined, and what goes wrong for one material or one mesh
    is caught. *)
Theorem convert_directory_returns (st : state)
  (input_dir output_dir unity_project_root godot_project_root : string) :
  wf (disk st) = true →
  sep (disk st) = "/"%char ∨ sep (disk st) = backslash →
  ∃ st', convert_directory input_dir output_dir unity_project_root godot_project_root st
         = (Return (), st').
Proof.
  intros Hwf Hsep. unfold convert_directory.
  unfold bind at 1, get. cbn beta iota.
  unfold bind at 1, print at 1. cbn beta iota.
  unfold bind at 1, print at 1. cbn beta iota.
  unfold bind at 1.
  match goal with |- context [convert_materials _ _ _ _ ?files ?mp ?st0] =>
    destruct (LoopFacts.convert_materials_returns input_dir output_dir unity_project_root
                godot_project_root files mp st0) as (mp' & st1 & Hm & _) end.
  { cbn [disk]. apply Forall_forall. intros mat_file Hin.
    apply (GlobFacts.output_file_for_glob (disk st) input_dir output_dir ".mat");
      [done| |done].
    destruct Hsep as [-> | ->]; done. }
  rewrite Hm. unfold bind at 1, print at 1. cbn beta iota. unfold bind at 1.
  match goal with |- context [convert_meshes _ _ _ _ ?mp ?files ?st0] =>
    destruct (LoopFacts.convert_meshes_total input_dir output_dir unity_project_root
                godot_project_root mp files st0) as (st2 & Hf) end.
  rewrite Hf. unfold print. by eexists.
Qed.

Lemma convert_directory_returns_witness :
  ∃ st', convert_directory "/u/Assets" "/g/assets" "/u" "/g" Example.st0 = (Return (), st').
Proof.
  apply (convert_directory_returns Example.st0 "/u/Assets" "/g/assets" "/u" "/g");
    [reflexivity|by left].
Defined.

(** ** Every way a pattern matches *)

Module MatchFacts.
Import Regex RegexFacts AnalyzerFacts.

Lemma run_cat_elem r1 r2 s g x :
  x ∈ run (Cat r1 r2) s g → ∃ m, m ∈ run r1 s g ∧ x ∈ run r2 m.1 m.2.
Proof.
  cbn [run]. intros Hx%list_elem_of_In%in_flat_map. destruct Hx as (m & Hm & Hx).
  exists m. by rewrite !list_elem_of_In.
Qed.

Lemma run_group_elem i r s g x :
  x ∈ run (Group i r) s g →
  ∃ m, m ∈ run r s g ∧ x = (m.1, <[i := text_of (take (length s - length m.1) s)]> m.2).
Proof. cbn [run]. intros (m & -> & Hm)%list_elem_of_fmap. by exists m. Qed.

Lemma run_cls_elem p s g x :
  x ∈ run (Cls p) s g → ∃ c, s = c :: x.1 ∧ p c = true ∧ x.2 = g.
Proof.
  cbn [run]. destruct s as [|c s]; [by intros ?%elem_of_nil|].
  destruct (p c) eqn:Hc; [|by intros ?%elem_of_nil].
  intros ->%list_elem_of_singleton. by exists c.
Qed.

Lemma rounds_cls_elem p fuel : ∀ s g x,
  x ∈ rounds (run (Cls p)) fuel s g →
  ∃ w, s = w ++ x.1 ∧ forallb p w = true ∧ x.2 = g.
Proof.
  induction fuel as [|fuel IH]; intros s g x; cbn [rounds].
  - intros ->%list_elem_of_singleton. by exists [].
  - intros [Hx| ->%list_elem_of_singleton]%elem_of_app; [|by exists []].
    apply list_elem_of_In, in_flat_map in Hx as (m & Hm & Hx).
    apply list_elem_of_In, run_cls_elem in Hm as (c & -> & Hc & Hg).
    destruct (decide _); [|done]. apply list_elem_of_In, IH in Hx as (w & Hw & Hp & ->).
    exists (c :: w). unfold chars, captures in *. cbn [app forallb]. by rewrite Hw, Hc, Hp, Hg.
Qed.

Lemma run_star_cls_elem p s g x :
  x ∈ run (Star (Cls p)) s g → ∃ w, s = w ++ x.1 ∧ forallb p w = true ∧ x.2 = g.
Proof. apply rounds_cls_elem. Qed.

Lemma run_plus_cls_elem p s g x :
  x ∈ run (Plus (Cls p)) s g →
  ∃ w, w ≠ [] ∧ s = w ++ x.1 ∧ forallb p w = true ∧ x.2 = g.
Proof.
  intros (m & (c & -> & Hc & Hg)%run_cls_elem & (w & Hw & Hp & ->)%run_star_cls_elem)%run_cat_elem.
  exists (c :: w). unfold chars, captures in *. cbn [app forallb]. by rewrite Hw, Hc, Hp, Hg.
Qed.

Lemma run_rep_cls_elem p n : ∀ s g x,
  x ∈ run (Rep n (Cls p)) s g →
  ∃ w, length w = n ∧ s = w ++ x.1 ∧ forallb p w = true ∧ x.2 = g.
Proof.
  induction n as [|n IH]; intros s g x; cbn [Rep].
  - cbn [run]. intros ->%list_elem_of_singleton. by exists [].
  - intros (m & (c & -> & Hc & Hg)%run_cls_elem & (w & Hl & Hw & Hp & ->)%IH)%run_cat_elem.
    exists (c :: w). unfold chars, captures in *. cbn [app forallb length].
    by rewrite Hl, Hw, Hc, Hp, Hg.
Qed.

Lemma run_lit_elem l : ∀ s g x,
  x ∈ run (Lit l) s g → s = chars_of l ++ x.1 ∧ x.2 = g.
Proof.
  induction l as [|c l IH]; intros s g x; cbn [Lit].
  - cbn [run]. by intros ->%list_elem_of_singleton.
  - intros (m & (c' & -> & Hc & Hg)%run_cls_elem & (Hs & ->)%IH)%run_cat_elem.
    apply bool_decide_eq_true in Hc as ->. unfold chars, captures in *.
    cbn [chars_of String.list_ascii_of_string app]. by rewrite Hs, Hg.
Qed.

Lemma run_chr_elem c s g x : x ∈ run (Chr c) s g → s = c :: x.1 ∧ x.2 = g.
Proof. intros (c' & -> & ->%bool_decide_eq_true & Hg)%run_cls_elem. done. Qed.

Lemma text_of_app (a b : chars) : text_of (a ++ b) = text_of a +:+ text_of b.
Proof. unfold text_of. induction a as [|c a IH]; [done|]. cbn. by rewrite IH. Qed.

Lemma nonempty_text_of (w : chars) : w ≠ [] → nonempty (text_of w) = true.
Proof. by destruct w. Qed.

Lemma all_chars_text_of p (w : chars) : Spec.all_chars p (text_of w) = forallb p w.
Proof.
  change (forallb p (chars_of (text_of w)) = forallb p w). by rewrite chars_of_text_of.
Qed.

Lemma length_text_of (w : chars) : String.length (text_of w) = length w.
Proof. unfold text_of. induction w as [|c w IH]; [done|]. cbn. by rewrite IH. Qed.

(** What a match of the texture pattern has read, and the groups it
    leaves. *)
Lemma run_tex_pattern_elem s g x :
  x ∈ run tex_pattern s g →
  ∃ name gap1 gap2 fid gap3 guid,
    s = "_"%char :: name ++ ":"%char :: gap1 ++ chars_of "m_Texture:" ++ gap2 ++ fid
        ++ ","%char :: gap3 ++ guid ++ x.1 ∧
    name ≠ [] ∧ forallb is_word name = true ∧
    fid ≠ [] ∧ forallb is_digit fid = true ∧
    length guid = 32 ∧ forallb hex_lower guid = true ∧
    x.2 = <[3 := text_of guid]> (<[2 := text_of fid]> (<[1 := text_of name]> g)).
Proof.
  unfold tex_pattern, spaces, space, word, digit.
  intros (m1 & [Hs1 Hg1]%run_chr_elem & H)%run_cat_elem.
  apply run_cat_elem in H as (m2 & Hm2 & H).
  apply run_group_elem in Hm2 as (n2 & (name & Hname & Hs2 & Hw2 & Hg2)%run_plus_cls_elem & ->).
  apply run_cat_elem in H as (m3 & [Hs3 Hg3]%run_chr_elem & H).
  apply run_cat_elem in H as (m4 & (ws4 & Hs4 & _ & Hg4)%run_star_cls_elem & H).
  apply run_cat_elem in H as (m5 & [Hs5 Hg5]%run_chr_elem & H).
  apply run_cat_elem in H as (m6 & (ws6 & Hs6 & _ & Hg6)%run_star_cls_elem & H).
  apply run_cat_elem in H as (m7 & [Hs7 Hg7]%run_lit_elem & H).
  apply run_cat_elem in H as (m8 & (ws8 & Hs8 & _ & Hg8)%run_star_cls_elem & H).
  apply run_cat_elem in H as (m9 & [Hs9 Hg9]%run_lit_elem & H).
  apply run_cat_elem in H as (m10 & (ws10 & Hs10 & _ & Hg10)%run_star_cls_elem & H).
  apply run_cat_elem in H as (m11 & Hm11 & H).
  apply run_group_elem in Hm11
    as (n11 & (fid & Hfid & Hs11 & Hw11 & Hg11)%run_plus_cls_elem & ->).
  apply run_cat_elem in H as (m12 & [Hs12 Hg12]%run_chr_elem & H).
  apply run_cat_elem in H as (m13 & (ws13 & Hs13 & _ & Hg13)%run_star_cls_elem & H).
  apply run_cat_elem in H as (m14 & [Hs14 Hg14]%run_lit_elem & H).
  apply run_cat_elem in H as (m15 & (ws15 & Hs15 & _ & Hg15)%run_star_cls_elem & H).
  apply run_group_elem in H
    as (n16 & (guid & Hlen & Hs16 & Hw16 & Hg16)%run_rep_cls_elem & ->).
  destruct m1, n2, m3, m4, m5, m6, m7, m8, m9, m10, n11, m12, m13, m14,
    m15, n16.
  unfold chars, captures in *. cbn [fst snd] in *. simplify_eq.
  exists name, (ws4 ++ newline :: ws6), (ws8 ++ chars_of "{fileID:" ++ ws10), fid,
    (ws13 ++ chars_of "guid:" ++ ws15), guid.
  rewrite !take_consumed. repeat split; try done.
  by rewrite <- !List.app_assoc.
Qed.

Lemma match_here_elem r s m :
  match_here r s = Some m → (after m, groups m) ∈ run r s ∅.
Proof.
  unfold match_here. destruct (run r s ∅) as [|[rest g] l]; [done|].
  intros [= <-]. apply elem_of_cons. by left.
Qed.

Lemma search_elem r s m :
  search r s = Some m → ∃ pre s', s = pre ++ s' ∧ match_here r s' = Some m.
Proof.
  induction s as [|c s IH]; cbn [search].
  - destruct (match_here r []) eqn:Hm; [|done]. intros [= ->]. by exists [], [].
  - destruct (match_here r (c :: s)) eqn:Hm.
    + intros [= ->]. by exists [], (c :: s).
    + intros (pre & s' & -> & Hs')%IH. by exists (c :: pre), s'.
Qed.

Lemma rounds_suffix step :
  (∀ s g x, x ∈ step s g → ∃ w, s = w ++ x.1) →
  ∀ fuel s g x, x ∈ rounds step fuel s g → ∃ w, s = w ++ x.1.
Proof.
  intros Hstep. induction fuel as [|fuel IH]; intros s g x; cbn [rounds].
  - intros ->%list_elem_of_singleton. by exists [].
  - intros [Hx| ->%list_elem_of_singleton]%elem_of_app; [|by exists []].
    apply list_elem_of_In, in_flat_map in Hx as (m & Hm & Hx).
    apply list_elem_of_In, Hstep in Hm as (w & ->).
    destruct (decide _); [|done]. apply list_elem_of_In, IH in Hx as (w' & Hw').
    exists (w ++ w'). unfold chars in *. by rewrite Hw', List.app_assoc.
Qed.

(** A match reads a prefix of the text. *)
Lemma run_suffix r : ∀ s g x, x ∈ run r s g → ∃ w, s = w ++ x.1.
Proof.
  induction r as [|p|r1 IH1 r2 IH2|r IH|i r IH]; intros s g x.
  - cbn [run]. intros ->%list_elem_of_singleton. by exists [].
  - intros (c & -> & _)%run_cls_elem. by exists [c].
  - intros (m & (w & ->)%IH1 & (w' & Hw')%IH2)%run_cat_elem.
    exists (w ++ w'). unfold chars in *. by rewrite Hw', List.app_assoc.
  - cbn [run]. by apply rounds_suffix.
  - intros (m & (w & ->)%IH & ->)%run_group_elem. by exists w.
Qed.

(** The matches [finditer] gives are matches at places of the text. *)
Lemma finditer_elem r fuel : ∀ s m,
  m ∈ finditer_fuel fuel r s → ∃ pre s', s = pre ++ s' ∧ match_here r s' = Some m.
Proof.
  induction fuel as [|fuel IH]; intros s m; cbn [finditer_fuel];
    [by intros ?%elem_of_nil|].
  destruct (search r s) as [m0|] eqn:Hs; [|by intros ?%elem_of_nil].
  intros [->|Hm]%elem_of_cons; [by apply search_elem|].
  apply search_elem in Hs as (pre0 & s0 & -> & Hm0).
  apply match_here_elem, run_suffix in Hm0 as (w & Hw). cbn [fst] in Hw.
  destruct (decide _) as [Hlt|Hge].
  - apply IH in Hm as (pre & s' & Hafter & Hm). exists (pre0 ++ w ++ pre), s'.
    split; [|done]. rewrite Hw, Hafter. by rewrite <- !List.app_assoc.
  - destruct (after m0) as [|c rest] eqn:Hafter; [by apply elem_of_nil in Hm|].
    apply IH in Hm as (pre & s' & -> & Hm). exists (pre0 ++ w ++ c :: pre), s'.
    split; [|done]. rewrite Hw. by rewrite <- !List.app_assoc.
Qed.

Lemma contains_chars (l : string) (pre post : chars) :
  contains l (text_of (pre ++ chars_of l ++ post)) = true.
Proof.
  apply contains_spec. exists (text_of pre), (text_of post).
  by rewrite !text_of_app, text_of_chars_of.
Qed.

(** A text without the marker [m_Texture:] holds no match of the texture
    pattern. *)
Lemma finditer_tex_pattern_absent (content : string) :
  contains "m_Texture:" content = false → finditer tex_pattern (chars_of content) = [].
Proof.
  intros Hc. destruct (finditer tex_pattern (chars_of content)) as [|m l] eqn:Hf; [done|].
  assert (m ∈ finditer tex_pattern (chars_of content)) as Hm
    by (rewrite Hf; apply elem_of_cons; by left).
  apply finditer_elem in Hm as (pre & s' & Hs & Hm).
  apply match_here_elem, run_tex_pattern_elem in Hm
    as (name & gap1 & gap2 & fid & gap3 & guid & Hs' & _).
  assert (chars_of content
          = (pre ++ "_"%char :: name ++ ":"%char :: gap1) ++ chars_of "m_Texture:"
            ++ (gap2 ++ fid ++ ","%char :: gap3 ++ guid ++ after m)) as Heq.
  { rewrite Hs, Hs'. cbn [fst].
    repeat (rewrite <- List.app_assoc || rewrite <- List.app_comm_cons). done. }
  rewrite <- (text_of_chars_of content), Heq, contains_chars in Hc. done.
Qed.

(** The key of a match of the texture pattern stands in the text between an
    underscore and a colon. *)
Lemma match_tex_pattern_key (content : string) pre s m :
  chars_of content = pre ++ s → match_here tex_pattern s = Some m →
  contains ("_" +:+ group m 1 +:+ ":") content = true.
Proof.
  intros Hs Hm. apply match_here_elem, run_tex_pattern_elem in Hm
    as (name & gap1 & gap2 & fid & gap3 & guid & Hs' & _ & _ & _ & _ & _ & _ & Hgr).
  cbn [fst snd] in Hs', Hgr. unfold group, captures in *. rewrite Hgr.
  repeat (rewrite lookup_insert_eq || rewrite lookup_insert_ne by done).
  cbn [default from_option id].
  assert (chars_of content
          = pre ++ chars_of ("_" +:+ text_of name +:+ ":")
            ++ (gap1 ++ chars_of "m_Texture:" ++ gap2 ++ fid ++ ","%char :: gap3 ++ guid
                ++ after m)) as Heq.
  { rewrite Hs, Hs', !chars_of_app, chars_of_text_of.
    cbn [chars_of String.list_ascii_of_string app].
    repeat (rewrite <- List.app_assoc || rewrite <- List.app_comm_cons). done. }
  rewrite <- (text_of_chars_of content), Heq. apply contains_chars.
Qed.

(** The groups of a match of the texture pattern. *)
Lemma match_tex_pattern_groups s m :
  match_here tex_pattern s = Some m →
  nonempty (group m 1) = true ∧ Spec.all_chars is_word (group m 1) = true ∧
  nonempty (group m 2) = true ∧ Spec.all_chars is_digit (group m 2) = true ∧
  String.length (group m 3) = 32 ∧ Spec.all_chars hex_lower (group m 3) = true.
Proof.
  intros Hm. apply match_here_elem, run_tex_pattern_elem in Hm
    as (name & gap1 & gap2 & fid & gap3 & guid & _ & Hn & Hnw & Hf & Hfd & Hl & Hg & Hgr).
  cbn [snd] in Hgr. unfold group, captures in *. rewrite Hgr.
  repeat (rewrite lookup_insert_eq || rewrite lookup_insert_ne by done).
  cbn [default from_option id].
  rewrite !all_chars_text_of, length_text_of.
  repeat split; try done; by apply nonempty_text_of.
Qed.

End MatchFacts.

Module TextureFacts.
Import Regex MatchFacts.

Lemma fold_textures_inv (P : string → asset_ref → Prop) (ms : list found) :
  (∀ m, m ∈ ms → group m 2 ≠ "0" →
        P (group m 1) {| fileID := group m 2; guid := group m 3 |}) →
  ∀ acc : gmap string asset_ref, (∀ k t, acc !! k = Some t → P k t) →
  ∀ k t,
    fold_left
      (λ (textures : gmap string asset_ref) m,
         if decide (group m 2 = "0") then textures
         else <[group m 1 := {| fileID := group m 2; guid := group m 3 |}]> textures)
      ms acc !! k = Some t → P k t.
Proof.
  induction ms as [|m ms IH]; intros Hms acc Hacc k t; cbn [fold_left]; [apply Hacc|].
  apply IH.
  - intros m' Hm'. apply Hms, elem_of_cons. by right.
  - intros k' t'. destruct (decide (group m 2 = "0")) as [|Hne]; [apply Hacc|].
    destruct (decide (k' = group m 1)) as [->|Hk].
    + rewrite lookup_insert_eq. intros [= <-]. apply Hms; [apply elem_of_cons; by left|done].
    + rewrite lookup_insert_ne by done. apply Hacc.
Qed.

(** A key of the texture table stands in the text between an underscore and
    a colon. *)
Lemma parse_textures_key_occurs (content key : string) (tex : asset_ref) :
  parse_textures content !! key = Some tex →
  contains ("_" +:+ key +:+ ":") content = true.
Proof.
  unfold parse_textures.
  apply (fold_textures_inv (λ key _, contains ("_" +:+ key +:+ ":") content = true)).
  - intros m (pre & s' & Hs & Hm)%finditer_elem _.
    by eapply match_tex_pattern_key.
  - intros k t. by rewrite lookup_empty.
Qed.

End TextureFacts.

(** X8. Whatever the material file holds, every texture the analysis
    records is one the pattern validated: its key is a non-empty run of
    word characters that stands in the file between an underscore and a
    colon, its file identifier a run of digits other than [0] (unassigned
    slots are skipped), and its GUID thirty-two lower-case hexadecimal
    digits. *)
Theorem parse_textures_entries (content key : string) (tex : asset_ref) :
  parse_textures content !! key = Some tex →
  contains ("_" +:+ key +:+ ":") content = true ∧
  nonempty key = true ∧ Spec.all_chars is_word key = true ∧
  nonempty (fileID tex) = true ∧ Spec.all_chars is_digit (fileID tex) = true ∧
  String.eqb (fileID tex) "0" = false ∧
  String.length (guid tex) = 32 ∧ Spec.all_chars hex_lower (guid tex) = true.
Proof.
  unfold parse_textures.
  apply (TextureFacts.fold_textures_inv
           (λ key tex,
              contains ("_" +:+ key +:+ ":") content = true ∧
              nonempty key = true ∧ Spec.all_chars is_word key = true ∧
              nonempty (fileID tex) = true ∧ Spec.all_chars is_digit (fileID tex) = true ∧
              String.eqb (fileID tex) "0" = false ∧
              String.length (guid tex) = 32 ∧ Spec.all_chars hex_lower (guid tex) = true)).
  - intros m (pre & s' & Hs & Hm)%MatchFacts.finditer_elem Hne.
    destruct (MatchFacts.match_tex_pattern_groups _ _ Hm) as (H1 & H2 & H3 & H4 & H5 & H6).
    cbn [fileID guid]. repeat split; try done; [|by apply String.eqb_neq].
    by eapply MatchFacts.match_tex_pattern_key.
  - intros k t. by rewrite lookup_empty.
Qed.

Lemma parse_textures_entries_witness :
  contains ("_" +:+ "MainTex" +:+ ":") Example.texture_slot = true ∧
  nonempty "MainTex" = true ∧ Spec.all_chars is_word "MainTex" = true ∧
  nonempty "2800000" = true ∧ Spec.all_chars is_digit "2800000" = true ∧
  String.eqb "2800000" "0" = false ∧
  String.length Example.guid_wood = 32 ∧ Spec.all_chars hex_lower Example.guid_wood = true.
Proof.
  exact (parse_textures_entries Example.texture_slot "MainTex"
           {| fileID := "2800000"; guid := Example.guid_wood |} eq_refl).
Defined.

(** X13. A text that holds none of the markers the analysis looks for
    gives the default record: the name [Unknown], no textures, scalars or
    colours, and empty keywords. *)
Theorem analyze_content_defaults (mat_path content : string) :
  contains "m_Name: " content = false →
  contains "m_Texture:" content = false →
  contains "m_Floats:" content = false →
  contains "m_Colors:" content = false →
  contains "m_ShaderKeywords:" content = false →
  analyze_content mat_path content
  = Return {| name := "Unknown"; path := mat_path; textures := ∅; floats := ∅;
              colors := ∅; shader_keywords := "" |}.
Proof.
  intros Hname Htex Hfloats Hcolors Hkeys. unfold analyze_content.
  rewrite (AnalyzerFacts.parse_floats_absent _ Hfloats).
  unfold parse_colors, parse_name, parse_keywords, parse_textures.
  unfold color_pattern, name_pattern, keywords_pattern.
  rewrite !AnalyzerFacts.search_lit_absent by done.
  by rewrite MatchFacts.finditer_tex_pattern_absent.
Qed.

Lemma analyze_content_defaults_witness :
  analyze_content "Empty.mat" ""
  = Return {| name := "Unknown"; path := "Empty.mat"; textures := ∅; floats := ∅;
              colors := ∅; shader_keywords := "" |}.
Proof.
  exact (analyze_content_defaults "Empty.mat" "" eq_refl eq_refl eq_refl eq_refl eq_refl).
Defined.

Module LineFacts.
Import Regex RegexFacts AnalyzerFacts MatchFacts.

Lemma starts_outside_stops p (s : string) (rest : chars) :
  starts_outside p s = true → (s = "" → stops p rest) → stops p (chars_of s ++ rest).
Proof.
  destruct s as [|c s]; cbn; [auto|]. intros Hc _. by apply negb_true_iff.
Qed.

Lemma starts_outside_stops_end p (s : string) :
  starts_outside p s = true → stops p (chars_of s).
Proof.
  intros H. rewrite <- (List.app_nil_r (chars_of s)). by apply starts_outside_stops.
Qed.

Lemma starts_outside_app p (x y : string) :
  starts_outside p (x +:+ y) = true → stops p (chars_of x ++ chars_of y).
Proof. rewrite <- chars_of_app. apply starts_outside_stops_end. Qed.

(** The marker of the name cannot start inside a text that does not hold
    it, even when the marker follows that text. *)
Lemma name_marker_border (b : string) (s : chars) :
  b ≠ "" → startswith "m_Name: " b = false →
  starts_with (chars_of "m_Name: ") (chars_of b ++ chars_of "m_Name: " ++ s) = false.
Proof.
  intros Hb Hs.
  destruct b as [|c1 b]; [done|].
  repeat match goal with
         | b : string |- _ =>
             destruct b as [|? b]; cbn in Hs |- *;
             repeat (case_decide; subst; cbn in Hs |- *; try done);
             repeat (case_bool_decide; subst; cbn in Hs |- *; try done)
         end.
Qed.

Lemma keywords_marker_border (b : string) (s : chars) :
  b ≠ "" → startswith "m_ShaderKeywords:" b = false →
  starts_with (chars_of "m_ShaderKeywords:")
    (chars_of b ++ chars_of "m_ShaderKeywords:" ++ s) = false.
Proof.
  intros Hb Hs.
  destruct b as [|c1 b]; [done|].
  repeat match goal with
         | b : string |- _ =>
             destruct b as [|? b]; cbn in Hs |- *;
             repeat (case_decide; subst; cbn in Hs |- *; try done);
             repeat (case_bool_decide; subst; cbn in Hs |- *; try done)
         end.
Qed.

Lemma search_here r s m : match_here r s = Some m → search r s = Some m.
Proof. intros H. destruct s; cbn [search]; by rewrite H. Qed.

Lemma match_here_name_pattern (line post : string) :
  nonempty line = true → Spec.all_chars not_newline line = true →
  starts_outside not_newline post = true →
  match_here name_pattern (chars_of "m_Name: " ++ chars_of line ++ chars_of post)
  = Some {| groups := <[1 := line]> ∅; after := chars_of post |}.
Proof.
  intros Hne Hline Hpost.
  rewrite (match_here_hd _ _ (chars_of post, <[1 := line]> ∅)); [done|].
  unfold name_pattern. eapply hd_cat; [apply hd_lit|]. cbn [fst snd].
  erewrite hd_group; cycle 1.
  { apply hd_plus_cls; [by apply nonempty_chars|done|by apply starts_outside_stops_end]. }
  cbn [fst snd]. by rewrite take_consumed, text_of_chars_of.
Qed.

Lemma match_here_keywords_pattern (gap line post : string) :
  Spec.all_chars is_space gap = true → Spec.all_chars not_newline line = true →
  starts_outside is_space (line +:+ post) = true →
  starts_outside not_newline post = true →
  match_here keywords_pattern
    (chars_of "m_ShaderKeywords:" ++ chars_of gap ++ chars_of line ++ chars_of post)
  = Some {| groups := <[1 := line]> ∅; after := chars_of post |}.
Proof.
  intros Hgap Hline Hstart Hpost.
  rewrite (match_here_hd _ _ (chars_of post, <[1 := line]> ∅)); [done|].
  unfold keywords_pattern, spaces, space. eapply hd_cat; [apply hd_lit|]. cbn [fst snd].
  eapply hd_cat; [apply hd_star_cls; [done|by apply starts_outside_app]|]. cbn [fst snd].
  erewrite hd_group; cycle 1.
  { apply hd_star_cls; [done|by apply starts_outside_stops_end]. }
  cbn [fst snd]. by rewrite take_consumed, text_of_chars_of.
Qed.

Lemma floats_of_lines_raises ls :
  Exists (λ l, PyFloat.float_of_str (Spec.number l) = None) ls →
  ∀ acc, Spec.floats_of_lines ls acc = Raise ValueError_.
Proof.
  induction 1 as [l ls Hl|l ls _ IH]; intros acc; cbn [Spec.floats_of_lines].
  - by rewrite Hl.
  - by destruct (PyFloat.float_of_str (Spec.number l)).
Qed.

End LineFacts.

(** X7. The name of a material is the rest of the line after the first
    [m_Name: ] of the file, without the white space around it. *)
Theorem parse_name_line (pre line post : string) :
  contains "m_Name: " pre = false →
  nonempty line = true → Spec.all_chars not_newline line = true →
  starts_outside not_newline post = true →
  parse_name (pre +:+ "m_Name: " +:+ line +:+ post) = strip line.
Proof.
  intros Hpre Hne Hline Hpost. unfold parse_name.
  rewrite !AnalyzerFacts.chars_of_app.
  unfold name_pattern at 1. rewrite AnalyzerFacts.search_lit_skip.
  - fold name_pattern.
    by rewrite (LineFacts.search_here _ _ _
                  (LineFacts.match_here_name_pattern line post Hne Hline Hpost)).
  - intros a b -> Hb. apply LineFacts.name_marker_border; [done|].
    by eapply AnalyzerFacts.contains_suffix.
Qed.

Lemma parse_name_line_witness :
  parse_name ("Material:" +:+ nl +:+ "  " +:+ "m_Name: " +:+ "Wood Planks " +:+ nl)
  = strip "Wood Planks ".
Proof.
  apply (parse_name_line ("Material:" +:+ nl +:+ "  ") "Wood Planks " nl); reflexivity.
Defined.

(** X12. The shader keywords are the first text after the marker
    [m_ShaderKeywords:] that is not white space, up to the end of its line
    and stripped: the white space skipped after the marker may hold line
    breaks, so when the marker's own line is blank the keywords are the next
    line of the file. *)
Theorem parse_keywords_line (pre gap line post : string) :
  contains "m_ShaderKeywords:" pre = false →
  Spec.all_chars is_space gap = true →
  Spec.all_chars not_newline line = true →
  starts_outside is_space (line +:+ post) = true →
  starts_outside not_newline post = true →
  parse_keywords (pre +:+ "m_ShaderKeywords:" +:+ gap +:+ line +:+ post) = strip line.
Proof.
  intros Hpre Hgap Hline Hstart Hpost. unfold parse_keywords.
  rewrite !AnalyzerFacts.chars_of_app.
  unfold keywords_pattern at 1. rewrite AnalyzerFacts.search_lit_skip.
  - fold keywords_pattern.
    by rewrite (LineFacts.search_here _ _ _
                  (LineFacts.match_here_keywords_pattern gap line post
                     Hgap Hline Hstart Hpost)).
  - intros a b -> Hb. apply LineFacts.keywords_marker_border; [done|].
    by eapply AnalyzerFacts.contains_suffix.
Qed.

Lemma parse_keywords_line_witness :
  parse_keywords ("  " +:+ "m_ShaderKeywords:" +:+ (" " +:+ nl +:+ "  ")
                  +:+ "m_LightmapFlags: 4" +:+ nl)
  = strip "m_LightmapFlags: 4".
Proof.
  apply (parse_keywords_line "  " (" " +:+ nl +:+ "  ") "m_LightmapFlags: 4" nl);
    reflexivity.
Defined.

(** X10. A scalar of the floats block whose text passes the pattern
    (digits and dots) but is no number, such as [1.2.3], makes the analysis
    of the file raise [ValueError]: no record is returned. *)
Theorem malformed_scalar_raises
  (mat_path pre gap : string) (ls : list Spec.float_line) (post : string) :
  contains "m_Floats:" pre = false →
  Spec.all_chars is_space gap = true →
  forallb Spec.line_ok ls = true →
  Spec.ends_block post = true →
  Exists (λ l, PyFloat.float_of_str (Spec.number l) = None) ls →
  analyze_content mat_path
    (pre +:+ "m_Floats:" +:+ gap +:+ Spec.render_lines ls +:+ post)
  = Raise ValueError_.
Proof.
  intros Hpre Hgap Hls Hpost Hbad. unfold analyze_content.
  rewrite AnalyzerFacts.parse_floats_block; [|done|done|by destruct Hbad|done|done].
  by rewrite LineFacts.floats_of_lines_raises.
Qed.

Lemma malformed_scalar_raises_witness :
  analyze_content "Bad.mat"
    ("" +:+ "m_Floats:" +:+ nl
     +:+ Spec.render_lines
           [ {| Spec.after_dash := " "; Spec.prop_name := "Cutoff"; Spec.after_colon := " ";
                Spec.number := "1.2.3"; Spec.trailing := nl |} ]
     +:+ "")
  = Raise ValueError_.
Proof.
  apply (malformed_scalar_raises "Bad.mat" "" nl
           [ {| Spec.after_dash := " "; Spec.prop_name := "Cutoff"; Spec.after_colon := " ";
                Spec.number := "1.2.3"; Spec.trailing := nl |} ] "");
    try reflexivity.
  apply Exists_cons_hd. reflexivity.
Defined.

Module SlotFacts.
Import Regex RegexFacts AnalyzerFacts MatchFacts.

Lemma run_star_cls_cons p c rest g :
  p c = true →
  run (Star (Cls p)) (c :: rest) g = run (Star (Cls p)) rest g ++ [(c :: rest, g)].
Proof.
  intros Hc. cbn [run length rounds]. rewrite Hc. cbn [flat_map fst snd].
  rewrite decide_True by (cbn; lia). by rewrite List.app_nil_r.
Qed.

Lemma run_star_cls_stop p s g : stops p s → run (Star (Cls p)) s g = [(s, g)].
Proof. intros Hs. cbn [run]. by apply rounds_stop, run_cls_stops. Qed.

Lemma head_app_some {A} (l1 l2 : list A) x : head l1 = Some x → head (l1 ++ l2) = Some x.
Proof. by destruct l1. Qed.

(** After white space that does not break the line, no line break is
    found, however much of the white space is given back. *)
Lemma newline_after_indent r indent s g :
  forallb is_indent indent = true → stops is_space s →
  flat_map (λ m, run (Cat (Chr newline) r) m.1 m.2) (run (Star (Cls is_space)) (indent ++ s) g)
  = [].
Proof.
  intros Hind Hs. induction indent as [|c indent IH]; cbn [app].
  - rewrite run_star_cls_stop by done. cbn [flat_map fst snd]. rewrite List.app_nil_r.
    cbn [run]. rewrite run_chr_other; [done|].
    destruct s as [|c s]; [done|]. cbn in Hs |- *. apply bool_decide_eq_false.
    intros ->. vm_compute in Hs. congruence.
  - cbn [forallb] in Hind. apply andb_true_iff in Hind as [Hc Hind].
    unfold is_indent in Hc. apply andb_true_iff in Hc as [Hsp Hnl].
    rewrite run_star_cls_cons by done. rewrite flat_map_app, IH by done.
    cbn [flat_map fst snd app]. rewrite List.app_nil_r. cbn [run].
    rewrite run_chr_other; [done|]. cbn. unfold not_newline in Hnl.
    by apply negb_true_iff in Hnl.
Qed.

(** The white space before the last line break is skipped, the line break
    is read, and the match goes on after it. *)
Lemma hd_spaces_newline r gap indent s g x :
  forallb is_space gap = true → forallb is_indent indent = true → stops is_space s →
  hd_run r (indent ++ s) g = Some x →
  hd_run (Cat spaces (Cat (Chr newline) r)) (gap ++ newline :: indent ++ s) g = Some x.
Proof.
  intros Hgap Hind Hs Hx. unfold hd_run, spaces, space in *.
  change (run (Cat (Star (Cls is_space)) (Cat (Chr newline) r)) ?t g)
    with (flat_map (λ m, run (Cat (Chr newline) r) m.1 m.2) (run (Star (Cls is_space)) t g)).
  induction gap as [|c gap IH]; cbn [app].
  - rewrite run_star_cls_cons by done. rewrite flat_map_app, newline_after_indent by done.
    cbn [flat_map fst snd app]. rewrite List.app_nil_r.
    change (run (Cat (Chr newline) r) (newline :: indent ++ s) g)
      with (flat_map (λ m, run r m.1 m.2) (run (Chr newline) (newline :: indent ++ s) g)).
    unfold Chr. cbn [run]. rewrite bool_decide_eq_true_2 by done.
    cbn [flat_map fst snd]. by rewrite List.app_nil_r.
  - cbn [forallb] in Hgap. apply andb_true_iff in Hgap as [Hc Hgap].
    rewrite run_star_cls_cons by done. rewrite flat_map_app.
    apply head_app_some. by apply IH.
Qed.

Lemma hd_rep_cls p n : ∀ w s g,
  length w = n → forallb p w = true → hd_run (Rep n (Cls p)) (w ++ s) g = Some (s, g).
Proof.
  induction n as [|n IH]; intros w s g Hl Hw.
  - by destruct w.
  - destruct w as [|c w]; [done|]. cbn [forallb] in Hw.
    apply andb_true_iff in Hw as [Hc Hw]. cbn [Rep app].
    eapply hd_cat; [by apply hd_cls|]. cbn [fst snd]. apply IH; [|done].
    cbn in Hl. lia.
Qed.

Lemma match_here_chr_miss c r s :
  stops (λ x, bool_decide (x = c)) s → match_here (Cat (Chr c) r) s = None.
Proof. intros Hs. unfold match_here. cbn [run]. by rewrite run_chr_other. Qed.

(** The search passes over a text that does not hold the first character
    of the pattern. *)
Lemma search_chr_skip c r (pre : string) (s : chars) :
  contains (String c "") pre = false →
  search (Cat (Chr c) r) (chars_of pre ++ s) = search (Cat (Chr c) r) s.
Proof.
  induction pre as [|x pre IH]; [done|]. rewrite ResPathFacts.contains_char_cons.
  intros [Hx Hpre]%orb_false_iff. apply bool_decide_eq_false in Hx.
  cbn [chars_of String.list_ascii_of_string app search].
  rewrite match_here_chr_miss; [by apply IH|]. cbn. apply bool_decide_eq_false. congruence.
Qed.

Lemma finditer_fuel_tex_pattern_absent fuel (content : string) :
  contains "m_Texture:" content = false →
  finditer_fuel fuel tex_pattern (chars_of content) = [].
Proof.
  intros Hc. destruct (finditer_fuel fuel tex_pattern (chars_of content)) as [|m l] eqn:Hf;
    [done|].
  assert (m ∈ finditer_fuel fuel tex_pattern (chars_of content)) as Hm
    by (rewrite Hf; apply elem_of_cons; by left).
  apply finditer_elem in Hm as (pre & s' & Hs & Hm).
  pose proof (match_tex_pattern_key content pre s' m Hs Hm) as Hkey.
  apply match_here_elem, run_tex_pattern_elem in Hm
    as (name & gap1 & gap2 & fid & gap3 & guid & Hs' & _).
  assert (chars_of content
          = (pre ++ "_"%char :: name ++ ":"%char :: gap1) ++ chars_of "m_Texture:"
            ++ (gap2 ++ fid ++ ","%char :: gap3 ++ guid ++ after m)) as Heq.
  { rewrite Hs, Hs'. cbn [fst].
    repeat (rewrite <- List.app_assoc || rewrite <- List.app_comm_cons). done. }
  rewrite <- (text_of_chars_of content), Heq, contains_chars in Hc. done.
Qed.

Lemma stops_first p (x : string) (rest : chars) :
  nonempty x = true → starts_outside p x = true → stops p (chars_of x ++ rest).
Proof. destruct x as [|c x]; [done|]. cbn. intros _ Hc. by apply negb_true_iff. Qed.

Lemma all_chars_first p q (x : string) :
  Spec.all_chars p x = true → (∀ c, p c = true → q c = false) → starts_outside q x = true.
Proof.
  destruct x as [|c x]; [done|]. unfold Spec.all_chars. cbn.
  intros [Hc _]%andb_true_iff Hpq. by rewrite (Hpq c Hc).
Qed.

Lemma digit_not_space c : is_digit c = true → is_space c = false.
Proof. destruct c as [[] [] [] [] [] [] [] []]; vm_compute; congruence. Qed.

Lemma hex_not_space c : hex_lower c = true → is_space c = false.
Proof. destruct c as [[] [] [] [] [] [] [] []]; vm_compute; congruence. Qed.

(** The match of the texture pattern at a slot. *)
Lemma match_here_texture_entry (name indent fid guid : string) (rest : chars) :
  nonempty name = true → Spec.all_chars is_word name = true →
  Spec.all_chars is_indent indent = true →
  nonempty fid = true → Spec.all_chars is_digit fid = true →
  String.length guid = 32 → Spec.all_chars hex_lower guid = true →
  match_here tex_pattern (chars_of (texture_entry name indent fid guid) ++ rest)
  = Some {| groups := <[3 := guid]> (<[2 := fid]> (<[1 := name]> ∅)); after := rest |}.
Proof.
  intros Hname Hword Hind Hfid Hdig Hlen Hhex.
  rewrite (match_here_hd _ _ (rest, <[3 := guid]> (<[2 := fid]> (<[1 := name]> ∅))));
    [done|].
  unfold texture_entry. rewrite !chars_of_app.
  repeat (rewrite <- List.app_assoc || rewrite <- List.app_comm_cons).
  unfold tex_pattern, word, digit.
  eapply hd_cat; [apply hd_chr|]. cbn [fst snd app].
  eapply hd_cat.
  { apply hd_group, hd_plus_cls; [by apply nonempty_chars|done|done]. }
  cbn [fst snd]. rewrite take_consumed, text_of_chars_of.
  eapply hd_cat; [apply hd_chr|]. cbn [fst snd].
  change (chars_of nl ++ ?t) with ([] ++ newline :: t).
  apply hd_spaces_newline; [reflexivity|exact Hind|reflexivity|].
  unfold spaces, space.
  eapply hd_cat.
  { apply hd_star_cls; [|reflexivity]. unfold Spec.all_chars in Hind.
    apply forallb_forall. intros c Hc. rewrite forallb_forall in Hind.
    apply Hind in Hc. unfold is_indent in Hc. by apply andb_true_iff in Hc as [? _]. }
  cbn [fst snd].
  change (chars_of "m_Texture: {fileID: " ++ ?t)
    with (chars_of "m_Texture:" ++ [" "%char] ++ chars_of "{fileID:" ++ [" "%char] ++ t).
  eapply hd_cat; [apply hd_lit|]. cbn [fst snd].
  eapply hd_cat; [apply hd_star_cls; reflexivity|]. cbn [fst snd].
  eapply hd_cat; [apply hd_lit|]. cbn [fst snd].
  eapply hd_cat.
  { apply hd_star_cls; [reflexivity|]. apply stops_first; [done|].
    eapply all_chars_first; [exact Hdig|]. apply digit_not_space. }
  cbn [fst snd].
  change (chars_of ", guid: " ++ ?t)
    with (","%char :: [" "%char] ++ chars_of "guid:" ++ [" "%char] ++ t).
  eapply hd_cat.
  { apply hd_group, hd_plus_cls; [by apply nonempty_chars|done|done]. }
  cbn [fst snd]. rewrite take_consumed, text_of_chars_of.
  eapply hd_cat; [apply hd_chr|]. cbn [fst snd].
  eapply hd_cat; [apply hd_star_cls; reflexivity|]. cbn [fst snd].
  eapply hd_cat; [apply hd_lit|]. cbn [fst snd].
  eapply hd_cat.
  { apply hd_star_cls; [reflexivity|]. apply stops_first.
    - destruct guid; [done|done].
    - eapply all_chars_first; [exact Hhex|]. apply hex_not_space. }
  cbn [fst snd]. erewrite hd_group; cycle 1.
  { apply hd_rep_cls; [|done]. rewrite <- Hlen. clear. unfold chars_of.
    induction guid as [|c guid IH]; [done|]. cbn. by rewrite IH. }
  cbn [fst snd]. by rewrite take_consumed, text_of_chars_of.
Qed.

End SlotFacts.

Module PipelineFacts.

Lemma contains_trans (a b c : string) :
  contains a b = true → contains b c = true → contains a c = true.
Proof.
  rewrite !contains_spec. intros (p1 & q1 & ->) (p2 & q2 & ->).
  exists (p2 +:+ p1), (q1 +:+ q2). by rewrite !append_assoc.
Qed.

Lemma analyze_content_textures mat_path content m :
  analyze_content mat_path content = Return m → textures m = parse_textures content.
Proof.
  unfold analyze_content. destruct (parse_floats content); [|done].
  destruct (parse_colors content); [|done]. by intros [= <-].
Qed.

Lemma translate_properties_plain m ur gr table :
  Forall (λ e, textures m !! e.1 = None) table →
  ∀ tres_content st, ∃ text,
    translate_properties m ur gr table tres_content st = (Return text, st).
Proof.
  induction 1 as [|[up gp] table Hup _ IH]; intros acc st; [by exists acc|].
  destruct (SimilarFacts.translate_property_plain m m ur gr up gp st)
    as (piece & Hp & _); try done.
  rewrite (SimilarFacts.translate_properties_cons _ _ _ _ _ _ _ _ _ _ Hp). apply IH.
Qed.

End PipelineFacts.

(** X15. The analysis records a texture under a key of the
    property table only when the file writes the property with two
    underscores. For a record analysed from a file that holds no double
    underscore, no entry of the table is a texture, and the translation
    builds its text without a call of the resolver or the locator: the state
    is left untouched. *)
Theorem analyzed_textures_not_translated
  (mat_path content ur gr : string) (m : material) (st : state) :
  contains "__" content = false →
  analyze_content mat_path content = Return m →
  Forall (λ e, textures m !! e.1 = None) property_mappings ∧
  ∃ text, material_text m ur gr st = (Return text, st).
Proof.
  intros Hdouble Hm.
  assert (Forall (λ e, textures m !! e.1 = None) property_mappings) as Hnone.
  { rewrite (PipelineFacts.analyze_content_textures _ _ _ Hm).
    assert (Forall (λ e : string * string, startswith "_" e.1 = true) property_mappings)
      as Hkeys by (repeat constructor).
    eapply Forall_impl; [exact Hkeys|]. intros [up gp] Hup. cbn [fst] in *.
    destruct (parse_textures content !! up) as [tex|] eqn:Htex; [|done].
    apply TextureFacts.parse_textures_key_occurs in Htex as Hocc.
    apply startswith_spec in Hup as [rest ->].
    assert (contains "__" ("_" +:+ ("_" +:+ rest) +:+ ":") = true) as Hin.
    { apply contains_spec. exists "", (rest +:+ ":"). reflexivity. }
    by rewrite (PipelineFacts.contains_trans "__" _ _ Hin Hocc) in Hdouble. }
  split; [done|]. by apply PipelineFacts.translate_properties_plain.
Qed.

Lemma analyzed_textures_not_translated_witness :
  Forall (λ e, textures {| name := "Unknown"; path := "Wood.mat";
                           textures := {[ "MainTex" := {| fileID := "2800000";
                                                          guid := Example.guid_wood |} ]};
                           floats := ∅; colors := ∅; shader_keywords := "" |} !! e.1 = None)
    property_mappings ∧
  ∃ text, material_text {| name := "Unknown"; path := "Wood.mat";
                           textures := {[ "MainTex" := {| fileID := "2800000";
                                                          guid := Example.guid_wood |} ]};
                           floats := ∅; colors := ∅; shader_keywords := "" |}
            "/u" "/g" Example.st0 = (Return text, Example.st0).
Proof.
  apply (analyzed_textures_not_translated "Wood.mat" Example.texture_slot "/u" "/g");
    reflexivity.
Defined.

(** ** The scalar block, whatever follows its marker *)

Module FloatBlockFacts.
Import Regex RegexFacts AnalyzerFacts SlotFacts.

Lemma float_item_split : float_item = Cat spaces float_item_tail.
Proof. reflexivity. Qed.

Lemma run_lit_exact l : ∀ s g, run (Lit l) (chars_of l ++ s) g = [(s, g)].
Proof.
  induction l as [|c l IH]; intros s g; [done|].
  cbn [Lit chars_of String.list_ascii_of_string app].
  change (run (Cat (Chr c) (Lit l)) ?t g)
    with (flat_map (λ m, run (Lit l) m.1 m.2) (run (Chr c) t g)).
  unfold Chr. cbn [run]. rewrite bool_decide_eq_true_2 by done.
  cbn [flat_map fst snd]. rewrite List.app_nil_r. apply IH.
Qed.

Lemma stops_block_space post : Spec.stops_block post = true → stops is_space (chars_of post).
Proof.
  intros [H _]%andb_true_iff. destruct post as [|c post]; [done|]. cbn in *.
  apply andb_true_iff in H as [H _]. by apply negb_true_iff.
Qed.

Lemma run_float_item_tail_stop post g :
  Spec.stops_block post = true → run float_item_tail (chars_of post) g = [].
Proof.
  intros Hpost. pose proof (run_float_item_stop post g Hpost) as Hrun.
  rewrite float_item_split in Hrun.
  change (run (Cat spaces float_item_tail) ?t g)
    with (flat_map (λ m, run float_item_tail m.1 m.2) (run (Star (Cls is_space)) t g)) in Hrun.
  rewrite run_star_cls_stop in Hrun by by apply stops_block_space.
  cbn [flat_map fst snd] in Hrun. by rewrite List.app_nil_r in Hrun.
Qed.

(** After white space only, no line of the block starts before a text that
    stops the block, however much of the white space is given back. *)
Lemma run_float_item_gap gap post g :
  forallb is_space gap = true → Spec.stops_block post = true →
  run float_item (gap ++ chars_of post) g = [].
Proof.
  intros Hgap Hpost. rewrite float_item_split.
  change (run (Cat spaces float_item_tail) ?t g)
    with (flat_map (λ m, run float_item_tail m.1 m.2) (run (Star (Cls is_space)) t g)).
  induction gap as [|c gap IH]; cbn [app].
  - rewrite run_star_cls_stop by by apply stops_block_space.
    cbn [flat_map fst snd]. by rewrite run_float_item_tail_stop.
  - cbn [forallb] in Hgap. apply andb_true_iff in Hgap as [Hc Hgap].
    rewrite run_star_cls_cons by done. rewrite flat_map_app, IH by done.
    cbn [flat_map fst snd app]. rewrite List.app_nil_r.
    unfold float_item_tail. cbn [run]. rewrite run_chr_other; [done|].
    cbn. by apply space_not_dash.
Qed.

Lemma run_group_plus_nil i r s g : run r s g = [] → run (Group i (Plus r)) s g = [].
Proof. intros H. unfold Plus. cbn [run]. by rewrite H. Qed.

Lemma run_float_lines_gap gap post : ∀ g,
  forallb is_space gap = true → Spec.stops_block post = true →
  flat_map (λ m, run (Group 1 (Plus float_item)) m.1 m.2)
    (run (Star (Cls is_space)) (gap ++ chars_of post) g) = [].
Proof.
  intros g Hgap Hpost. induction gap as [|c gap IH]; cbn [app].
  - rewrite run_star_cls_stop by by apply stops_block_space.
    cbn [flat_map fst snd]. rewrite List.app_nil_r.
    apply run_group_plus_nil. by apply (run_float_item_gap []).
  - pose proof Hgap as Hall. cbn [forallb] in Hgap.
    apply andb_true_iff in Hgap as [Hc Hgap].
    rewrite run_star_cls_cons by done. rewrite flat_map_app, IH by done.
    cbn [flat_map fst snd app]. rewrite List.app_nil_r.
    apply run_group_plus_nil. by apply (run_float_item_gap (c :: gap)).
Qed.

(** The pattern of the block does not match at a marker that no line
    follows. *)
Lemma match_here_float_pattern_no_line gap post :
  forallb is_space gap = true → Spec.stops_block post = true →
  match_here float_pattern (chars_of "m_Floats:" ++ gap ++ chars_of post) = None.
Proof.
  intros Hgap Hpost. unfold match_here, float_pattern.
  change (run (Cat (Lit "m_Floats:") ?r) ?t ∅)
    with (flat_map (λ m, run r m.1 m.2) (run (Lit "m_Floats:") t ∅)).
  rewrite run_lit_exact. cbn [flat_map fst snd]. rewrite List.app_nil_r.
  change (run (Cat spaces ?r) ?t ∅)
    with (flat_map (λ m, run r m.1 m.2) (run (Star (Cls is_space)) t ∅)).
  by rewrite run_float_lines_gap.
Qed.

Lemma space_not_m c : is_space c = true → bool_decide (c = "m"%char) = false.
Proof. destruct c as [[] [] [] [] [] [] [] []]; vm_compute; congruence. Qed.

(** A text that does not hold the marker does not hold it after
    characters other than its first either. *)
Lemma contains_marker_skip (x post : string) :
  Spec.all_chars (λ c, negb (bool_decide (c = "m"%char))) x = true →
  contains "m_Floats:" post = false → contains "m_Floats:" (x +:+ post) = false.
Proof.
  intros Hx Hpost. induction x as [|c x IH]; [done|]. sapp.
  cbn [Spec.all_chars String.list_ascii_of_string forallb] in Hx.
  apply andb_true_iff in Hx as [Hc Hx]. cbn [contains]. rewrite IH by done.
  rewrite orb_false_r. cbn [startswith].
  apply negb_true_iff, bool_decide_eq_false in Hc. by rewrite decide_False by congruence.
Qed.

Lemma all_chars_app p (x y : string) :
  Spec.all_chars p (x +:+ y) = Spec.all_chars p x && Spec.all_chars p y.
Proof. unfold Spec.all_chars. fold (chars_of (x +:+ y)). by rewrite chars_of_app, forallb_app. Qed.

Lemma all_chars_weaken (p q : ascii → bool) (x : string) :
  (∀ c, p c = true → q c = true) → Spec.all_chars p x = true → Spec.all_chars q x = true.
Proof.
  intros Hpq. unfold Spec.all_chars. rewrite !forallb_forall. intros H c Hc. by apply Hpq, H.
Qed.

(** A marker that no line follows, in a text with no other marker: the
    search finds no block. *)
Lemma search_float_pattern_no_line pre gap post :
  contains "m_Floats:" pre = false →
  Spec.all_chars is_space gap = true → Spec.stops_block post = true →
  contains "m_Floats:" post = false →
  search float_pattern (chars_of (pre +:+ "m_Floats:" +:+ gap +:+ post)) = None.
Proof.
  intros Hpre Hgap Hpost Hrest.
  rewrite chars_of_app. unfold float_pattern at 1. rewrite search_lit_skip.
  2:{ intros a b -> Hb. rewrite chars_of_app. apply floats_marker_border; [done|].
      by eapply contains_suffix. }
  fold float_pattern. rewrite !chars_of_app.
  assert (∀ s, search float_pattern s
               = match match_here float_pattern s with
                 | Some m => Some m
                 | None => match s with [] => None | _ :: s' => search float_pattern s' end
                 end) as -> by by intros [|? ?].
  rewrite match_here_float_pattern_no_line by done.
  change (chars_of "m_Floats:" ++ chars_of gap ++ chars_of post)
    with ("m"%char :: chars_of "_Floats:" ++ chars_of gap ++ chars_of post).
  cbn beta iota. rewrite <- !chars_of_app.
  unfold float_pattern. apply search_lit_absent.
  rewrite <- TextFacts.append_assoc. apply contains_marker_skip; [|done].
  rewrite all_chars_app. apply andb_true_iff. split; [reflexivity|].
  eapply all_chars_weaken; [|exact Hgap]. intros c Hc. by rewrite space_not_m.
Qed.

Lemma parse_floats_no_line pre gap post :
  contains "m_Floats:" pre = false →
  Spec.all_chars is_space gap = true → Spec.stops_block post = true →
  contains "m_Floats:" post = false →
  parse_floats (pre +:+ "m_Floats:" +:+ gap +:+ post) = Return ∅.
Proof.
  intros Hpre Hgap Hpost Hrest. unfold parse_floats.
  by rewrite search_float_pattern_no_line.
Qed.

(** The analysis raises on the colours only when it has the floats. *)
Lemma analyze_content_with_floats mat_path content fl :
  parse_floats content = Return fl →
  match analyze_content mat_path content with
  | Return m => floats m = fl
  | Raise _ => parse_colors content = Raise ValueError_
  end.
Proof.
  intros Hfl. unfold analyze_content. rewrite Hfl.
  destruct (parse_colors content) as [cl|[]] eqn:Hcol; try done.
  exfalso. revert Hcol. unfold parse_colors.
  destruct (Regex.search _ _); [|done].
  generalize (∅ : gmap string rgba).
  induction (Regex.finditer _ _) as [|m ms IH]; intros acc; [done|].
  cbn [collect_colors].
  repeat match goal with |- context [PyFloat.float_of_str ?x] =>
           destruct (PyFloat.float_of_str x); try done end.
  apply IH.
Qed.

End FloatBlockFacts.

(** C7 (as amended). The analyzer takes the floats block at the first
    [m_Floats:] of the text: white space, then the lines
    [- _<Name>: <number>] whose number is written with digits and dots, up
    to a text that is no such line. Every line of the block goes into the
    floats map, under its name (underscore included) and with the value
    [float] reads from its number, a later line replacing an earlier one of
    the same name; a number [float] rejects raises its [ValueError]. A line
    that is not of this form, as one with a signed number, ends the block:
    it and the lines after it are left out. The record the analysis returns
    holds that map. A marker that no line follows, in a text with no other
    marker, and a text without the marker give the empty map and raise
    nothing. *)
Theorem floats_block_parsed
  (mat_path pre gap : string) (ls : list Spec.float_line) (post : string) :
  contains "m_Floats:" pre = false →
  Spec.all_chars is_space gap = true →
  forallb Spec.line_ok ls = true →
  Spec.stops_block post = true →
  (ls = [] → contains "m_Floats:" post = false) →
  let content := pre +:+ "m_Floats:" +:+ gap +:+ Spec.render_lines ls +:+ post in
  parse_floats content = Spec.floats_of_lines ls ∅ ∧
  (∀ m, analyze_content mat_path content = Return m →
        Spec.floats_of_lines ls ∅ = Return (floats m)) ∧
  (∀ fl, Spec.floats_of_lines ls ∅ = Return fl →
         match analyze_content mat_path content with
         | Return m => floats m = fl
         | Raise _ => parse_colors content = Raise ValueError_
         end) ∧
  (∀ other, contains "m_Floats:" other = false → parse_floats other = Return ∅).
Proof.
  intros Hpre Hgap Hls Hpost Hrest content.
  assert (parse_floats content = Spec.floats_of_lines ls ∅) as Hparse.
  { subst content. destruct ls as [|l ls].
    - cbn [Spec.render_lines map concat_all Spec.floats_of_lines]. sapp.
      apply FloatBlockFacts.parse_floats_no_line; auto.
    - by apply AnalyzerFacts.parse_floats_lines. }
  split; [done|]. split; [|split].
  - intros m Hm. rewrite <- Hparse. by apply (AnalyzerFacts.analyze_content_floats mat_path).
  - intros fl Hfl. apply FloatBlockFacts.analyze_content_with_floats. by rewrite Hparse.
  - apply AnalyzerFacts.parse_floats_absent.
Qed.

Lemma floats_block_parsed_witness :
  let content := Example.signed_block in
  parse_floats content = Spec.floats_of_lines [Example.cutoff_line] ∅ ∧
  (∀ m, analyze_content "Wood.mat" content = Return m →
        Spec.floats_of_lines [Example.cutoff_line] ∅ = Return (floats m)) ∧
  (∀ fl, Spec.floats_of_lines [Example.cutoff_line] ∅ = Return fl →
         match analyze_content "Wood.mat" content with
         | Return m => floats m = fl
         | Raise _ => parse_colors content = Raise ValueError_
         end) ∧
  (∀ other, contains "m_Floats:" other = false → parse_floats other = Return ∅).
Proof.
  apply (floats_block_parsed "Wood.mat" Example.floats_pre Example.floats_gap
           [Example.cutoff_line] Example.signed_rest);
    [reflexivity|reflexivity|reflexivity|reflexivity|discriminate].
Defined.

(** C7, the claim as stated: not every line [- _<Name>: <number>] after the
    marker goes into the map with its numeric value. In the first text the
    line of [_Offset], whose number is [-2], ends the block: neither it nor
    the line of [_Glossiness] after it is in the map. In the second the
    number [1e-05] is taken up to its exponent and stored as [1.0]. *)
Lemma signed_or_exponent_scalar_is_lost :
  contains ("- _Offset: -2" +:+ nl) Example.signed_block = true ∧
  contains ("- _Glossiness: 0.8" +:+ nl) Example.signed_block = true ∧
  match parse_floats Example.signed_block with
  | Return fl => (PyFloat.repr <$> fl !! "_Cutoff", PyFloat.repr <$> fl !! "_Offset",
                  PyFloat.repr <$> fl !! "_Glossiness", size fl)
  | Raise _ => (None, None, None, 0)
  end = (Some "0.5", None, None, 1) ∧
  contains ("- _Scale: 1e-05" +:+ nl) Example.exponent_block = true ∧
  match parse_floats Example.exponent_block with
  | Return fl => (PyFloat.repr <$> fl !! "_Scale", size fl)
  | Raise _ => (None, 0)
  end = (Some "1.0", 1).
Proof. vm_compute. done. Qed.

(** The two lines of the sample block, as the analysis stores them. *)
Example floats_of_sample_block :
  match analyze_content "Wood.mat"
          (Example.floats_pre +:+ "m_Floats:" +:+ Example.floats_gap
           +:+ Spec.render_lines Example.float_lines +:+ Example.floats_post) with
  | Return m => (PyFloat.repr <$> floats m !! "_Cutoff",
                 PyFloat.repr <$> floats m !! "_Glossiness", size (floats m))
  | Raise _ => (None, None, 0)
  end = (Some "0.5", Some "0.8", 2).
Proof. vm_compute. reflexivity. Qed.

Module GrowFacts.

Lemma grows_refl st : grows st st.
Proof. by repeat split. Qed.

Lemma grows_trans a b c : grows a b → grows b c → grows a c.
Proof.
  intros (Hd1 & Hu1 & Hg1) (Hd2 & Hu2 & Hg2).
  repeat split; [congruence|by etrans|by etrans].
Qed.

Lemma find_meta_grows st ur g v st' :
  resolved ur g v st st' → grows st st'.
Proof.
  intros (Hd & Hg & _ & [[_ ->]|(Hmiss & _ & Hc & _)]); [apply grows_refl|].
  repeat split; [done| |by rewrite Hg]. rewrite Hc. by apply insert_subseteq.
Qed.

Lemma find_godot_resource_grows st gr p :
  ∃ v st', find_godot_resource gr p st = (Return v, st') ∧ grows st st'.
Proof.
  destruct (nonempty p) eqn:Hne.
  2:{ exists None, st. rewrite SimilarFacts.find_godot_resource_empty by done.
      split; [done|apply grows_refl]. }
  destruct (godot_resource_cache st !! cache_key gr p) as [v|] eqn:Hc.
  { exists v, st. rewrite (find_godot_resource_cached st _ _ v) by done.
    split; [done|apply grows_refl]. }
  destruct (locate_returns (extensions (sep (disk st)) p) st gr (base_name (sep (disk st)) p))
    as (v & st1 & Hl & Hu & Hg & Hd & _).
  destruct (SimilarFacts.find_godot_resource_miss st gr p v st1 Hne Hc Hl)
    as (st' & Hf & Hg' & Hu' & Hd').
  exists v, st'. split; [done|]. repeat split; [congruence|by rewrite Hu', Hu|].
  rewrite Hg', Hg. by apply insert_subseteq.
Qed.

Lemma translate_property_grows m ur gr unity_prop godot_prop st :
  wf (disk st) = true →
  ∃ piece st',
    translate_property m ur gr unity_prop godot_prop st = (Return piece, st') ∧
    grows st st'.
Proof.
  intros Hwf. destruct (textures m !! unity_prop) as [tex|] eqn:Htex.
  - destruct (find_meta_returns st ur (guid tex) Hwf) as (v & st1 & Hfind & Hres).
    pose proof (find_meta_grows _ _ _ _ _ Hres) as Hg1.
    destruct (SimilarFacts.translate_property_texture m ur gr unity_prop godot_prop tex
                st v st1 Htex Hfind) as [Hfalse Htrue].
    destruct (truthy v).
    + destruct (find_godot_resource_grows st1 gr (default "" v)) as (gv & st2 & Hl & Hg2).
      destruct (Htrue eq_refl gv st2 Hl) as (st3 & Ht & Hu3 & Hg3 & Hd3).
      exists (texture_piece godot_prop gv), st3. split; [done|].
      eapply grows_trans; [exact Hg1|]. destruct Hg2 as (Hd2 & Hu2 & Hgc2).
      repeat split; [congruence|by rewrite Hu3|by rewrite Hg3].
    + exists "", st1. by rewrite Hfalse.
  - destruct (SimilarFacts.translate_property_plain m m ur gr unity_prop godot_prop st)
      as (piece & Hp & _); try done.
    exists piece, st. split; [done|apply grows_refl].
Qed.

Lemma translate_properties_grows m ur gr table : ∀ tres_content st,
  wf (disk st) = true →
  ∃ text st',
    translate_properties m ur gr table tres_content st = (Return text, st') ∧
    grows st st'.
Proof.
  induction table as [|[up gp] table IH]; intros acc st Hwf.
  { exists acc, st. split; [done|apply grows_refl]. }
  destruct (translate_property_grows m ur gr up gp st Hwf) as (piece & st1 & Hp & Hg1).
  rewrite (SimilarFacts.translate_properties_cons _ _ _ _ _ _ _ _ _ _ Hp).
  destruct (IH (acc +:+ piece) st1) as (text & st' & Ht & Hg2).
  { destruct Hg1 as (-> & _). done. }
  exists text, st'. split; [done|]. by eapply grows_trans.
Qed.

End GrowFacts.

(** X16. The translation of a record reads the disk only and never
    forgets a cached answer: after a call that returns, on a well-formed
    file system, the disk is as it was and both caches hold at least what
    they held. *)
Theorem material_text_grows (m : material) (ur gr : string) (st st' : state)
  (text : string) :
  wf (disk st) = true →
  material_text m ur gr st = (Return text, st') →
  disk st' = disk st ∧
  unity_texture_cache st ⊆ unity_texture_cache st' ∧
  godot_resource_cache st ⊆ godot_resource_cache st'.
Proof.
  intros Hwf Hcall.
  destruct (GrowFacts.translate_properties_grows m ur gr property_mappings
              (header +:+ transparency m) st Hwf) as (text0 & st0 & Ht & Hg).
  unfold material_text in Hcall. rewrite Ht in Hcall. by injection Hcall as <- <-.
Qed.

Lemma material_text_grows_witness :
  disk (material_text Example.lost_texture "/u" "/g" Example.st0).2 = disk Example.st0 ∧
  unity_texture_cache Example.st0
  ⊆ unity_texture_cache (material_text Example.lost_texture "/u" "/g" Example.st0).2 ∧
  godot_resource_cache Example.st0
  ⊆ godot_resource_cache (material_text Example.lost_texture "/u" "/g" Example.st0).2.
Proof.
  exact (material_text_grows Example.lost_texture "/u" "/g" Example.st0 _
           (header +:+ "albedo_color = Color(1.0, 0.5, 0.25, 1.0)" +:+ nl) eq_refl eq_refl).
Defined.

(** X28. When the input directory holds no material and no
    mesh (or does not exist), [convert_directory] prints its four progress
    lines and changes nothing else: disk and caches stay as they were and no
    directory is walked. *)
Theorem convert_directory_nothing_found (st : state)
  (input_dir output_dir unity_project_root godot_project_root : string) :
  glob (disk st) input_dir ".mat" = [] →
  glob (disk st) input_dir ".fbx" = [] →
  ∃ st',
    convert_directory input_dir output_dir unity_project_root godot_project_root st
    = (Return (), st') ∧
    stdout st'
    = stdout st ++ [ nl +:+ "Found 0 material files and 0 FBX files.";
                     nl +:+ "Converting materials...";
                     nl +:+ "Creating scene files with material assignments...";
                     nl +:+ "Conversion complete!" ] ∧
    disk st' = disk st ∧
    unity_texture_cache st' = unity_texture_cache st ∧
    godot_resource_cache st' = godot_resource_cache st ∧
    walks st' = walks st.
Proof.
  intros Hmat Hfbx. unfold convert_directory, bind, get, print, ret. cbn.
  rewrite Hmat, Hfbx. cbn. eexists. split; [reflexivity|]. cbn.
  by rewrite <- !List.app_assoc.
Qed.

Lemma convert_directory_nothing_found_witness :
  ∃ st',
    convert_directory "/u/Nowhere" "/g/assets" "/u" "/g" Example.st0 = (Return (), st') ∧
    stdout st'
    = stdout Example.st0 ++ [ nl +:+ "Found 0 material files and 0 FBX files.";
                              nl +:+ "Converting materials...";
                              nl +:+ "Creating scene files with material assignments...";
                              nl +:+ "Conversion complete!" ] ∧
    disk st' = disk Example.st0 ∧
    unity_texture_cache st' = unity_texture_cache Example.st0 ∧
    godot_resource_cache st' = godot_resource_cache Example.st0 ∧
    walks st' = walks Example.st0.
Proof.
  exact (convert_directory_nothing_found Example.st0 "/u/Nowhere" "/g/assets" "/u" "/g"
           eq_refl eq_refl).
Defined.

Module ColorFacts.
Import Regex RegexFacts AnalyzerFacts MatchFacts.

Local Abbreviation not_brace := (λ c : ascii, negb (bool_decide (c = "}"%char))).




(** The characters of an entry, part by part. *)
Lemma color_line_chars l :
  chars_of (render_color_line l)
  = "-"%char :: " "%char :: "_"%char :: chars_of (color_name l)
    ++ ":"%char :: " "%char :: "{"%char :: chars_of "r:" ++ " "%char :: chars_of (red l)
    ++ ","%char :: " "%char :: chars_of "g:" ++ " "%char :: chars_of (green l)
    ++ ","%char :: " "%char :: chars_of "b:" ++ " "%char :: chars_of (blue l)
    ++ ","%char :: " "%char :: chars_of "a:" ++ " "%char :: chars_of (alpha l)
    ++ "}"%char :: chars_of (color_trailing l).
Proof.
  unfold render_color_line. rewrite !chars_of_app.
  cbn [chars_of String.list_ascii_of_string app].
  repeat (rewrite <- List.app_assoc || rewrite <- List.app_comm_cons). done.
Qed.







Lemma stops_color_items_end ls : stops is_space (color_items ls).
Proof.
  destruct ls as [|l ls]; [done|]. unfold color_items. cbn [map concat].
  by rewrite color_line_chars.
Qed.













End ColorFacts.



Module MaterialStepFacts.

Lemma convert_material_eq ur gr material_paths mat_file output_file st :
  convert_material ur gr material_paths mat_file output_file st
  = match analyze_unity_material mat_file st with
    | (Raise e, st1) => (Raise e, st1)
    | (Return m, st1) =>
        match generate_godot_material m ur gr output_file st1 with
        | (Raise e, st2) => (Raise e, st2)
        | (Return _, st2) =>
            match Path.relative_to (sep (disk st)) output_file gr with
            | None => (Raise ValueError_, st2)
            | Some rel =>
                (Return (dict_set material_paths (name m)
                           (replace_char backslash "/" ("res://" +:+ rel))),
                 (print ("Converted material: " +:+ Path.path_name (sep (disk st)) mat_file
                         +:+ " -> " +:+ Path.path_name (sep (disk st)) output_file) st2).2)
            end
        end
    end.
Proof.
  unfold convert_material. unfold bind at 1, get. cbn beta iota. unfold bind at 1.
  destruct (analyze_unity_material mat_file st) as [[m|e] st1]; [|done].
  unfold bind at 1.
  destruct (generate_godot_material m ur gr output_file st1) as [[[]|e] st2]; [|done].
  destruct (Path.relative_to _ _ _); [|done]. by unfold bind, print, ret.
Qed.

Lemma generate_godot_material_written m ur gr out st st' :
  generate_godot_material m ur gr out st = (Return (), st') →
  ∃ text, (material_text m ur gr st).1 = Return text ∧
          read_utf8 (disk st') out = ReadOk (universal_newlines text).
Proof.
  rewrite WriteFacts.generate_godot_material_eq.
  destruct (material_text m ur gr st) as [[text|e] st1]; [|done].
  destruct (makedirs _ _) as [fs1|]; [|done].
  destruct (write_text fs1 out text) as [fs2|] eqn:Hw; [|done].
  intros [= <-]. exists text. split; [done|]. by eapply WriteFacts.write_text_read.
Qed.

End MaterialStepFacts.

(** X24. When the body of the materials loop succeeds for a
    material file, the file was analysed, its text was written to the output
    file (read back as UTF-8 text it is the text built, line ends translated
    as a text-mode read does: exactly the text built when that holds no
    carriage return), and the material paths hold, under the name the
    analysis found, [res://] followed by the path of the output file
    relative to the Godot project root, with forward slashes only. *)
Theorem convert_material_records (ur gr : string) (material_paths : list (string * string))
  (mat_file output_file : string) (st st' : state)
  (material_paths' : list (string * string)) :
  convert_material ur gr material_paths mat_file output_file st
  = (Return material_paths', st') →
  ∃ m rel text,
    analyze_unity_material mat_file st = (Return m, st) ∧
    (material_text m ur gr st).1 = Return text ∧
    read_utf8 (disk st') output_file = ReadOk (universal_newlines text) ∧
    (contains (String carriage_return "") text = false →
     read_utf8 (disk st') output_file = ReadOk text) ∧
    Path.relative_to (sep (disk st)) output_file gr = Some rel ∧
    material_paths'
    = dict_set material_paths (name m) ("res://" +:+ replace_char backslash "/" rel) ∧
    contains (String backslash "") ("res://" +:+ replace_char backslash "/" rel) = false.
Proof.
  rewrite MaterialStepFacts.convert_material_eq.
  pose proof (LoopFacts.analyze_unity_material_state mat_file st) as Ha.
  destruct (analyze_unity_material mat_file st) as [[m|e] st1]; [|done].
  cbn [snd] in Ha. subst st1.
  destruct (generate_godot_material m ur gr output_file st) as [[[]|e] st2] eqn:Hg; [|done].
  destruct (Path.relative_to _ _ _) as [rel|]; [|done].
  intros [= <- <-].
  destruct (MaterialStepFacts.generate_godot_material_written _ _ _ _ _ _ Hg)
    as (text & Ht & Hr).
  exists m, rel, text. do 3 (split; [done|]).
  split.
  { intros Hplain. etrans; [exact Hr|]. by rewrite WriteFacts.universal_newlines_plain. }
  repeat split; try done.
  apply (ResPathFacts.res_path_shape rel).
Qed.

Lemma convert_material_records_witness :
  ∃ m rel text,
    analyze_unity_material "/u/Assets/Plain.mat" (fresh Example.fs_project)
    = (Return m, fresh Example.fs_project) ∧
    (material_text m "/u" "/g" (fresh Example.fs_project)).1 = Return text ∧
    read_utf8 (disk (convert_material "/u" "/g" [] "/u/Assets/Plain.mat"
                       "/g/assets/Plain.tres" (fresh Example.fs_project)).2)
      "/g/assets/Plain.tres" = ReadOk (universal_newlines text) ∧
    (contains (String carriage_return "") text = false →
     read_utf8 (disk (convert_material "/u" "/g" [] "/u/Assets/Plain.mat"
                        "/g/assets/Plain.tres" (fresh Example.fs_project)).2)
       "/g/assets/Plain.tres" = ReadOk text) ∧
    Path.relative_to (sep (disk (fresh Example.fs_project))) "/g/assets/Plain.tres" "/g"
    = Some rel ∧
    [("Plain", "res://assets/Plain.tres")]
    = dict_set [] (name m) ("res://" +:+ replace_char backslash "/" rel) ∧
    contains (String backslash "") ("res://" +:+ replace_char backslash "/" rel) = false.
Proof.
  exact (convert_material_records "/u" "/g" [] "/u/Assets/Plain.mat" "/g/assets/Plain.tres"
           (fresh Example.fs_project) _ [("Plain", "res://assets/Plain.tres")] eq_refl).
Defined.

(** X25. A material whose output file does not lie below the
    Godot project root is written all the same, since the file is generated
    before its resource path is computed; but the step then fails, an error
    line is printed for the material, and the material paths get no entry
    for it, so no mesh is assigned this material. *)
Theorem convert_materials_outside_root
  (input_dir output_dir ur gr : string) (material_paths : list (string * string))
  (mat_file output_file : string) (rest : list string) (m : material) (st st2 : state) :
  output_file_for (sep (disk st)) input_dir output_dir mat_file = Some output_file →
  analyze_unity_material mat_file st = (Return m, st) →
  generate_godot_material m ur gr output_file st = (Return (), st2) →
  Path.relative_to (sep (disk st)) output_file gr = None →
  ∃ st3 line text,
    convert_materials input_dir output_dir ur gr (mat_file :: rest) material_paths st
    = convert_materials input_dir output_dir ur gr rest material_paths st3 ∧
    disk st3 = disk st2 ∧
    read_utf8 (disk st3) output_file = ReadOk text ∧
    stdout st3 = stdout st2 ++ [line] ∧
    startswith ("Error converting " +:+ mat_file) line = true.
Proof.
  intros Hout Ha Hg Hrel.
  destruct (MaterialStepFacts.generate_godot_material_written _ _ _ _ _ _ Hg)
    as (text & _ & Hr).
  cbn [convert_materials]. unfold bind at 1, get. cbn beta iota. rewrite Hout.
  unfold bind at 1, catch. rewrite MaterialStepFacts.convert_material_eq, Ha, Hg, Hrel.
  unfold bind at 1, print at 1. cbn beta iota. unfold ret at 1.
  eexists _, _, (universal_newlines text). split; [reflexivity|]. cbn [disk stdout].
  repeat split; [done|]. apply startswith_spec. eexists. by rewrite append_assoc.
Qed.

Lemma convert_materials_outside_root_witness :
  ∃ st3 line text,
    convert_materials "/u/Assets" "/elsewhere" "/u" "/g" ("/u/Assets/Plain.mat" :: []) []
      (fresh Example.fs_project)
    = convert_materials "/u/Assets" "/elsewhere" "/u" "/g" [] [] st3 ∧
    disk st3 = disk (generate_godot_material Example.plain "/u" "/g" "/elsewhere/Plain.tres"
                       (fresh Example.fs_project)).2 ∧
    read_utf8 (disk st3) "/elsewhere/Plain.tres" = ReadOk text ∧
    stdout st3 = stdout (generate_godot_material Example.plain "/u" "/g"
                           "/elsewhere/Plain.tres" (fresh Example.fs_project)).2 ++ [line] ∧
    startswith ("Error converting " +:+ "/u/Assets/Plain.mat") line = true.
Proof.
  exact (convert_materials_outside_root "/u/Assets" "/elsewhere" "/u" "/g" []
           "/u/Assets/Plain.mat" "/elsewhere/Plain.tres" [] Example.plain
           (fresh Example.fs_project) _ eq_refl eq_refl eq_refl eq_refl).
Defined.
